(** * create_atoms: a shallow embedding of CreateAtoms (create_atoms.cpp)

    The definitions follow the source file top to bottom:
    - [Int32]: the C [int] counters and loop indices, with wrap-around;
    - [Geom]: the [double] coordinates and the sub-box ownership tests;
    - the data of the command, of the domain and of a rank;
    - [scale_units] and [set_bounds]: the set-up made by [command];
    - [add_molecule] and [add_single];
    - [add_lattice] and [loop_lattice];
    - [add_random];
    - [Stitch]: the molecule-ID and topology loop that ends [command];
    - [Command]: the reading of the arguments that begins [command].
    The properties come after the definitions, in the same order.

    A [double] is modelled by a rational number: comparisons are exact,
    arithmetic is performed without rounding, and there is no NaN.  The
    cooperating MPI ranks are modelled as a list of per-rank states that is
    advanced in lock step, a collective operation being a function of the
    whole list. *)

From Stdlib Require Import String ZArith QArith Qround List Permutation Bool Lia Lqa.
Import ListNotations.

Local Open Scope Z_scope.

(** ** C [int]: 32 bits, two's complement *)

Module Int32.

Definition MAXSMALLINT : Z := 2147483647.
Definition MINSMALLINT : Z := -2147483648.

(** The value an [int] holds after an arithmetic result [z]. *)
Definition wrap (z : Z) : Z := (z + 2147483648) mod 4294967296 - 2147483648.

Definition in_range (z : Z) : Prop := MINSMALLINT <= z <= MAXSMALLINT.

Definition add (a b : Z) : Z := wrap (a + b).
Definition sub (a b : Z) : Z := wrap (a - b).
Definition incr (a : Z) : Z := add a 1.
Definition decr (a : Z) : Z := sub a 1.

(** [static_cast<int>(double)]: truncation toward zero.  A value outside the
    range of [int] is undefined in C++; the model wraps it like the integer
    operations. *)
Definition truncate (q : Q) : Z := Z.quot (Qnum q) (Zpos (Qden q)).
Definition static_cast_int (q : Q) : Z := wrap (truncate q).

End Int32.

(** ** Coordinates and the ownership tests *)

Module Geom.

Local Open Scope Q_scope.

(** [double x[3]] *)
Record vec3 : Type := mkvec { c0 : Q; c1 : Q; c2 : Q }.

Definition Qleb (a b : Q) : bool := Qle_bool a b.
Definition Qltb (a b : Q) : bool := negb (Qle_bool b a).
Definition Qgeb (a b : Q) : bool := Qleb b a.
Definition Qgtb (a b : Q) : bool := Qltb b a.

(** The test of [add_single] and [add_random]:
    [coord[0] >= sublo[0] && coord[0] < subhi[0] && ...] *)
Definition in_subbox (sublo subhi coord : vec3) : bool :=
  Qgeb (c0 coord) (c0 sublo) && Qltb (c0 coord) (c0 subhi) &&
  Qgeb (c1 coord) (c1 sublo) && Qltb (c1 coord) (c1 subhi) &&
  Qgeb (c2 coord) (c2 sublo) && Qltb (c2 coord) (c2 subhi).

(** The test of [loop_lattice], written the other way round:
    [coord[0] < sublo[0] || coord[0] >= subhi[0] || ...] makes the loop
    [continue]. *)
Definition outside_subbox (sublo subhi coord : vec3) : bool :=
  Qltb (c0 coord) (c0 sublo) || Qgeb (c0 coord) (c0 subhi) ||
  Qltb (c1 coord) (c1 sublo) || Qgeb (c1 coord) (c1 subhi) ||
  Qltb (c2 coord) (c2 sublo) || Qgeb (c2 coord) (c2 subhi).

(** Half-open membership, as a proposition. *)
Definition half_open (sublo subhi coord : vec3) : Prop :=
  (c0 sublo <= c0 coord /\ c0 coord < c0 subhi) /\
  (c1 sublo <= c1 coord /\ c1 coord < c1 subhi) /\
  (c2 sublo <= c2 coord /\ c2 coord < c2 subhi).

End Geom.

Export Geom.

(** ** The command's data *)

Inductive Style : Set := BOX | REGION | SINGLE | RANDOM.
Inductive Mode : Set := ATOM | MOLECULE.
Inductive Action : Set := COUNT | INSERT | INSERT_SELECTED.
Inductive SubsetFlag : Set := NONE | RATIO | SUBSET.

Definition is_lattice_style (s : Style) : bool :=
  match s with BOX | REGION => true | _ => false end.

(** [error->all] aborts the command on every rank. *)
Inductive result (A : Type) : Type :=
| Ok (a : A)
| Fatal (msg : String.string)
| OutOfBounds (index : Z).       (* a read outside an allocated array *)
Arguments Ok {A} a.
Arguments Fatal {A} msg.
Arguments OutOfBounds {A} index.

Definition bind {A B} (r : result A) (f : A -> result B) : result B :=
  match r with
  | Ok a => f a
  | Fatal m => Fatal m
  | OutOfBounds i => OutOfBounds i
  end.

(** A loop whose body may stop the command. *)
Fixpoint for_each {A S : Type} (body : A -> S -> result S) (l : list A) (s : S)
  : result S :=
  match l with
  | [] => Ok s
  | a :: l' => bind (body a s) (for_each body l')
  end.

(** The same step on every rank. *)
Fixpoint on_all {S T : Type} (f : S -> result T) (l : list S) : result (list T) :=
  match l with
  | [] => Ok []
  | s :: l' => bind (f s) (fun t => bind (on_all f l') (fun ts => Ok (t :: ts)))
  end.

(** [for (v = lo; v <= hi; v++)]: the values the loop variable takes, for
    an upper bound below INT_MAX (at INT_MAX the increment would overflow
    before the test fails). *)
Definition Zrange (lo hi : Z) : list Z :=
  map (fun n => lo + Z.of_nat n)%Z (seq 0 (Z.to_nat (hi - lo + 1))).

Notation "x <- r ;; k" := (bind r (fun x => k))
  (at level 61, r at next level, right associativity).

(** [int myloc[3]], [int procgrid[3]] *)
Record ivec3 : Set := mkivec { i0 : Z; i1 : Z; i2 : Z }.

(** [double quat[4]] and [double rotmat[3][3]] (by rows) *)
Record quat : Type := mkquat { q0 : Q; q1 : Q; q2 : Q; q3 : Q }.
Record mat3 : Type := mkmat { row0 : vec3; row1 : vec3; row2 : vec3 }.

(** The fields of [Lattice] the command reads. *)
Record Lattice : Type := mkLattice {
  xlattice : Q; ylattice : Q; zlattice : Q;
  basis : list vec3
}.
Definition nbasis (lat : Lattice) : nat := length (basis lat).

(** The fields of [Domain] that are the same on every rank. *)
Record Domain : Type := mkDomain {
  triclinic : bool;
  dimension : Z;
  xperiodic : bool; yperiodic : bool; zperiodic : bool;
  prd : vec3;
  boxlo : vec3; boxhi : vec3;
  boxlo_bound : vec3; boxhi_bound : vec3;
  boxlo_lamda : vec3; boxhi_lamda : vec3
}.

(** The fields of [Domain] and [Comm] that differ from rank to rank. *)
Record Proc : Type := mkProc {
  me : Z;
  layout_tiled : bool;
  myloc : ivec3; procgrid : ivec3;
  mysplit_lo : vec3; mysplit_hi : vec3;     (* mysplit[d][0], mysplit[d][1] *)
  dom_sublo : vec3; dom_subhi : vec3;       (* domain->sublo, subhi *)
  dom_sublo_lamda : vec3; dom_subhi_lamda : vec3
}.

(** The fields of a bounded [Region]. *)
Record Region : Type := mkRegion {
  bboxflag : bool;
  extent_lo : vec3; extent_hi : vec3
}.

(** The fields of the [Molecule] template that creation and stitching read. *)
Record Molecule : Type := mkMolecule {
  dx : list vec3;              (* offsets from the center, natoms rows *)
  mol_type : list Z;
  molradius : Q;
  moleculeflag : bool;
  mol_molecule : list Z;       (* onemol->molecule[m] *)
  nmolecules : Z;
  bondflag : bool; angleflag : bool; dihedralflag : bool;
  improperflag : bool; specialflag : bool
}.
Definition natoms (mol : Molecule) : nat := length (dx mol).

(** What [command] has parsed; identical on all ranks. *)
Record Params : Type := mkParams {
  ntype : Z;
  style : Style;
  mode : Mode;
  region : option Region;
  onemol : Molecule;
  basistype : list Z;
  remapflag : bool;
  varflag : bool;
  xstr : bool; ystr : bool; zstr : bool;   (* is the variable name set? *)
  quat_user : bool;
  quatone : quat;
  subsetflag : SubsetFlag;
  subsetfrac : Q;
  nsubset : Z;
  subsetseed : Z;
  overlapflag : bool;
  overlap : Q;
  maxtry : Z;
  nrandom : Z;
  seed : Z;
  molseed : Z;
  xone : vec3
}.

(** One created atom: [atom->type[i]], [atom->x[i]]. *)
Record AtomRec : Type := mkAtom { a_type : Z; a_x : vec3 }.

(** The state of one rank while atoms are added. *)
Record Rank : Type := mkRank {
  proc : Proc;
  sublo : vec3; subhi : vec3;       (* CreateAtoms::sublo, subhi *)
  atoms : list AtomRec;             (* atom->x, atom->type, nlocal entries *)
  ranmol_n : nat;                   (* draws taken from ranmol so far *)
  ilo : Z; ihi : Z; jlo : Z; jhi : Z; klo : Z; khi : Z;
  nlatt : Z;
  nlatt_overflow : Z
}.

Definition nlocal (r : Rank) : nat := length (atoms r).

Definition set_atoms (r : Rank) (l : list AtomRec) (n : nat) : Rank :=
  mkRank (proc r) (sublo r) (subhi r) l n
         (ilo r) (ihi r) (jlo r) (jhi r) (klo r) (khi r)
         (nlatt r) (nlatt_overflow r).

Definition set_nlatt (r : Rank) (n : Z) : Rank :=
  mkRank (proc r) (sublo r) (subhi r) (atoms r) (ranmol_n r)
         (ilo r) (ihi r) (jlo r) (jhi r) (klo r) (khi r)
         n (nlatt_overflow r).

Definition set_nlatt_overflow (r : Rank) (f : Z) : Rank :=
  mkRank (proc r) (sublo r) (subhi r) (atoms r) (ranmol_n r)
         (ilo r) (ihi r) (jlo r) (jhi r) (klo r) (khi r)
         (nlatt r) f.

Definition set_sub (r : Rank) (lo hi : vec3) : Rank :=
  mkRank (proc r) lo hi (atoms r) (ranmol_n r)
         (ilo r) (ihi r) (jlo r) (jhi r) (klo r) (khi r)
         (nlatt r) (nlatt_overflow r).

Definition set_loop_bounds (r : Rank) (il ih jl jh kl kh : Z) : Rank :=
  mkRank (proc r) (sublo r) (subhi r) (atoms r) (ranmol_n r)
         il ih jl jh kl kh (nlatt r) (nlatt_overflow r).

(** ** The collaborators of the command

    Functions of other classes that the file calls and that are not part of
    it.  Each of them is a parameter of the model. *)

Class Collaborators : Type := {
  (* Domain *)
  remap : vec3 -> vec3;
  x2lamda : vec3 -> vec3;
  minimum_image : vec3 -> vec3;
  domain_bbox : vec3 -> vec3 -> vec3 * vec3;
  (* Lattice *)
  lattice2box : vec3 -> vec3;
  lattice_bbox : vec3 -> vec3 * vec3 -> vec3 * vec3;
  (* Region::match *)
  region_match : vec3 -> bool;
  (* Variable::compute_equal, as a function of the internal variables set *)
  compute_equal : option Q -> option Q -> option Q -> Q;
  (* RanPark::uniform and RanMars::uniform: the n-th draw after seeding *)
  park_uniform : Z -> nat -> Q;
  mars_uniform : Z -> nat -> Q;
  (* RanMars::select_subset: the mark written for a site index *)
  select_subset : Z -> Z -> Z -> nat -> Z;
  (* MathExtra *)
  norm3 : vec3 -> vec3;
  axisangle_to_quat : vec3 -> Q -> quat;
  quat_to_mat : quat -> mat3;
  MY_2PI : Q
}.

Section Model.

Context {ext : Collaborators}.

Local Open Scope Q_scope.

(** The macros [MAX] and [MIN] on doubles. *)
Definition MAX (a b : Q) : Q := if Qgtb a b then a else b.
Definition MIN (a b : Q) : Q := if Qltb a b then a else b.

(** *** [command]: units (lines 319-326) *)

Definition scale_units (sty : Style) (lat : Lattice) (scaleflag : Z)
    (x1 : vec3) (ovl : Q) : result (vec3 * Q) :=
  if is_lattice_style sty then
    if (Z.of_nat (nbasis lat) =? 0)%Z
    then Fatal "Cannot create atoms with undefined lattice"
    else Ok (x1, ovl)
  else if (scaleflag =? 1)%Z then
    Ok (mkvec (c0 x1 * xlattice lat) (c1 x1 * ylattice lat) (c2 x1 * zlattice lat),
        ovl * xlattice lat)
  else Ok (x1, ovl).

(** *** [command]: bounds of my proc (lines 340-395) *)

Definition EPSILON : Q := 1 # 1000000.

Definition epsilon (dom : Domain) : vec3 :=
  if triclinic dom then mkvec EPSILON EPSILON EPSILON
  else mkvec (c0 (prd dom) * EPSILON) (c1 (prd dom) * EPSILON)
             (c2 (prd dom) * EPSILON).

Definition domain_sub (dom : Domain) (p : Proc) : vec3 * vec3 :=
  if triclinic dom then (dom_sublo_lamda p, dom_subhi_lamda p)
  else (dom_sublo p, dom_subhi p).

(** Am I the lo (hi) proc of an axis?  [myloc] against [procgrid] for a
    regular grid of procs, [mysplit] for a tiled layout. *)
Definition lo_proc (p : Proc) (loc : Z) (split : Q) : bool :=
  if layout_tiled p then Qeq_bool split 0 else (loc =? 0)%Z.
Definition hi_proc (p : Proc) (loc grid : Z) (split : Q) : bool :=
  if layout_tiled p then Qeq_bool split 1 else (loc =? grid - 1)%Z.

(** One axis of the periodic adjustment. *)
Definition shift_axis (periodic at_lo at_hi : bool) (eps lo hi : Q) : Q * Q :=
  if periodic
  then (if at_lo then lo - eps else lo, if at_hi then hi - 2 * eps else hi)
  else (lo, hi).

Definition set_bounds (sty : Style) (dom : Domain) (p : Proc) : vec3 * vec3 :=
  let eps := epsilon dom in
  let (lo, hi) := domain_sub dom p in
  if is_lattice_style sty then
    let (lo0, hi0) :=
      shift_axis (xperiodic dom) (lo_proc p (i0 (myloc p)) (c0 (mysplit_lo p)))
        (hi_proc p (i0 (myloc p)) (i0 (procgrid p)) (c0 (mysplit_hi p)))
        (c0 eps) (c0 lo) (c0 hi) in
    let (lo1, hi1) :=
      shift_axis (yperiodic dom) (lo_proc p (i1 (myloc p)) (c1 (mysplit_lo p)))
        (hi_proc p (i1 (myloc p)) (i1 (procgrid p)) (c1 (mysplit_hi p)))
        (c1 eps) (c1 lo) (c1 hi) in
    let (lo2, hi2) :=
      shift_axis (zperiodic dom) (lo_proc p (i2 (myloc p)) (c2 (mysplit_lo p)))
        (hi_proc p (i2 (myloc p)) (i2 (procgrid p)) (c2 (mysplit_hi p)))
        (c2 eps) (c2 lo) (c2 hi) in
    (mkvec lo0 lo1 lo2, mkvec hi0 hi1 hi2)
  else (lo, hi).

(** A rank as [command] leaves it before atoms are added. *)
Definition setup_rank (sty : Style) (dom : Domain) (p : Proc)
    (old : list AtomRec) : Rank :=
  let (lo, hi) := set_bounds sty dom p in
  mkRank p lo hi old 0 0 0 0 0 0 0 0 0.

(** *** [add_molecule] *)

Definition dot3 (a b : vec3) : Q := c0 a * c0 b + c1 a * c1 b + c2 a * c2 b.
Definition matvec (m : mat3) (v : vec3) : vec3 :=
  mkvec (dot3 (row0 m) v) (dot3 (row1 m) v) (dot3 (row2 m) v).
Definition add3 (a b : vec3) : vec3 :=
  mkvec (c0 a + c0 b) (c1 a + c1 b) (c2 a + c2 b).

Definition zero3 : vec3 := mkvec 0 0 0.

(** The orientation of the next molecule and the draws [ranmol] has made
    once it is chosen. *)
Definition next_quat (P : Params) (dom : Domain) (r : Rank) : quat * nat :=
  if quat_user P then (quatone P, ranmol_n r)
  else
    let u := mars_uniform (molseed P + me (proc r))%Z in
    let n := ranmol_n r in
    let (axis, n1) :=
      if (dimension dom =? 3)%Z
      then (norm3 (mkvec (u n - (1 # 2)) (u (S n) - (1 # 2))
                         (u (S (S n)) - (1 # 2))),
            S (S (S n)))
      else (mkvec 0 0 1, n) in
    let theta := u n1 * MY_2PI in
    (axisangle_to_quat axis theta, S n1).

Definition create_atom (t : Z) (x : vec3) (r : Rank) : Rank :=
  set_atoms r (atoms r ++ [mkAtom t x]) (ranmol_n r).

Definition add_molecule (P : Params) (dom : Domain) (center : vec3) (r : Rank)
  : Rank :=
  let (q, n) := next_quat P dom r in
  let rotmat := quat_to_mat q in
  let mol := onemol P in
  let member (m : nat) :=
    mkAtom (ntype P + nth m (mol_type mol) 0%Z)%Z
           (add3 (matvec rotmat (nth m (dx mol) zero3)) center) in
  set_atoms r (atoms r ++ map member (seq 0 (natoms mol))) n.

(** [if (mode == ATOM) create_atom(t, x); else add_molecule(x);] *)
Definition insert_at (P : Params) (dom : Domain) (t : Z) (x : vec3) (r : Rank)
  : Rank :=
  match mode P with
  | ATOM => create_atom t x r
  | MOLECULE => add_molecule P dom x r
  end.

(** *** [add_single] *)

Definition clamp_lamda (periodic : bool) (l : Q) : Q :=
  if periodic && (Qltb l 0 || Qgeb l 1) then 0 else l.

(** The coordinate that is tested against the sub-box. *)
Definition single_coord (P : Params) (dom : Domain) (x1 : vec3) : vec3 :=
  if triclinic dom then
    let lamda := x2lamda x1 in
    if remapflag P then
      mkvec (clamp_lamda (xperiodic dom) (c0 lamda))
            (clamp_lamda (yperiodic dom) (c1 lamda))
            (clamp_lamda (zperiodic dom) (c2 lamda))
    else lamda
  else x1.

Definition add_single (P : Params) (dom : Domain) (r : Rank) : Rank :=
  let x1 := if remapflag P then remap (xone P) else xone P in
  let coord := single_coord P dom x1 in
  if in_subbox (sublo r) (subhi r) coord
  then insert_at P dom (ntype P) x1 r
  else r.

(** *** [vartest] *)

Definition vartest (P : Params) (x : vec3) : Z :=
  let value :=
    compute_equal (if xstr P then Some (c0 x) else None)
                  (if ystr P then Some (c1 x) else None)
                  (if zstr P then Some (c2 x) else None) in
  if Qeq_bool value 0 then 0%Z else 1%Z.

(** *** [add_lattice]: the loop bounds (lines 827-892) *)

Definition BIG : Q := inject_Z (10 ^ 30).

(** One axis of the narrowing by the region's extent; the test of the upper
    bound reads the lower bound already narrowed. *)
Definition narrow_axis (rmin rmax lo hi : Q) : Q * Q :=
  let lo' := if Qgtb rmin lo then (if Qgtb rmin hi then hi else rmin) else lo in
  let hi' := if Qltb rmax hi then (if Qltb rmax lo' then lo' else rmax) else hi in
  (lo', hi').

Definition lattice_search_box (P : Params) (dom : Domain) (p : Proc)
  : vec3 * vec3 :=
  let (bboxlo, bboxhi) :=
    if triclinic dom then domain_bbox (dom_sublo_lamda p) (dom_subhi_lamda p)
    else (dom_sublo p, dom_subhi p) in
  match style P, region P with
  | REGION, Some rg =>
      if bboxflag rg then
        let (lo0, hi0) := narrow_axis (c0 (extent_lo rg)) (c0 (extent_hi rg))
                                      (c0 bboxlo) (c0 bboxhi) in
        let (lo1, hi1) := narrow_axis (c1 (extent_lo rg)) (c1 (extent_hi rg))
                                      (c1 bboxlo) (c1 bboxhi) in
        let (lo2, hi2) := narrow_axis (c2 (extent_lo rg)) (c2 (extent_hi rg))
                                      (c2 bboxlo) (c2 bboxhi) in
        (mkvec lo0 lo1 lo2, mkvec hi0 hi1 hi2)
      else (bboxlo, bboxhi)
  | _, _ => (bboxlo, bboxhi)
  end.

(** The 8 corners, in the order of the calls to [lattice->bbox]. *)
Definition corners (lo hi : vec3) : list vec3 :=
  [ mkvec (c0 lo) (c1 lo) (c2 lo); mkvec (c0 hi) (c1 lo) (c2 lo);
    mkvec (c0 lo) (c1 hi) (c2 lo); mkvec (c0 hi) (c1 hi) (c2 lo);
    mkvec (c0 lo) (c1 lo) (c2 hi); mkvec (c0 hi) (c1 lo) (c2 hi);
    mkvec (c0 lo) (c1 hi) (c2 hi); mkvec (c0 hi) (c1 hi) (c2 hi) ].

(** [(xmin, ymin, zmin)] and [(xmax, ymax, zmax)] in lattice coordinates. *)
Definition lattice_extent (P : Params) (dom : Domain) (p : Proc) : vec3 * vec3 :=
  let (bboxlo, bboxhi) := lattice_search_box P dom p in
  fold_left (fun acc corner => lattice_bbox corner acc) (corners bboxlo bboxhi)
            (mkvec BIG BIG BIG, mkvec (- BIG) (- BIG) (- BIG)).

(** [ilo = static_cast<int>(xmin) - 1; ... if (xmin < 0.0) ilo--;] *)
Definition lo_bound (xmin : Q) : Z :=
  let lo := Int32.sub (Int32.static_cast_int xmin) 1 in
  if Qltb xmin 0 then Int32.decr lo else lo.

(** [ihi = static_cast<int>(xmax) + 1;] *)
Definition hi_bound (xmax : Q) : Z :=
  Int32.add (Int32.static_cast_int xmax) 1.

Definition set_lattice_bounds (P : Params) (dom : Domain) (r : Rank) : Rank :=
  let (vmin, vmax) := lattice_extent P dom (proc r) in
  set_loop_bounds r (lo_bound (c0 vmin)) (hi_bound (c0 vmax))
                    (lo_bound (c1 vmin)) (hi_bound (c1 vmax))
                    (lo_bound (c2 vmin)) (hi_bound (c2 vmax)).

(** *** [loop_lattice] *)

(** A lattice site: the cell [(i, j, k)] and the basis index [m]. *)
Record Site : Set := mkSite { s_k : Z; s_j : Z; s_i : Z; s_m : nat }.

(** The box coordinates of a site. *)
Definition site_x (lat : Lattice) (s : Site) : vec3 :=
  let b := nth (s_m s) (basis lat) zero3 in
  lattice2box (mkvec (inject_Z (s_i s) + c0 b) (inject_Z (s_j s) + c1 b)
                     (inject_Z (s_k s) + c2 b)).

(** [flag[n]] *)
Definition read_flag (flag : list Z) (n : Z) : result Z :=
  if (n <? 0)%Z then OutOfBounds n
  else match nth_error flag (Z.to_nat n) with
       | Some f => Ok f
       | None => OutOfBounds n
       end.

(** Does the site reach the action?  The three tests that [continue]. *)
Definition site_passes (P : Params) (dom : Domain) (lat : Lattice) (r : Rank)
    (s : Site) : bool :=
  let x := site_x lat s in
  if (match style P with REGION => negb (region_match x) | _ => false end)
  then false
  else if varflag P && (vartest P x =? 0)%Z then false
  else
    let coord := if triclinic dom then x2lamda x else x in
    if outside_subbox (sublo r) (subhi r) coord then false else true.

(** The body of the innermost loop. *)
Definition site_body (P : Params) (dom : Domain) (lat : Lattice)
    (action : Action) (flag : list Z) (s : Site) (r : Rank) : result Rank :=
  let x := site_x lat s in
  if (match style P with REGION => negb (region_match x) | _ => false end)
  then Ok r
  else if varflag P && (vartest P x =? 0)%Z then Ok r
  else
    let coord := if triclinic dom then x2lamda x else x in
    if outside_subbox (sublo r) (subhi r) coord then Ok r
    else
      r' <- match action with
            | INSERT =>
                Ok (insert_at P dom (nth (s_m s) (basistype P) 0%Z) x r)
            | COUNT =>
                Ok (if (nlatt r =? Int32.MAXSMALLINT)%Z
                    then set_nlatt_overflow r 1 else r)
            | INSERT_SELECTED =>
                f <- read_flag flag (nlatt r) ;;
                Ok (if negb (f =? 0)%Z
                    then insert_at P dom (nth (s_m s) (basistype P) 0%Z) x r
                    else r)
            end ;;
      Ok (set_nlatt r' (Int32.incr (nlatt r'))).

Definition loop_lattice (P : Params) (dom : Domain) (lat : Lattice)
    (action : Action) (flag : list Z) (r : Rank) : result Rank :=
  for_each
    (fun k => for_each
      (fun j => for_each
        (fun i => for_each
          (fun m => site_body P dom lat action flag (mkSite k j i m))
          (seq 0 (nbasis lat)))
        (Zrange (ilo r) (ihi r)))
      (Zrange (jlo r) (jhi r)))
    (Zrange (klo r) (khi r))
    (set_nlatt r 0%Z).

(** The sites in the order the four loops visit them. *)
Definition sites (lat : Lattice) (r : Rank) : list Site :=
  flat_map (fun k =>
    flat_map (fun j =>
      flat_map (fun i =>
        map (fun m => mkSite k j i m) (seq 0 (nbasis lat)))
        (Zrange (ilo r) (ihi r)))
      (Zrange (jlo r) (jhi r)))
    (Zrange (klo r) (khi r)).

(** *** [add_lattice] *)

(** [MPI_Allreduce] with [MPI_SUM] on [int] and on [bigint]; [MPI_MAX]. *)
Definition allreduce_sum_int (l : list Z) : Z := fold_left Int32.add l 0%Z.
Definition allreduce_sum_bigint (l : list Z) : Z := fold_left Z.add l 0%Z.
Definition allreduce_max (l : list Z) : Z :=
  match l with
  | [] => 0%Z
  | a :: l' => fold_left Z.max l' a
  end.

(** Lines 827-897 on one rank: the loop bounds and the COUNT pass. *)
Definition count_sites (P : Params) (dom : Domain) (lat : Lattice) (r : Rank)
  : result Rank :=
  let r1 := set_lattice_bounds P dom r in
  let r2 := set_nlatt_overflow r1 0 in
  loop_lattice P dom lat COUNT [] r2.

(** [memory->create(flag, nlatt)] followed by [select_subset]. *)
Definition subset_flags (P : Params) (nsub : Z) (r : Rank) : list Z :=
  map (select_subset (subsetseed P + me (proc r))%Z nsub (nlatt r))
      (seq 0 (Z.to_nat (nlatt r))).

(** [add_lattice] on all ranks: the COUNT pass, the sum of the overflow
    flags, the size of the subset and the INSERT or INSERT_SELECTED pass.
    The sizing of the atom arrays (lines 904-926: nadd, roundup, grow) is
    left out, the arrays being lists that grow as atoms are appended, and the
    product of the ratio and the number of sites is taken exactly. *)
Definition add_lattice (P : Params) (dom : Domain) (lat : Lattice)
    (ranks : list Rank) : result (list Rank) :=
  counted <- on_all (count_sites P dom lat) ranks ;;
  let overflow := allreduce_sum_int (map nlatt_overflow counted) in
  if negb (overflow =? 0)%Z
  then Fatal "Create_atoms lattice size overflow on 1 or more procs"
  else
    match subsetflag P with
    | NONE => on_all (loop_lattice P dom lat INSERT []) counted
    | sf =>
        let bnlattall := allreduce_sum_bigint (map nlatt counted) in
        let nsub :=
          match sf with
          | RATIO => Int32.truncate (subsetfrac P * inject_Z bnlattall)
          | _ => nsubset P
          end in
        if (nsub >? bnlattall)%Z
        then Fatal "Create_atoms subset size > # of lattice sites"
        else on_all (fun r => loop_lattice P dom lat INSERT_SELECTED
                                (subset_flags P nsub r) r) counted
    end.

(** *** [add_random] *)

(** [odistsq] (lines 670-674). *)
Definition odistsq (P : Params) : Q :=
  let odist :=
    match mode P with
    | MOLECULE => overlap P + molradius (onemol P)
    | ATOM => overlap P
    end in
  odist * odist.

(** The box the positions are drawn from, and [zmid] (lines 687-717). *)
Definition random_box (P : Params) (dom : Domain) : result (vec3 * vec3 * Q) :=
  let (lo, hi) :=
    if triclinic dom then (boxlo_bound dom, boxhi_bound dom)
    else (boxlo dom, boxhi dom) in
  let zmid := c2 lo + (1 # 2) * (c2 hi - c2 lo) in
  let (lo, hi) :=
    match region P with
    | Some rg =>
        if bboxflag rg then
          (mkvec (MAX (c0 lo) (c0 (extent_lo rg))) (MAX (c1 lo) (c1 (extent_lo rg)))
                 (MAX (c2 lo) (c2 (extent_lo rg))),
           mkvec (MIN (c0 hi) (c0 (extent_hi rg))) (MIN (c1 hi) (c1 (extent_hi rg)))
                 (MIN (c2 hi) (c2 (extent_hi rg))))
        else (lo, hi)
    | None => (lo, hi)
    end in
  if Qgtb (c0 lo) (c0 hi) || Qgtb (c1 lo) (c1 hi) || Qgtb (c2 lo) (c2 hi)
  then Fatal "No overlap of box and region for create_atoms"
  else Ok (lo, hi, zmid).

(** [distsq] between a new position and a stored atom. *)
Definition distsq (x1 x : vec3) : Q :=
  let d := minimum_image (mkvec (c0 x1 - c0 x) (c1 x1 - c1 x) (c2 x1 - c2 x)) in
  c0 d * c0 d + c1 d * c1 d + c2 d * c2 d.

(** The flag [reject] of one rank: the loop over its [nlocal] atoms. *)
Definition reject (P : Params) (x1 : vec3) (r : Rank) : Z :=
  if existsb (fun a => Qltb (distsq x1 (a_x a)) (odistsq P)) (atoms r)
  then 1%Z else 0%Z.

(** The position drawn in one try, [n] draws having been made before. *)
Definition draw_position (P : Params) (dom : Domain) (box : vec3 * vec3 * Q)
    (n : nat) : vec3 :=
  let '(lo, hi, zmid) := box in
  let u := park_uniform (seed P) in
  let x0 := c0 lo + u n * (c0 hi - c0 lo) in
  let x1 := c1 lo + u (S n) * (c1 hi - c1 lo) in
  let x2 := c2 lo + u (S (S n)) * (c2 hi - c2 lo) in
  let x2 := if (dimension dom =? 2)%Z then zmid else x2 in
  mkvec x0 x1 x2.

(** The [while (ntry < maxtry)] loop: [fuel] tries are left and [n] draws
    have been made.  On success it gives [xone] and [coord]. *)
Fixpoint try_place (P : Params) (dom : Domain) (box : vec3 * vec3 * Q)
    (ranks : list Rank) (fuel n : nat) : option (vec3 * vec3) * nat :=
  match fuel with
  | O => (None, n)
  | S fuel' =>
      let x := draw_position P dom box n in
      let n' := S (S (S n)) in
      if (match region P with
          | Some _ => negb (region_match x)
          | None => false
          end)
      then try_place P dom box ranks fuel' n'
      else if varflag P && (vartest P x =? 0)%Z
      then try_place P dom box ranks fuel' n'
      else
        let coord := if triclinic dom then x2lamda x else x in
        if triclinic dom &&
           outside_subbox (boxlo_lamda dom) (boxhi_lamda dom) coord
        then try_place P dom box ranks fuel' n'
        else if overlapflag P &&
                negb (allreduce_max (map (reject P x) ranks) =? 0)%Z
        then try_place P dom box ranks fuel' n'
        else (Some (x, coord), n')
  end.

(** The rank that owns [coord] creates the atom or molecule. *)
Definition place (P : Params) (dom : Domain) (x coord : vec3) (r : Rank) : Rank :=
  if in_subbox (sublo r) (subhi r) coord
  then insert_at P dom (ntype P) x r
  else r.

(** The [for (i = 0; i < nrandom; i++)] loop, [count] iterations left. *)
Fixpoint random_loop (P : Params) (dom : Domain) (box : vec3 * vec3 * Q)
    (count n : nat) (ninsert : Z) (ranks : list Rank) : list Rank * Z :=
  match count with
  | O => (ranks, ninsert)
  | S count' =>
      match try_place P dom box ranks (Z.to_nat (maxtry P)) n with
      | (None, n') => random_loop P dom box count' n' ninsert ranks
      | (Some (x, coord), n') =>
          random_loop P dom box count' n' (Int32.incr ninsert)
                      (map (place P dom x coord) ranks)
      end
  end.

(** What [add_random] leaves: the ranks, [ninsert], and for each rank
    whether it has printed the warning. *)
Record RandomOut : Type := mkRandomOut {
  out_ranks : list Rank;
  out_ninsert : Z;
  out_warned : list bool
}.

Definition add_random (P : Params) (dom : Domain) (ranks : list Rank)
  : result RandomOut :=
  box <- random_box P dom ;;
  let (ranks', ninsert) :=
    random_loop P dom box (Z.to_nat (nrandom P)) 30 0%Z ranks in
  Ok (mkRandomOut ranks' ninsert
        (map (fun r => (ninsert <? nrandom P)%Z && (me (proc r) =? 0)%Z) ranks')).

End Model.

(** ** [command]: molecule IDs and topology (lines 453-564) *)

Module Stitch.

Local Open Scope Z_scope.

(** [atom->molecular] *)
Inductive Molecular : Set := ATOMIC | MOLECULAR | TEMPLATE.

(** The per-atom fields the loop writes.  A [tagint] is an integer taken
    exactly; the ranges of the molecule IDs are stated for values that lie
    within a bound [maxtagint]. *)
Record TopoAtom : Set := mkTopo {
  tag : Z;
  molecule : Z;
  molindex : Z;
  molatom : Z;
  num_bond : nat; bond_atom : list Z;
  num_angle : nat;
  angle_atom1 : list Z; angle_atom2 : list Z; angle_atom3 : list Z;
  num_dihedral : nat;
  dihedral_atom1 : list Z; dihedral_atom2 : list Z;
  dihedral_atom3 : list Z; dihedral_atom4 : list Z;
  num_improper : nat;
  improper_atom1 : list Z; improper_atom2 : list Z;
  improper_atom3 : list Z; improper_atom4 : list Z;
  nspecial2 : nat; special : list Z
}.

Definition no_atom : TopoAtom :=
  mkTopo 0 0 0 0 0 [] 0 [] [] [] 0 [] [] [] [] 0 [] [] [] [] 0 [].

(** The atom arrays of one rank once [tag_extend] has run. *)
Record TopoRank : Set := mkTopoRank {
  nlocal_previous : nat;
  topo : list TopoAtom
}.

(** What is the same on all ranks. *)
Record System : Type := mkSystem {
  molecule_flag : bool;
  molecular : Molecular;
  tag_present : bool;             (* atom->tag is allocated *)
  template : Molecule
}.

(** [for (j = 0; j < n; j++) row[j] += offset;] *)
Definition shift_first (n : nat) (offset : Z) (row : list Z) : list Z :=
  map (fun a => a + offset) (firstn n row) ++ skipn n row.

(** [arr[i] = f (arr[i])] *)
Fixpoint update {A : Type} (i : nat) (f : A -> A) (arr : list A) : list A :=
  match arr, i with
  | [], _ => []
  | a :: arr', O => f a :: arr'
  | a :: arr', S i' => a :: update i' f arr'
  end.

Definition set_molecule (a : TopoAtom) (id : Z) : TopoAtom :=
  mkTopo (tag a) id (molindex a) (molatom a)
    (num_bond a) (bond_atom a)
    (num_angle a) (angle_atom1 a) (angle_atom2 a) (angle_atom3 a)
    (num_dihedral a) (dihedral_atom1 a) (dihedral_atom2 a)
    (dihedral_atom3 a) (dihedral_atom4 a)
    (num_improper a) (improper_atom1 a) (improper_atom2 a)
    (improper_atom3 a) (improper_atom4 a)
    (nspecial2 a) (special a).

Definition set_template_index (a : TopoAtom) (m : Z) : TopoAtom :=
  mkTopo (tag a) (molecule a) 0 m
    (num_bond a) (bond_atom a)
    (num_angle a) (angle_atom1 a) (angle_atom2 a) (angle_atom3 a)
    (num_dihedral a) (dihedral_atom1 a) (dihedral_atom2 a)
    (dihedral_atom3 a) (dihedral_atom4 a)
    (num_improper a) (improper_atom1 a) (improper_atom2 a)
    (improper_atom3 a) (improper_atom4 a)
    (nspecial2 a) (special a).

(** The rebasing of the bond, angle, dihedral, improper and special rows. *)
Definition rebase (mol : Molecule) (offset : Z) (a : TopoAtom) : TopoAtom :=
  let on (flag : bool) (n : nat) (row : list Z) :=
    if flag then shift_first n offset row else row in
  mkTopo (tag a) (molecule a) (molindex a) (molatom a)
    (num_bond a) (on (bondflag mol) (num_bond a) (bond_atom a))
    (num_angle a)
    (on (angleflag mol) (num_angle a) (angle_atom1 a))
    (on (angleflag mol) (num_angle a) (angle_atom2 a))
    (on (angleflag mol) (num_angle a) (angle_atom3 a))
    (num_dihedral a)
    (on (dihedralflag mol) (num_dihedral a) (dihedral_atom1 a))
    (on (dihedralflag mol) (num_dihedral a) (dihedral_atom2 a))
    (on (dihedralflag mol) (num_dihedral a) (dihedral_atom3 a))
    (on (dihedralflag mol) (num_dihedral a) (dihedral_atom4 a))
    (num_improper a)
    (on (improperflag mol) (num_improper a) (improper_atom1 a))
    (on (improperflag mol) (num_improper a) (improper_atom2 a))
    (on (improperflag mol) (num_improper a) (improper_atom3 a))
    (on (improperflag mol) (num_improper a) (improper_atom4 a))
    (nspecial2 a)
    (on (specialflag mol) (nspecial2 a) (special a)).

(** The body of the loop over [m]: atom [m] of a created molecule. *)
Definition stitch_atom (sys : System) (moloffset offset : Z) (m : nat)
    (a : TopoAtom) : TopoAtom :=
  let mol := template sys in
  let a1 :=
    if molecule_flag sys then
      if moleculeflag mol
      then set_molecule a (moloffset + nth m (mol_molecule mol) 0)
      else set_molecule a (moloffset + 1)
    else a in
  match molecular sys with
  | TEMPLATE => set_template_index a1 (Z.of_nat m)
  | ATOMIC => a1
  | MOLECULAR => rebase mol offset a1
  end.

(** The loop over the [molcreate] molecules this rank created; [count] of
    them are left, the next one starts at [ilocal]. *)
Fixpoint stitch_loop (sys : System) (count ilocal : nat) (moloffset : Z)
    (arr : list TopoAtom) : list TopoAtom :=
  match count with
  | O => arr
  | S count' =>
      let mol := template sys in
      let offset :=
        if tag_present sys then tag (nth ilocal arr no_atom) - 1 else 0 in
      let arr' :=
        fold_left (fun acc m =>
                     update (ilocal + m) (stitch_atom sys moloffset offset m) acc)
                  (seq 0 (natoms mol)) arr in
      let moloffset' :=
        if molecule_flag sys then
          if moleculeflag mol then moloffset + nmolecules mol else moloffset + 1
        else moloffset in
      stitch_loop sys count' (ilocal + natoms mol) moloffset' arr'
  end.

(** [molcreate = (nlocal - nlocal_previous) / natoms] *)
Definition molcreate (sys : System) (r : TopoRank) : Z :=
  Z.quot (Z.of_nat (length (topo r)) - Z.of_nat (nlocal_previous r))
         (Z.of_nat (natoms (template sys))).

(** [max] over the molecule IDs of the atoms that were there before. *)
Definition local_max (r : TopoRank) : Z :=
  fold_left (fun mx a => Z.max mx (molecule a))
            (firstn (nlocal_previous r) (topo r)) 0.

(** [MPI_Scan] with [MPI_SUM]: rank [i] receives the sum over ranks [0..i]. *)
Fixpoint scan_sum_from (acc : Z) (l : list Z) : list Z :=
  match l with
  | [] => []
  | a :: l' => (acc + a) :: scan_sum_from (acc + a) l'
  end.
Definition scan_sum (l : list Z) : list Z := scan_sum_from 0 l.

(** [moloffset] of every rank (lines 478-486). *)
Definition moloffsets (sys : System) (ranks : list TopoRank) : list Z :=
  if molecule_flag sys then
    let maxmol := allreduce_max (map local_max ranks) in
    map (fun '(scan, r) => scan - molcreate sys r + maxmol)
        (combine (scan_sum (map (molcreate sys) ranks)) ranks)
  else map (fun _ => 0) ranks.

Definition stitch_rank (sys : System) (moloffset : Z) (r : TopoRank)
  : list TopoAtom :=
  stitch_loop sys (Z.to_nat (molcreate sys r)) (nlocal_previous r) moloffset
              (topo r).

(** The loop on all ranks. *)
Definition stitch (sys : System) (ranks : list TopoRank) : list (list TopoAtom) :=
  map (fun '(off, r) => stitch_rank sys off r)
      (combine (moloffsets sys ranks) ranks).

(** The atoms a rank created, after the loop. *)
Definition created (r : TopoRank) (after : list TopoAtom) : list TopoAtom :=
  skipn (nlocal_previous r) after.

(** The sum of the first [i] entries: the exclusive prefix sum at rank [i]. *)
Definition prefix_total (i : nat) (l : list Z) : Z :=
  fold_right Z.add 0 (firstn i l).

(** The number of IDs the loop moves [moloffset] by per created molecule,
    and the ID it adds to [moloffset] for atom [m] of the template. *)
Definition id_step (sys : System) : Z :=
  if moleculeflag (template sys) then nmolecules (template sys) else 1.

Definition member_id (sys : System) (m : nat) : Z :=
  if moleculeflag (template sys) then nth m (mol_molecule (template sys)) 0
  else 1.

(** The molecule ID of atom [m] of the [i]-th molecule a rank created. *)
Definition created_id (sys : System) (r : TopoRank) (after : list TopoAtom)
    (i m : nat) : Z :=
  molecule (nth (nlocal_previous r + i * natoms (template sys) + m) after no_atom).

Definition no_rank : TopoRank := mkTopoRank 0 [].

(** The same ID, for the rank of index [q], after the loop has run on all
    ranks. *)
Definition stitched_id (sys : System) (ranks : list TopoRank) (q i m : nat) : Z :=
  created_id sys (nth q ranks no_rank) (nth q (stitch sys ranks) []) i m.

(** The number of molecules the rank of index [q] created. *)
Definition created_count (sys : System) (ranks : list TopoRank) (q : nat) : nat :=
  Z.to_nat (molcreate sys (nth q ranks no_rank)).

(** A created atom as [add_molecule_atom] leaves it: one bond, to the
    template atom [partner]. *)
Definition bonded (t partner : Z) : TopoAtom :=
  mkTopo t 0 0 0 1 [partner] 0 [] [] [] 0 [] [] [] [] 0 [] [] [] [] 0 [].

End Stitch.

(** ** Vocabulary of the properties *)

Section Vocabulary.

Context {ext : Collaborators}.

Local Open Scope Q_scope.

Inductive Axis : Set := AxisX | AxisY | AxisZ.

Definition along (a : Axis) (v : vec3) : Q :=
  match a with AxisX => c0 v | AxisY => c1 v | AxisZ => c2 v end.

Definition periodic_along (a : Axis) (dom : Domain) : bool :=
  match a with
  | AxisX => xperiodic dom | AxisY => yperiodic dom | AxisZ => zperiodic dom
  end.

(** Is [p] the lo proc of the axis? *)
Definition lo_proc_along (a : Axis) (p : Proc) : bool :=
  match a with
  | AxisX => lo_proc p (i0 (myloc p)) (c0 (mysplit_lo p))
  | AxisY => lo_proc p (i1 (myloc p)) (c1 (mysplit_lo p))
  | AxisZ => lo_proc p (i2 (myloc p)) (c2 (mysplit_lo p))
  end.

(** Along the axis, the sub-domain of [pa] ends where that of [pb] begins,
    and [pb] is not the first proc of the axis. *)
Definition shared_boundary (a : Axis) (dom : Domain) (pa pb : Proc) : Prop :=
  along a (snd (domain_sub dom pa)) == along a (fst (domain_sub dom pb)) /\
  lo_proc_along a pb = false /\
  0 <= along a (prd dom).

(** The rank passes the ownership test at [coord]. *)
Definition owns (r : Rank) (coord : vec3) : bool :=
  in_subbox (sublo r) (subhi r) coord.

Definition owners (ranks : list Rank) (coord : vec3) : list Rank :=
  filter (fun r => owns r coord) ranks.

(** No position passes the ownership test of two ranks. *)
Definition disjoint_ownership (ranks : list Rank) : Prop :=
  forall coord, (length (owners ranks coord) <= 1)%nat.

Definition unit_lo : vec3 := mkvec 0 0 0.
Definition unit_hi : vec3 := mkvec 1 1 1.

(** The sub-boxes tile the fractional box: every position of it passes
    the ownership test of exactly one rank. *)
Definition tiles_unit_box (ranks : list Rank) : Prop :=
  forall coord, half_open unit_lo unit_hi coord ->
                length (owners ranks coord) = 1%nat.

(** The test [add_single] makes on a rank. *)
Definition single_x (P : Params) : vec3 :=
  if remapflag P then remap (xone P) else xone P.

Definition creates_single (P : Params) (dom : Domain) (r : Rank) : bool :=
  owns r (single_coord P dom (single_x P)).

(** A double whose truncation leaves room for the decrements and the
    increment of the loop bounds. *)
Definition fits_int (q : Q) : Prop :=
  (Int32.MINSMALLINT + 2 <= Int32.truncate q <= Int32.MAXSMALLINT - 1)%Z.

(** The run of the loop body over a list of sites. *)
Definition run_sites (P : Params) (dom : Domain) (lat : Lattice)
    (action : Action) (flag : list Z) (l : list Site) (r : Rank) : result Rank :=
  for_each (site_body P dom lat action flag) l r.

(** The number of sites of [l] that pass the three tests. *)
Definition passing (P : Params) (dom : Domain) (lat : Lattice) (r : Rank)
    (l : list Site) : Z :=
  Z.of_nat (length (filter (site_passes P dom lat r) l)).

(** What the loop body never writes. *)
Definition same_frame (r r' : Rank) : Prop :=
  proc r' = proc r /\ sublo r' = sublo r /\ subhi r' = subhi r /\
  ilo r' = ilo r /\ ihi r' = ihi r /\ jlo r' = jlo r /\ jhi r' = jhi r /\
  klo r' = klo r /\ khi r' = khi r.

(** The action taken at a site that has passed the tests. *)
Definition act (P : Params) (dom : Domain) (lat : Lattice)
    (action : Action) (flag : list Z) (s : Site) (r : Rank) : result Rank :=
  match action with
  | INSERT =>
      Ok (insert_at P dom (nth (s_m s) (basistype P) 0%Z) (site_x lat s) r)
  | COUNT =>
      Ok (if (nlatt r =? Int32.MAXSMALLINT)%Z then set_nlatt_overflow r 1 else r)
  | INSERT_SELECTED =>
      bind (read_flag flag (nlatt r))
           (fun f => Ok (if negb (f =? 0)%Z
                         then insert_at P dom (nth (s_m s) (basistype P) 0%Z)
                                        (site_x lat s) r
                         else r))
  end.

(** The positions of the atoms a rank has added to those of [r0]. *)
Definition new_x (r0 r : Rank) : list vec3 :=
  map a_x (skipn (nlocal r0) (atoms r)).

Definition all_new_x (ranks0 ranks : list Rank) : list vec3 :=
  flat_map (fun rr => new_x (fst rr) (snd rr)) (combine ranks0 ranks).

(** [r] is [r0] with the same sub-box and some atoms appended. *)
Definition grown (r0 r : Rank) : Prop :=
  sublo r = sublo r0 /\ subhi r = subhi r0 /\
  exists nw, atoms r = atoms r0 ++ nw.

(** [later] was accepted while [earlier] was stored. *)
Definition apart (P : Params) (earlier later : vec3) : Prop :=
  odistsq P <= distsq later earlier.

End Vocabulary.

(** A world without periodic images, shear or filters: every collaborator
    is the identity or a constant. *)
Definition plain_world : Collaborators := {|
  remap := fun x => x;
  x2lamda := fun x => x;
  minimum_image := fun d => d;
  domain_bbox := fun lo hi => (lo, hi);
  lattice2box := fun x => x;
  lattice_bbox := fun x acc =>
    (mkvec (MIN (c0 x) (c0 (fst acc))) (MIN (c1 x) (c1 (fst acc)))
           (MIN (c2 x) (c2 (fst acc))),
     mkvec (MAX (c0 x) (c0 (snd acc))) (MAX (c1 x) (c1 (snd acc)))
           (MAX (c2 x) (c2 (snd acc))));
  region_match := fun _ => true;
  compute_equal := fun _ _ _ => 1%Q;
  park_uniform := fun _ n => (1 # 2)%Q;
  mars_uniform := fun _ _ => (1 # 2)%Q;
  select_subset := fun _ _ _ i => if Nat.even i then 1%Z else 0%Z;
  norm3 := fun v => v;
  axisangle_to_quat := fun _ _ => mkquat 1 0 0 0;
  quat_to_mat := fun _ => mkmat (mkvec 1 0 0) (mkvec 0 1 0) (mkvec 0 0 1);
  MY_2PI := (710 # 113)%Q
|}.


(** ** Vocabulary of the further properties *)

Section MoreVocabulary.

Context {ext : Collaborators}.

Local Open Scope Q_scope.

(** The atom the lattice loop creates at a site in atom mode. *)
Definition site_atom (P : Params) (lat : Lattice) (s : Site) : AtomRec :=
  mkAtom (nth (s_m s) (basistype P) 0%Z) (site_x lat s).

(** The sites of [l] whose entry of the flag array is set, the [n]-th site
    of [l] reading the [n]-th entry. *)
Definition flagged (flag : list Z) (l : list Site) : list Site :=
  map fst (filter (fun sf => negb (snd sf =? 0)%Z) (combine l flag)).

(** The sites of a rank that pass the three tests, in loop order, once the
    loop bounds are set. *)
Definition owned_sites (P : Params) (dom : Domain) (lat : Lattice) (r : Rank)
  : list Site :=
  let rb := set_lattice_bounds P dom r in
  filter (site_passes P dom lat rb) (sites lat rb).

(** The box of a rank before the region narrows it (lines 827-837). *)
Definition rank_box (dom : Domain) (p : Proc) : vec3 * vec3 :=
  if triclinic dom then domain_bbox (dom_sublo_lamda p) (dom_subhi_lamda p)
  else (dom_sublo p, dom_subhi p).

(** Membership of a closed box. *)
Definition inside (lo hi x : vec3) : Prop :=
  forall a, along a lo <= along a x /\ along a x <= along a hi.

(** Is [p] the hi proc of the axis? *)
Definition hi_proc_along (a : Axis) (p : Proc) : bool :=
  match a with
  | AxisX => hi_proc p (i0 (myloc p)) (i0 (procgrid p)) (c0 (mysplit_hi p))
  | AxisY => hi_proc p (i1 (myloc p)) (i1 (procgrid p)) (c1 (mysplit_hi p))
  | AxisZ => hi_proc p (i2 (myloc p)) (i2 (procgrid p)) (c2 (mysplit_hi p))
  end.

(** The box random positions are drawn from before the region narrows it:
    the box itself, or its bounding box when it is sheared. *)
Definition draw_box (dom : Domain) : vec3 * vec3 :=
  if triclinic dom then (boxlo_bound dom, boxhi_bound dom)
  else (boxlo dom, boxhi dom).

(** The position lies in the extent of the region, when the region of the
    command has one. *)
Definition in_extent (P : Params) (x : vec3) : Prop :=
  forall rg, region P = Some rg -> bboxflag rg = true ->
             inside (extent_lo rg) (extent_hi rg) x.

(** What every position that leaves the try loop of [add_random] has
    passed: it is one of the positions drawn, the region matches it, the
    variable is not zero at it, and in a sheared box its fractional
    coordinates lie in the box. *)
Definition acceptable (P : Params) (dom : Domain) (box : vec3 * vec3 * Q)
    (x : vec3) : Prop :=
  (exists n, x = draw_position P dom box n) /\
  (region P <> None -> region_match x = true) /\
  (varflag P = true -> vartest P x <> 0%Z) /\
  (triclinic dom = true ->
   half_open (boxlo_lamda dom) (boxhi_lamda dom) (x2lamda x)).


(** The number of atoms one insertion appends: one atom, or the atoms of
    the template. *)
Definition atoms_per_insert (P : Params) : nat :=
  match mode P with
  | ATOM => 1%nat
  | MOLECULE => natoms (onemol P)
  end.

(** The atoms a rank has gained. *)
Definition gained (r0 r : Rank) : nat := (nlocal r - nlocal r0)%nat.


End MoreVocabulary.

(** ** [command]: the arguments (lines 61-326) *)

(** The lattice styles [command] tests the dimension against; [OTHER] stands
    for the remaining ones. *)
Inductive LatticeStyle : Set :=
  SC | BCC | FCC | HCP | DIAMOND | SQ | SQ2 | HEX | OTHER.

Module Command.

Local Open Scope Z_scope.

Definition DEFAULT_MAXTRY : Z := 1000.

(** What a reader of [utils] or a check of another class gives: the value,
    or the message of the error it raises. *)
Inductive read (A : Type) : Type :=
| Value (a : A)
| Invalid (msg : String.string).
Arguments Value {A} a.
Arguments Invalid {A} msg.

Definition got {A : Type} (r : read A) : result A :=
  match r with
  | Value a => Ok a
  | Invalid msg => Fatal msg
  end.

(** A molecule template as [atom->molecules] holds it. *)
Record Template : Type := mkTemplate {
  body : Molecule;
  xflag : bool; typeflag : bool;
  mol_ntypes : Z;                  (* onemol->ntypes *)
  tag_require : bool;
  nset : Z
}.

(** What [command] asks of the rest of the program while it reads its
    arguments. *)
Class Setup : Type := {
  (* utils *)
  inumeric : String.string -> read Z;
  numeric : String.string -> read Q;
  bnumeric : String.string -> read Z;
  logical : String.string -> read bool;
  (* Domain, Modify, Lattice *)
  box_exist : bool;
  nfix_restart_peratom : Z;
  latsty : LatticeStyle;
  get_region_by_id : String.string -> option Region;
  (* Atom *)
  ntypes : Z;
  tag_enable : bool;
  find_molecule : String.string -> option Template;
  (* Molecule *)
  check_attributes : Template -> read unit;
  compute_center : Template -> Molecule;
  (* Variable: the index of a name or -1, and the style of an index *)
  variable_find : String.string -> Z;
  equalstyle : Z -> bool;
  internalstyle : Z -> bool;
  (* MathConst *)
  MY_PI : Q
}.

(** The locals of [command] and the members that [Params] does not keep:
    the names of the variables and the template as it was found. *)
Record Locals : Type := mkLocals {
  scaleflag : Z;
  vstr : option String.string;
  xstr_name : option String.string;
  ystr_name : option String.string;
  zstr_name : option String.string;
  template : Template;
  warned : bool        (* the warning about a template of several molecules *)
}.

Definition set_scaleflag (L : Locals) (v : Z) : Locals :=
  mkLocals v (vstr L) (xstr_name L) (ystr_name L) (zstr_name L) (template L)
           (warned L).
Definition set_vstr (L : Locals) (v : option String.string) : Locals :=
  mkLocals (scaleflag L) v (xstr_name L) (ystr_name L) (zstr_name L) (template L)
           (warned L).
Definition set_xstr_name (L : Locals) (v : option String.string) : Locals :=
  mkLocals (scaleflag L) (vstr L) v (ystr_name L) (zstr_name L) (template L)
           (warned L).
Definition set_ystr_name (L : Locals) (v : option String.string) : Locals :=
  mkLocals (scaleflag L) (vstr L) (xstr_name L) v (zstr_name L) (template L)
           (warned L).
Definition set_zstr_name (L : Locals) (v : option String.string) : Locals :=
  mkLocals (scaleflag L) (vstr L) (xstr_name L) (ystr_name L) v (template L)
           (warned L).
Definition set_template (L : Locals) (v : Template) : Locals :=
  mkLocals (scaleflag L) (vstr L) (xstr_name L) (ystr_name L) (zstr_name L) v
           (warned L).
Definition set_warned (L : Locals) (v : bool) : Locals :=
  mkLocals (scaleflag L) (vstr L) (xstr_name L) (ystr_name L) (zstr_name L)
           (template L) v.

(** The assignments to single members of the command. *)
Definition set_ntype (P : Params) (ntype' : Z) : Params :=
  mkParams ntype' (style P) (mode P) (region P) (onemol P) (basistype P)
    (remapflag P) (varflag P) (xstr P) (ystr P) (zstr P) (quat_user P)
    (quatone P) (subsetflag P) (subsetfrac P) (nsubset P) (subsetseed P)
    (overlapflag P) (overlap P) (maxtry P) (nrandom P) (seed P) (molseed P)
    (xone P).

Definition set_style (P : Params) (style' : Style) : Params :=
  mkParams (ntype P) style' (mode P) (region P) (onemol P) (basistype P)
    (remapflag P) (varflag P) (xstr P) (ystr P) (zstr P) (quat_user P)
    (quatone P) (subsetflag P) (subsetfrac P) (nsubset P) (subsetseed P)
    (overlapflag P) (overlap P) (maxtry P) (nrandom P) (seed P) (molseed P)
    (xone P).

Definition set_region (P : Params) (region' : option Region) : Params :=
  mkParams (ntype P) (style P) (mode P) region' (onemol P) (basistype P)
    (remapflag P) (varflag P) (xstr P) (ystr P) (zstr P) (quat_user P)
    (quatone P) (subsetflag P) (subsetfrac P) (nsubset P) (subsetseed P)
    (overlapflag P) (overlap P) (maxtry P) (nrandom P) (seed P) (molseed P)
    (xone P).

Definition set_xone (P : Params) (xone' : vec3) : Params :=
  mkParams (ntype P) (style P) (mode P) (region P) (onemol P) (basistype P)
    (remapflag P) (varflag P) (xstr P) (ystr P) (zstr P) (quat_user P)
    (quatone P) (subsetflag P) (subsetfrac P) (nsubset P) (subsetseed P)
    (overlapflag P) (overlap P) (maxtry P) (nrandom P) (seed P) (molseed P)
    xone'.

Definition set_nrandom (P : Params) (nrandom' : Z) : Params :=
  mkParams (ntype P) (style P) (mode P) (region P) (onemol P) (basistype P)
    (remapflag P) (varflag P) (xstr P) (ystr P) (zstr P) (quat_user P)
    (quatone P) (subsetflag P) (subsetfrac P) (nsubset P) (subsetseed P)
    (overlapflag P) (overlap P) (maxtry P) nrandom' (seed P) (molseed P)
    (xone P).

Definition set_seed (P : Params) (seed' : Z) : Params :=
  mkParams (ntype P) (style P) (mode P) (region P) (onemol P) (basistype P)
    (remapflag P) (varflag P) (xstr P) (ystr P) (zstr P) (quat_user P)
    (quatone P) (subsetflag P) (subsetfrac P) (nsubset P) (subsetseed P)
    (overlapflag P) (overlap P) (maxtry P) (nrandom P) seed' (molseed P)
    (xone P).

Definition set_basistype (P : Params) (basistype' : list Z) : Params :=
  mkParams (ntype P) (style P) (mode P) (region P) (onemol P) basistype'
    (remapflag P) (varflag P) (xstr P) (ystr P) (zstr P) (quat_user P)
    (quatone P) (subsetflag P) (subsetfrac P) (nsubset P) (subsetseed P)
    (overlapflag P) (overlap P) (maxtry P) (nrandom P) (seed P) (molseed P)
    (xone P).

Definition set_remapflag (P : Params) (remapflag' : bool) : Params :=
  mkParams (ntype P) (style P) (mode P) (region P) (onemol P) (basistype P)
    remapflag' (varflag P) (xstr P) (ystr P) (zstr P) (quat_user P)
    (quatone P) (subsetflag P) (subsetfrac P) (nsubset P) (subsetseed P)
    (overlapflag P) (overlap P) (maxtry P) (nrandom P) (seed P) (molseed P)
    (xone P).

Definition set_mode (P : Params) (mode' : Mode) : Params :=
  mkParams (ntype P) (style P) mode' (region P) (onemol P) (basistype P)
    (remapflag P) (varflag P) (xstr P) (ystr P) (zstr P) (quat_user P)
    (quatone P) (subsetflag P) (subsetfrac P) (nsubset P) (subsetseed P)
    (overlapflag P) (overlap P) (maxtry P) (nrandom P) (seed P) (molseed P)
    (xone P).

Definition set_onemol (P : Params) (onemol' : Molecule) : Params :=
  mkParams (ntype P) (style P) (mode P) (region P) onemol' (basistype P)
    (remapflag P) (varflag P) (xstr P) (ystr P) (zstr P) (quat_user P)
    (quatone P) (subsetflag P) (subsetfrac P) (nsubset P) (subsetseed P)
    (overlapflag P) (overlap P) (maxtry P) (nrandom P) (seed P) (molseed P)
    (xone P).

Definition set_molseed (P : Params) (molseed' : Z) : Params :=
  mkParams (ntype P) (style P) (mode P) (region P) (onemol P) (basistype P)
    (remapflag P) (varflag P) (xstr P) (ystr P) (zstr P) (quat_user P)
    (quatone P) (subsetflag P) (subsetfrac P) (nsubset P) (subsetseed P)
    (overlapflag P) (overlap P) (maxtry P) (nrandom P) (seed P) molseed'
    (xone P).

Definition set_varflag (P : Params) (varflag' : bool) : Params :=
  mkParams (ntype P) (style P) (mode P) (region P) (onemol P) (basistype P)
    (remapflag P) varflag' (xstr P) (ystr P) (zstr P) (quat_user P)
    (quatone P) (subsetflag P) (subsetfrac P) (nsubset P) (subsetseed P)
    (overlapflag P) (overlap P) (maxtry P) (nrandom P) (seed P) (molseed P)
    (xone P).

Definition set_xstr (P : Params) (xstr' : bool) : Params :=
  mkParams (ntype P) (style P) (mode P) (region P) (onemol P) (basistype P)
    (remapflag P) (varflag P) xstr' (ystr P) (zstr P) (quat_user P)
    (quatone P) (subsetflag P) (subsetfrac P) (nsubset P) (subsetseed P)
    (overlapflag P) (overlap P) (maxtry P) (nrandom P) (seed P) (molseed P)
    (xone P).

Definition set_ystr (P : Params) (ystr' : bool) : Params :=
  mkParams (ntype P) (style P) (mode P) (region P) (onemol P) (basistype P)
    (remapflag P) (varflag P) (xstr P) ystr' (zstr P) (quat_user P)
    (quatone P) (subsetflag P) (subsetfrac P) (nsubset P) (subsetseed P)
    (overlapflag P) (overlap P) (maxtry P) (nrandom P) (seed P) (molseed P)
    (xone P).

Definition set_zstr (P : Params) (zstr' : bool) : Params :=
  mkParams (ntype P) (style P) (mode P) (region P) (onemol P) (basistype P)
    (remapflag P) (varflag P) (xstr P) (ystr P) zstr' (quat_user P)
    (quatone P) (subsetflag P) (subsetfrac P) (nsubset P) (subsetseed P)
    (overlapflag P) (overlap P) (maxtry P) (nrandom P) (seed P) (molseed P)
    (xone P).

Definition set_quat_user (P : Params) (quat_user' : bool) : Params :=
  mkParams (ntype P) (style P) (mode P) (region P) (onemol P) (basistype P)
    (remapflag P) (varflag P) (xstr P) (ystr P) (zstr P) quat_user'
    (quatone P) (subsetflag P) (subsetfrac P) (nsubset P) (subsetseed P)
    (overlapflag P) (overlap P) (maxtry P) (nrandom P) (seed P) (molseed P)
    (xone P).

Definition set_quatone (P : Params) (quatone' : quat) : Params :=
  mkParams (ntype P) (style P) (mode P) (region P) (onemol P) (basistype P)
    (remapflag P) (varflag P) (xstr P) (ystr P) (zstr P) (quat_user P)
    quatone' (subsetflag P) (subsetfrac P) (nsubset P) (subsetseed P)
    (overlapflag P) (overlap P) (maxtry P) (nrandom P) (seed P) (molseed P)
    (xone P).

Definition set_subsetflag (P : Params) (subsetflag' : SubsetFlag) : Params :=
  mkParams (ntype P) (style P) (mode P) (region P) (onemol P) (basistype P)
    (remapflag P) (varflag P) (xstr P) (ystr P) (zstr P) (quat_user P)
    (quatone P) subsetflag' (subsetfrac P) (nsubset P) (subsetseed P)
    (overlapflag P) (overlap P) (maxtry P) (nrandom P) (seed P) (molseed P)
    (xone P).

Definition set_subsetfrac (P : Params) (subsetfrac' : Q) : Params :=
  mkParams (ntype P) (style P) (mode P) (region P) (onemol P) (basistype P)
    (remapflag P) (varflag P) (xstr P) (ystr P) (zstr P) (quat_user P)
    (quatone P) (subsetflag P) subsetfrac' (nsubset P) (subsetseed P)
    (overlapflag P) (overlap P) (maxtry P) (nrandom P) (seed P) (molseed P)
    (xone P).

Definition set_nsubset (P : Params) (nsubset' : Z) : Params :=
  mkParams (ntype P) (style P) (mode P) (region P) (onemol P) (basistype P)
    (remapflag P) (varflag P) (xstr P) (ystr P) (zstr P) (quat_user P)
    (quatone P) (subsetflag P) (subsetfrac P) nsubset' (subsetseed P)
    (overlapflag P) (overlap P) (maxtry P) (nrandom P) (seed P) (molseed P)
    (xone P).

Definition set_subsetseed (P : Params) (subsetseed' : Z) : Params :=
  mkParams (ntype P) (style P) (mode P) (region P) (onemol P) (basistype P)
    (remapflag P) (varflag P) (xstr P) (ystr P) (zstr P) (quat_user P)
    (quatone P) (subsetflag P) (subsetfrac P) (nsubset P) subsetseed'
    (overlapflag P) (overlap P) (maxtry P) (nrandom P) (seed P) (molseed P)
    (xone P).

Definition set_overlapflag (P : Params) (overlapflag' : bool) : Params :=
  mkParams (ntype P) (style P) (mode P) (region P) (onemol P) (basistype P)
    (remapflag P) (varflag P) (xstr P) (ystr P) (zstr P) (quat_user P)
    (quatone P) (subsetflag P) (subsetfrac P) (nsubset P) (subsetseed P)
    overlapflag' (overlap P) (maxtry P) (nrandom P) (seed P) (molseed P)
    (xone P).

Definition set_overlap (P : Params) (overlap' : Q) : Params :=
  mkParams (ntype P) (style P) (mode P) (region P) (onemol P) (basistype P)
    (remapflag P) (varflag P) (xstr P) (ystr P) (zstr P) (quat_user P)
    (quatone P) (subsetflag P) (subsetfrac P) (nsubset P) (subsetseed P)
    (overlapflag P) overlap' (maxtry P) (nrandom P) (seed P) (molseed P)
    (xone P).

Definition set_maxtry (P : Params) (maxtry' : Z) : Params :=
  mkParams (ntype P) (style P) (mode P) (region P) (onemol P) (basistype P)
    (remapflag P) (varflag P) (xstr P) (ystr P) (zstr P) (quat_user P)
    (quatone P) (subsetflag P) (subsetfrac P) (nsubset P) (subsetseed P)
    (overlapflag P) (overlap P) maxtry' (nrandom P) (seed P) (molseed P)
    (xone P).

(** [error->all(FLERR, "Illegal create_atoms command")] *)
Definition illegal {A : Type} : result A := Fatal "Illegal create_atoms command".

(** [arg[i]], of [narg] entries. *)
Definition arg (args : list String.string) (i : nat) : result String.string :=
  match nth_error args i with
  | Some s => Ok s
  | None => OutOfBounds (Z.of_nat i)
  end.

(** [basistype[i] = v], of [nbasis] entries. *)
Definition store (l : list Z) (i v : Z) : result (list Z) :=
  if (i <? 0) || (Z.of_nat (length l) <=? i) then OutOfBounds i
  else Ok (Stitch.update (Z.to_nat i) (fun _ => v) l).

Section Arguments.

Context {ext : Collaborators} {env : Setup}.

(** Lines 63-80. *)
Definition check_before (dom : Domain) : result unit :=
  if negb box_exist
  then Fatal "Create_atoms command before simulation box is defined"
  else if negb (nfix_restart_peratom =? 0)
  then Fatal "Cannot create_atoms after reading restart file with per-atom info"
  else if (dimension dom =? 2)
  then match latsty with
       | SC | BCC | FCC | HCP | DIAMOND =>
           Fatal "Lattice style incompatible with simulation dimension"
       | _ => Ok tt
       end
  else match latsty with
       | SQ | SQ2 | HEX =>
           Fatal "Lattice style incompatible with simulation dimension"
       | _ => Ok tt
       end.

Definition no_region (id : String.string) : String.string :=
  ("Create_atoms region " ++ id ++ " does not exist")%string.

(** [region = domain->get_region_by_id(id)] and its check. *)
Definition find_region (id : String.string) : result Region :=
  match get_region_by_id id with
  | Some rg => Ok rg
  | None => Fatal (no_region id)
  end.

(** The type and the style (lines 84-125): the command with the members
    the style sets, and [iarg]. *)
Definition parse_style (P : Params) (args : list String.string)
  : result (Params * nat) :=
  let narg := length args in
  if (narg <? 2)%nat then illegal
  else
    a0 <- arg args 0 ;;
    t <- got (inumeric a0) ;;
    let P := set_ntype P t in
    a1 <- arg args 1 ;;
    if (a1 =? "box")%string then
      Ok (set_region (set_style P BOX) None, 2%nat)
    else if (a1 =? "region")%string then
      let P := set_style P REGION in
      if (narg <? 3)%nat then illegal
      else
        a2 <- arg args 2 ;;
        rg <- find_region a2 ;;
        Ok (set_region P (Some rg), 3%nat)
    else if (a1 =? "single")%string then
      let P := set_style P SINGLE in
      if (narg <? 5)%nat then illegal
      else
        a2 <- arg args 2 ;;
        x <- got (numeric a2) ;;
        a3 <- arg args 3 ;;
        y <- got (numeric a3) ;;
        a4 <- arg args 4 ;;
        z <- got (numeric a4) ;;
        Ok (set_xone P (mkvec x y z), 5%nat)
    else if (a1 =? "random")%string then
      let P := set_style P RANDOM in
      if (narg <? 5)%nat then illegal
      else
        a2 <- arg args 2 ;;
        n <- got (inumeric a2) ;;
        let P := set_nrandom P n in
        if n <? 0 then illegal
        else
          a3 <- arg args 3 ;;
          s <- got (inumeric a3) ;;
          let P := set_seed P s in
          if s <=? 0 then illegal
          else
            a4 <- arg args 4 ;;
            if (a4 =? "NULL")%string then Ok (set_region P None, 5%nat)
            else
              rg <- find_region a4 ;;
              Ok (set_region P (Some rg), 5%nat)
    else illegal.

(** The defaults of the optional keywords (lines 129-145). *)
Definition set_defaults (lat : Lattice) (P : Params) : Params :=
  mkParams (ntype P) (style P) ATOM (region P) (onemol P)
    (repeat (ntype P) (nbasis lat))
    false false false false false false (mkquat 0 0 0 0)
    NONE (subsetfrac P) (nsubset P) (subsetseed P)
    false (overlap P) DEFAULT_MAXTRY
    (nrandom P) (seed P) (molseed P) (xone P).

Definition default_locals (tpl : Template) : Locals :=
  mkLocals 1 None None None None tpl false.

(** One turn of the loop over the optional keywords (lines 147-250): the
    members after it and the new [iarg]. *)
Definition keyword (me : Z) (dom : Domain) (lat : Lattice)
    (args : list String.string) (iarg : nat) (st : Params * Locals)
  : result (Params * Locals * nat) :=
  let narg := length args in
  let (P, L) := st in
  let value (k : nat) := arg args (iarg + k) in
  kw <- arg args iarg ;;
  if (kw =? "basis")%string then
    if (narg <? iarg + 3)%nat then illegal
    else
      a1 <- value 1%nat ;;
      ibasis <- got (inumeric a1) ;;
      a2 <- value 2%nat ;;
      itype <- got (inumeric a2) ;;
      if (ibasis <=? 0) || (ibasis >? Z.of_nat (nbasis lat))
         || (itype <=? 0) || (itype >? ntypes)
      then Fatal "Invalid basis setting in create_atoms command"
      else
        bt <- store (basistype P) (ibasis - 1) itype ;;
        Ok (set_basistype P bt, L, (iarg + 3)%nat)
  else if (kw =? "remap")%string then
    if (narg <? iarg + 2)%nat then illegal
    else
      a1 <- value 1%nat ;;
      b <- got (logical a1) ;;
      Ok (set_remapflag P b, L, (iarg + 2)%nat)
  else if (kw =? "mol")%string then
    if (narg <? iarg + 3)%nat then illegal
    else
      a1 <- value 1%nat ;;
      match find_molecule a1 with
      | None => Fatal "Molecule template ID for create_atoms does not exist"
      | Some t =>
          let L := if (nset t >? 1) && (me =? 0) then set_warned L true else L in
          let P := set_onemol (set_mode P MOLECULE) (body t) in
          let L := set_template L t in
          a2 <- value 2%nat ;;
          s <- got (inumeric a2) ;;
          Ok (set_molseed P s, L, (iarg + 3)%nat)
      end
  else if (kw =? "units")%string then
    if (narg <? iarg + 2)%nat then illegal
    else
      a1 <- value 1%nat ;;
      if (a1 =? "box")%string then Ok (P, set_scaleflag L 0, (iarg + 2)%nat)
      else if (a1 =? "lattice")%string
      then Ok (P, set_scaleflag L 1, (iarg + 2)%nat)
      else illegal
  else if (kw =? "var")%string then
    match style P with
    | SINGLE =>
        Fatal "Illegal create_atoms command: can't combine 'var' keyword with 'single' style!"
    | _ =>
        if (narg <? iarg + 2)%nat then illegal
        else
          a1 <- value 1%nat ;;
          Ok (set_varflag P true, set_vstr L (Some a1), (iarg + 2)%nat)
    end
  else if (kw =? "set")%string then
    if (narg <? iarg + 3)%nat then illegal
    else
      a1 <- value 1%nat ;;
      if (a1 =? "x")%string then
        a2 <- value 2%nat ;;
        Ok (set_xstr P true, set_xstr_name L (Some a2), (iarg + 3)%nat)
      else if (a1 =? "y")%string then
        a2 <- value 2%nat ;;
        Ok (set_ystr P true, set_ystr_name L (Some a2), (iarg + 3)%nat)
      else if (a1 =? "z")%string then
        a2 <- value 2%nat ;;
        Ok (set_zstr P true, set_zstr_name L (Some a2), (iarg + 3)%nat)
      else illegal
  else if (kw =? "rotate")%string then
    if (narg <? iarg + 5)%nat then illegal
    else
      let P := set_quat_user P true in
      a1 <- value 1%nat ;;
      t <- got (numeric a1) ;;
      let thetaone := (t / 180 * MY_PI)%Q in
      a2 <- value 2%nat ;;
      ax <- got (numeric a2) ;;
      a3 <- value 3%nat ;;
      ay <- got (numeric a3) ;;
      a4 <- value 4%nat ;;
      az <- got (numeric a4) ;;
      if Qeq_bool ax 0 && Qeq_bool ay 0 && Qeq_bool az 0 then illegal
      else if (dimension dom =? 2)
              && (negb (Qeq_bool ax 0) || negb (Qeq_bool ay 0))
      then Fatal "Invalid create_atoms rotation vector for 2d model"
      else
        Ok (set_quatone P (axisangle_to_quat (norm3 (mkvec ax ay az)) thetaone),
            L, (iarg + 5)%nat)
  else if (kw =? "ratio")%string then
    if (narg <? iarg + 3)%nat then illegal
    else
      let P := set_subsetflag P RATIO in
      a1 <- value 1%nat ;;
      f <- got (numeric a1) ;;
      a2 <- value 2%nat ;;
      s <- got (inumeric a2) ;;
      if Qleb f 0 || Qgtb f 1 || (s <=? 0) then illegal
      else Ok (set_subsetseed (set_subsetfrac P f) s, L, (iarg + 3)%nat)
  else if (kw =? "subset")%string then
    if (narg <? iarg + 3)%nat then illegal
    else
      let P := set_subsetflag P SUBSET in
      a1 <- value 1%nat ;;
      n <- got (bnumeric a1) ;;
      a2 <- value 2%nat ;;
      s <- got (inumeric a2) ;;
      if (n <=? 0) || (s <=? 0) then illegal
      else Ok (set_subsetseed (set_nsubset P n) s, L, (iarg + 3)%nat)
  else if (kw =? "overlap")%string then
    match style P with
    | RANDOM =>
        if (narg <? iarg + 2)%nat then illegal
        else
          a1 <- value 1%nat ;;
          o <- got (numeric a1) ;;
          if Qleb o 0 then illegal
          else Ok (set_overlapflag (set_overlap P o) true, L, (iarg + 2)%nat)
    | _ => Fatal "Create_atoms overlap can only be used with random style"
    end
  else if (kw =? "maxtry")%string then
    match style P with
    | RANDOM =>
        if (narg <? iarg + 2)%nat then illegal
        else
          a1 <- value 1%nat ;;
          n <- got (inumeric a1) ;;
          if n <=? 0 then illegal
          else Ok (set_maxtry P n, L, (iarg + 2)%nat)
    | _ => Fatal "Create_atoms maxtry can only be used with random style"
    end
  else illegal.

(** [while (iarg < narg)]: [None] when the turns allowed are used up. *)
Fixpoint keywords (turns : nat) (me : Z) (dom : Domain) (lat : Lattice)
    (args : list String.string) (iarg : nat) (st : Params * Locals)
  : option (result (Params * Locals)) :=
  if (iarg <? length args)%nat then
    match turns with
    | O => None
    | S turns' =>
        match keyword me dom lat args iarg st with
        | Ok (st', iarg') => keywords turns' me dom lat args iarg' st'
        | Fatal msg => Some (Fatal msg)
        | OutOfBounds i => Some (OutOfBounds i)
        end
    end
  else Some (Ok st).

(** The checks of the mode (lines 254-276); in molecule mode [onemol] is
    left with its center computed.  The generators [ranmol] and [ranlatt]
    are seeded here; the model seeds them where it draws. *)
Definition check_mode (P : Params) (L : Locals) : result Params :=
  match mode P with
  | ATOM =>
      if (ntype P <=? 0) || (ntype P >? ntypes)
      then Fatal "Invalid atom type in create_atoms command"
      else Ok P
  | MOLECULE =>
      let t := template L in
      if negb (xflag t) then Fatal "Create_atoms molecule must have coordinates"
      else if negb (typeflag t)
      then Fatal "Create_atoms molecule must have atom types"
      else if (Int32.add (ntype P) (mol_ntypes t) <=? 0)
              || (Int32.add (ntype P) (mol_ntypes t) >? ntypes)
      then Fatal "Invalid atom type in create_atoms mol command"
      else if tag_require t && negb tag_enable
      then Fatal "Create_atoms molecule has atom IDs, but system does not"
      else
        _ <- got (check_attributes t) ;;
        Ok (set_onemol P (compute_center t))
  end.

Definition is_set (name : option String.string) : bool :=
  match name with Some _ => true | None => false end.

Definition no_variable (name : String.string) : String.string :=
  ("Variable " ++ name ++ " for create_atoms does not exist")%string.

(** The look-up of one of the variables x, y, z (lines 292-309). *)
Definition check_internal (name : option String.string) : result unit :=
  match name with
  | None => Ok tt
  | Some s =>
      let v := variable_find s in
      if v <? 0 then Fatal (no_variable s)
      else if negb (internalstyle v)
      then Fatal "Variable for create_atoms is invalid style"
      else Ok tt
  end.

(** The checks of the variable test (lines 280-311); a read through a
    name that is not set is a read outside an array. *)
Definition check_variables (P : Params) (L : Locals) : result unit :=
  let any := is_set (xstr_name L) || is_set (ystr_name L) || is_set (zstr_name L) in
  if negb (is_set (vstr L)) && any
  then Fatal "Incomplete use of variables in create_atoms command"
  else if is_set (vstr L) && negb any
  then Fatal "Incomplete use of variables in create_atoms command"
  else if varflag P then
    match vstr L with
    | None => OutOfBounds 0
    | Some s =>
        let v := variable_find s in
        if v <? 0 then Fatal (no_variable s)
        else if negb (equalstyle v)
        then Fatal "Variable for create_atoms is invalid style"
        else
          _ <- check_internal (xstr_name L) ;;
          _ <- check_internal (ystr_name L) ;;
          check_internal (zstr_name L)
    end
  else Ok tt.

(** What follows the loop (lines 252-326). *)
Definition finish (lat : Lattice) (st : Params * Locals)
  : result (Params * Locals) :=
  let (P, L) := st in
  P <- check_mode P L ;;
  _ <- check_variables P L ;;
  scaled <- scale_units (style P) lat (scaleflag L) (xone P) (overlap P) ;;
  Ok (set_overlap (set_xone P (fst scaled)) (snd scaled), L).

(** [command] up to the set-up of the bounds: [P0] and [tpl0] are the
    members as the command finds them. *)
Definition parse (me : Z) (dom : Domain) (lat : Lattice) (P0 : Params)
    (tpl0 : Template) (args : list String.string)
  : option (result (Params * Locals)) :=
  match check_before dom with
  | Ok _ =>
      match parse_style P0 args with
      | Ok (P, iarg) =>
          match keywords (length args) me dom lat args iarg
                         (set_defaults lat P, default_locals tpl0) with
          | Some (Ok st) => Some (finish lat st)
          | other => other
          end
      | Fatal msg => Some (Fatal msg)
      | OutOfBounds i => Some (OutOfBounds i)
      end
  | Fatal msg => Some (Fatal msg)
  | OutOfBounds i => Some (OutOfBounds i)
  end.

End Arguments.


Section Vocabulary.

Context {env : Setup}.

(** What holds of the members after every turn of the loop over the
    keywords: the values the keywords have checked, and that a member
    differs from its default only when its keyword is among the arguments. *)
Record settled (lat : Lattice) (args : list String.string) (P : Params)
    (L : Locals) : Prop := mkSettled {
  maxtry_positive : 0 < maxtry P;
  maxtry_random : maxtry P <> DEFAULT_MAXTRY -> style P = RANDOM;
  overlap_random : overlapflag P = true -> style P = RANDOM /\ (0 < overlap P)%Q;
  ratio_valid :
    subsetflag P = RATIO -> (0 < subsetfrac P <= 1)%Q /\ 0 < subsetseed P;
  subset_valid : subsetflag P = SUBSET -> 0 < nsubset P /\ 0 < subsetseed P;
  basis_length : length (basistype P) = nbasis lat;
  basis_types : Forall (fun t => t = ntype P \/ 1 <= t <= ntypes) (basistype P);
  var_named : varflag P = is_set (vstr L);
  var_not_single : varflag P = true -> style P <> SINGLE;
  x_named : xstr P = is_set (xstr_name L);
  y_named : ystr P = is_set (ystr_name L);
  z_named : zstr P = is_set (zstr_name L);
  mol_template : mode P = MOLECULE -> onemol P = body (template L);
  units_flag : scaleflag L = 0 \/ scaleflag L = 1;
  basis_given :
    basistype P <> repeat (ntype P) (nbasis lat) -> In "basis"%string args;
  remap_given : remapflag P = true -> In "remap"%string args;
  mol_given : mode P = MOLECULE -> In "mol"%string args;
  units_given : scaleflag L <> 1 -> In "units"%string args;
  var_given : varflag P = true -> In "var"%string args;
  set_given :
    xstr P = true \/ ystr P = true \/ zstr P = true -> In "set"%string args;
  rotate_given : quat_user P = true -> In "rotate"%string args;
  ratio_given : subsetflag P = RATIO -> In "ratio"%string args;
  subset_given : subsetflag P = SUBSET -> In "subset"%string args;
  overlap_given : overlapflag P = true -> In "overlap"%string args;
  maxtry_given : maxtry P <> DEFAULT_MAXTRY -> In "maxtry"%string args
}.

(** The members the keywords never assign. *)
Definition same_style (P P' : Params) : Prop :=
  ntype P' = ntype P /\ style P' = style P /\ region P' = region P /\
  xone P' = xone P /\ nrandom P' = nrandom P /\ seed P' = seed P.

End Vocabulary.

End Command.

(** ** The loops over [int] indices, step by step *)

(** [for (v = lo; v <= hi; v++) body] on an [int] index, the increment
    wrapping around as the other [int] operations do; [None] when the turns
    allowed are used up.  At [hi = INT_MAX] the test never fails. *)
Fixpoint for_int {S : Type} (turns : nat) (v hi : Z)
    (body : Z -> S -> option (result S)) (s : S) : option (result S) :=
  if (v <=? hi)%Z then
    match turns with
    | O => None
    | S turns' =>
        match body v s with
        | Some (Ok s') => for_int turns' (Int32.incr v) hi body s'
        | other => other
        end
    end
  else Some (Ok s).

Section Steps.

Context {ext : Collaborators}.

(** [loop_lattice] with its three loops over [int] indices run step by
    step (lines 961-966: nlatt = 0 and the loops). *)
Definition loop_lattice_steps (turns : nat) (P : Params) (dom : Domain)
    (lat : Lattice) (action : Action) (flag : list Z) (r : Rank)
  : option (result Rank) :=
  for_int turns (klo r) (khi r)
    (fun k => for_int turns (jlo r) (jhi r)
      (fun j => for_int turns (ilo r) (ihi r)
        (fun i s =>
           Some (for_each
                   (fun m => site_body P dom lat action flag (mkSite k j i m))
                   (seq 0 (nbasis lat)) s))))
    (set_nlatt r 0%Z).

(** The loop indices of a rank are [int] values and its upper bounds lie
    below INT_MAX, so that the three loops end. *)
Definition loops_end (r : Rank) : Prop :=
  (Int32.in_range (ilo r) /\ ihi r < Int32.MAXSMALLINT)%Z /\
  (Int32.in_range (jlo r) /\ jhi r < Int32.MAXSMALLINT)%Z /\
  (Int32.in_range (klo r) /\ khi r < Int32.MAXSMALLINT)%Z.

(** The turns that suffice for the loops of a rank. *)
Definition loop_turns (r : Rank) : nat :=
  Z.to_nat (Z.max (ihi r - ilo r + 1)
                  (Z.max (jhi r - jlo r + 1) (khi r - klo r + 1))).

End Steps.

(** ** Vocabulary of the ownership test *)

Section OwnershipVocabulary.

Context {ext : Collaborators}.

(** The region test or the variable test sends [loop_lattice] on to the
    next candidate. *)
Definition filtered (P : Params) (x : vec3) : bool :=
  (match style P with REGION => negb (region_match x) | _ => false end)
  || (varflag P && (vartest P x =? 0)%Z).

(** The coordinate the ownership test reads: fractional in a sheared box,
    real otherwise. *)
Definition tested (dom : Domain) (x : vec3) : vec3 :=
  if triclinic dom then x2lamda x else x.

(** The rank has created one entity: one atom, or the atoms of one
    molecule, behind the atoms it had. *)
Definition has_created (P : Params) (r r' : Rank) : Prop :=
  exists nw, atoms r' = atoms r ++ nw /\ length nw = atoms_per_insert P.

(** The shift of a stored bound along an axis: EPSILON of a fractional
    box, EPSILON times the box length otherwise. *)
Definition seam_shift (dom : Domain) (a : Axis) : Q :=
  if triclinic dom then 1 # 1000000
  else (along a (prd dom) * (1 # 1000000))%Q.

End OwnershipVocabulary.

(** ** Vocabulary of the overlap test *)

Section OverlapVocabulary.

Context {ext : Collaborators}.

Local Open Scope Q_scope.

Definition normsq (v : vec3) : Q := c0 v * c0 v + c1 v * c1 v + c2 v * c2 v.

Definition diff3 (x1 x : vec3) : vec3 :=
  mkvec (c0 x1 - c0 x) (c1 x1 - c1 x) (c2 x1 - c2 x).

(** One turn of the loop of add_random that created: the position that
    was accepted (the atom, or the center of the molecule) and the positions
    of the atoms created at it. *)
Record Insertion : Type := mkInsertion { at_x : vec3; made : list vec3 }.

(** The rotation matrix [add_molecule] makes on a rank. *)
Definition rotmat_of (P : Params) (dom : Domain) (r : Rank) : mat3 :=
  quat_to_mat (fst (next_quat P dom r)).

(** [b] is the position of an atom created at the accepted position [c]:
    [c] itself, or [c] plus an offset of the template, rotated as
    [add_molecule] does on some rank. *)
Definition member_of (P : Params) (dom : Domain) (c b : vec3) : Prop :=
  match mode P with
  | ATOM => b = c
  | MOLECULE =>
      exists r m, (m < natoms (onemol P))%nat /\
                  b = add3 (matvec (rotmat_of P dom r)
                                   (nth m (dx (onemol P)) zero3)) c
  end.

Definition around (P : Params) (dom : Domain) (ins : Insertion) : Prop :=
  forall b, In b (made ins) -> member_of P dom (at_x ins) b.

(** The later insertion was accepted at the threshold distance or more
    from every atom of the earlier one. *)
Definition clear_of (P : Params) (earlier later : Insertion) : Prop :=
  forall a, In a (made earlier) -> odistsq P <= distsq (at_x later) a.

(** Every atom of the later insertion is at least [overlap] away from
    every atom of the earlier one. *)
Definition atoms_apart (P : Params) (earlier later : Insertion) : Prop :=
  forall a b, In a (made earlier) -> In b (made later) ->
              overlap P * overlap P <= distsq b a.

(** The template lies within its radius around its center
    ([Molecule::compute_center]). *)
Definition template_in_radius (P : Params) : Prop :=
  0 <= molradius (onemol P) /\
  forall m, (m < natoms (onemol P))%nat ->
    normsq (nth m (dx (onemol P)) zero3)
    <= molradius (onemol P) * molradius (onemol P).

(** The rotation matrices [add_molecule] makes, from the quaternion of the
    rotate keyword or from the one it draws, do not lengthen a vector. *)
Definition rotations_keep_length (P : Params) (dom : Domain) : Prop :=
  forall r v, normsq (matvec (rotmat_of P dom r) v) <= normsq v.

(** The minimum image is the shortest image: moving one end of a
    separation by [d] and taking the image moves an image of the separation
    by [d], and none of its images is shorter than its minimum image. *)
Definition shortest_image : Prop :=
  forall c a d,
    distsq c a <= normsq (diff3 (minimum_image (diff3 (add3 d c) a)) d).

End OverlapVocabulary.

(** The order in which the loops of [loop_lattice] reach two sites: [k]
    is the outermost loop variable, then [j], then [i], and the basis index
    [m] the innermost. *)
Definition site_before (s1 s2 : Site) : Prop :=
  (s_k s1 < s_k s2)%Z \/
  (s_k s1 = s_k s2 /\
   ((s_j s1 < s_j s2)%Z \/
    (s_j s1 = s_j s2 /\
     ((s_i s1 < s_i s2)%Z \/
      (s_i s1 = s_i s2 /\ (s_m s1 < s_m s2)%nat))))).
(** ** Concrete configurations *)

Definition demo_domain : Domain :=
  mkDomain false 3 true true true (mkvec 10 10 10)
           (mkvec 0 0 0) (mkvec 10 10 10) (mkvec 0 0 0) (mkvec 10 10 10)
           (mkvec 0 0 0) (mkvec 1 1 1).

(** Two procs side by side along x. *)
Definition demo_proc_lo : Proc :=
  mkProc 0 false (mkivec 0 0 0) (mkivec 2 1 1) (mkvec 0 0 0) (mkvec (1 # 2) 1 1)
         (mkvec 0 0 0) (mkvec 5 10 10) (mkvec 0 0 0) (mkvec (1 # 2) 1 1).

Definition demo_proc_hi : Proc :=
  mkProc 1 false (mkivec 1 0 0) (mkivec 2 1 1) (mkvec (1 # 2) 0 0) (mkvec 1 1 1)
         (mkvec 5 0 0) (mkvec 10 10 10) (mkvec (1 # 2) 0 0) (mkvec 1 1 1).

Definition demo_params : Params :=
  mkParams 1 BOX ATOM None
           (mkMolecule [] [] 0 false [] 0 false false false false false)
           [1%Z] false false false false false false (mkquat 1 0 0 0)
           NONE 1 0 1 false 0 1000 0 1 1 (mkvec 0 0 0).

Definition demo_rank (p : Proc) : Rank :=
  setup_rank BOX demo_domain p [].

(** A sub-domain that begins at -2^31 lattice cells. *)
Definition far_proc : Proc :=
  mkProc 0 false (mkivec 0 0 0) (mkivec 1 1 1) (mkvec 0 0 0) (mkvec 1 1 1)
         (mkvec (-2147483648) 0 0) (mkvec 0 1 1) (mkvec 0 0 0) (mkvec 1 1 1).


(** A sheared box, periodic along x and y only, on two procs. *)
Definition tri_domain : Domain :=
  mkDomain true 3 true true false (mkvec 10 10 10)
           (mkvec 0 0 0) (mkvec 10 10 10) (mkvec 0 0 0) (mkvec 12 10 10)
           (mkvec 0 0 0) (mkvec 1 1 1).

Definition tri_ranks : list Rank :=
  [ setup_rank SINGLE tri_domain demo_proc_lo [];
    setup_rank SINGLE tri_domain demo_proc_hi [] ].

(** [create_atoms 1 single x y z remap yes units box] *)
Definition single_params (x : vec3) : Params :=
  mkParams 1 SINGLE ATOM None
           (mkMolecule [] [] 0 false [] 0 false false false false false)
           [1%Z] true false false false false false (mkquat 1 0 0 0)
           NONE 1 0 1 false 0 1000 0 1 1 x.

(** The simple cubic lattice of spacing 1. *)
Definition sc_lattice : Lattice := mkLattice 1 1 1 [mkvec 0 0 0].

(** One proc that owns the whole 10 x 10 x 10 box. *)
Definition demo_proc_all : Proc :=
  mkProc 0 false (mkivec 0 0 0) (mkivec 1 1 1) (mkvec 0 0 0) (mkvec 1 1 1)
         (mkvec 0 0 0) (mkvec 10 10 10) (mkvec 0 0 0) (mkvec 1 1 1).

(** [create_atoms 1 box subset 4 1] *)
Definition subset_params : Params :=
  mkParams 1 BOX ATOM None
           (mkMolecule [] [] 0 false [] 0 false false false false false)
           [1%Z] false false false false false false (mkquat 1 0 0 0)
           SUBSET 1 4 1 false 0 1000 0 1 1 (mkvec 0 0 0).

(** The two ranks of the split box. *)
Definition demo_ranks : list Rank :=
  [demo_rank demo_proc_lo; demo_rank demo_proc_hi].


(** [create_atoms 1 random 3 1 NULL overlap 1.0 maxtry 1 units box] *)
Definition random_params (n : Z) : Params :=
  mkParams 1 RANDOM ATOM None
           (mkMolecule [] [] 0 false [] 0 false false false false false)
           [1%Z] false false false false false false (mkquat 1 0 0 0)
           NONE 1 0 1 true 1 1 n 1 1 (mkvec 0 0 0).

Definition random_ranks : list Rank :=
  [ setup_rank RANDOM demo_domain demo_proc_lo [];
    setup_rank RANDOM demo_domain demo_proc_hi [] ].

(** A template of two atoms 1/10 apart, placed n times with overlap 1:
    [create_atoms 0 random n 1 NULL mol pair 1 overlap 1.0 units box] *)
Definition pair_molecule : Molecule :=
  mkMolecule [mkvec (-1 # 20) 0 0; mkvec (1 # 20) 0 0] [1%Z; 1%Z] (1 # 20)
             false [] 1 false false false false false.

Definition molecule_params (n : Z) : Params :=
  mkParams 0 RANDOM MOLECULE None pair_molecule
           [0%Z] false false false false false false (mkquat 1 0 0 0)
           NONE 1 0 1 true 1 1000 n 1 1 (mkvec 0 0 0).

(** A template of two bonded atoms that carries two molecule IDs (a
    Molecules section with the IDs 1 and 2), stamped once by each of two
    ranks into an empty system. *)
Definition two_id_template : Molecule :=
  mkMolecule [mkvec (-1 # 2) 0 0; mkvec (1 # 2) 0 0] [1%Z; 1%Z] (1 # 2)
             true [1%Z; 2%Z] 2 true false false false false.

Definition two_id_system : Stitch.System :=
  Stitch.mkSystem true Stitch.MOLECULAR true two_id_template.

Definition two_id_ranks : list Stitch.TopoRank :=
  [ Stitch.mkTopoRank 0 [Stitch.bonded 1 2; Stitch.bonded 2 1];
    Stitch.mkTopoRank 0 [Stitch.bonded 3 2; Stitch.bonded 4 1] ].

(** [create_atoms 0 box mol pair 1]: the pair template on every site. *)
Definition mol_lattice_params : Params :=
  mkParams 0 BOX MOLECULE None pair_molecule
           [0%Z] false false false false false false (mkquat 1 0 0 0)
           NONE 1 0 1 false 0 1000 0 1 1 (mkvec 0 0 0).

(** [create_atoms 1 region cube]: a region inside the lo half of the box. *)
Definition cube_region : Region := mkRegion true (mkvec 2 2 2) (mkvec 4 4 4).

Definition region_params : Params :=
  mkParams 1 REGION ATOM (Some cube_region)
           (mkMolecule [] [] 0 false [] 0 false false false false false)
           [1%Z] false false false false false false (mkquat 1 0 0 0)
           NONE 1 0 1 false 0 1000 0 1 1 (mkvec 0 0 0).

(** One rank that has created two molecules of the two-ID template, and
    the systems that stitch them. *)
Definition two_molecule_rank : Stitch.TopoRank :=
  Stitch.mkTopoRank 0 [Stitch.bonded 1 2; Stitch.bonded 2 1;
                       Stitch.bonded 3 2; Stitch.bonded 4 1].


Definition pair_system : Stitch.System :=
  Stitch.mkSystem true Stitch.MOLECULAR true pair_molecule.

(** Readers of decimal numerals and of yes/no, a system of two atom types
    with the template [pair], the equal-style variable [v] and the
    internal-style variables [xx], [yy], [zz]. *)
Definition digit (c : Ascii.ascii) : option Z :=
  let n := Z.of_N (Ascii.N_of_ascii c) in
  if (48 <=? n)%Z && (n <=? 57)%Z then Some (n - 48)%Z else None.

Fixpoint digits (acc : Z) (s : String.string) : option Z :=
  match s with
  | EmptyString => Some acc
  | String c s' =>
      match digit c with
      | Some d => digits (10 * acc + d)%Z s'
      | None => None
      end
  end.

Definition decimal (s : String.string) : Command.read Z :=
  match s with
  | EmptyString => Command.Invalid "Expected integer parameter"
  | _ =>
      match digits 0 s with
      | Some z => Command.Value z
      | None => Command.Invalid "Expected integer parameter"
      end
  end.

Definition decimal_double (s : String.string) : Command.read Q :=
  match decimal s with
  | Command.Value z => Command.Value (inject_Z z)
  | Command.Invalid m => Command.Invalid m
  end.

Definition yes_no (s : String.string) : Command.read bool :=
  if (s =? "yes")%string then Command.Value true
  else if (s =? "no")%string then Command.Value false
  else Command.Invalid "Expected boolean parameter".

Definition pair_template : Command.Template :=
  Command.mkTemplate pair_molecule true true 1 false 1.

Definition demo_setup : Command.Setup := {|
  Command.inumeric := decimal;
  Command.numeric := decimal_double;
  Command.bnumeric := decimal;
  Command.logical := yes_no;
  Command.box_exist := true;
  Command.nfix_restart_peratom := 0%Z;
  Command.latsty := SC;
  Command.get_region_by_id :=
    fun id => if (id =? "cube")%string then Some cube_region else None;
  Command.ntypes := 2%Z;
  Command.tag_enable := true;
  Command.find_molecule :=
    fun id => if (id =? "pair")%string then Some pair_template else None;
  Command.check_attributes := fun _ => Command.Value tt;
  Command.compute_center := Command.body;
  Command.variable_find :=
    fun s => if (s =? "v")%string then 0%Z
             else if (s =? "xx")%string then 1%Z
             else if (s =? "yy")%string then 2%Z
             else if (s =? "zz")%string then 3%Z
             else (-1)%Z;
  Command.equalstyle := fun v => (v =? 0)%Z;
  Command.internalstyle := fun v => (1 <=? v)%Z;
  Command.MY_PI := (355 # 113)%Q
|}.

(** [create_atoms 1 random 3 1 NULL overlap 2 maxtry 5] *)
Definition random_args : list String.string :=
  ["1"; "random"; "3"; "1"; "NULL"; "overlap"; "2"; "maxtry"; "5"]%string.

(** [create_atoms 2 box basis 1 1 subset 4 7 var v set x xx] *)
Definition box_args : list String.string :=
  ["2"; "box"; "basis"; "1"; "1"; "subset"; "4"; "7";
   "var"; "v"; "set"; "x"; "xx"]%string.

(** [create_atoms 1 box] *)
Definition plain_args : list String.string := ["1"; "box"]%string.

(** The members after each of the three commands. *)
Definition read_args (args : list String.string) : Params * Command.Locals :=
  match @Command.parse plain_world demo_setup 0 demo_domain sc_lattice
          demo_params pair_template args with
  | Some (Ok st) => st
  | _ => (demo_params, Command.default_locals pair_template)
  end.

Definition random_parsed : Params * Command.Locals :=
  Eval vm_compute in read_args random_args.

Definition box_parsed : Params * Command.Locals :=
  Eval vm_compute in read_args box_args.

Definition plain_parsed : Params * Command.Locals :=
  Eval vm_compute in read_args plain_args.

(** A world as [plain_world], except that the draws of the position
    generator step through the eighths of the unit interval. *)
Definition stepping_world : Collaborators := {|
  remap := fun x => x;
  x2lamda := fun x => x;
  minimum_image := fun d => d;
  domain_bbox := fun lo hi => (lo, hi);
  lattice2box := fun x => x;
  lattice_bbox := fun x acc =>
    (mkvec (MIN (c0 x) (c0 (fst acc))) (MIN (c1 x) (c1 (fst acc)))
           (MIN (c2 x) (c2 (fst acc))),
     mkvec (MAX (c0 x) (c0 (snd acc))) (MAX (c1 x) (c1 (snd acc)))
           (MAX (c2 x) (c2 (snd acc))));
  region_match := fun _ => true;
  compute_equal := fun _ _ _ => 1%Q;
  park_uniform := fun _ n => (Z.of_nat (n mod 8) # 8)%Q;
  mars_uniform := fun _ _ => (1 # 2)%Q;
  select_subset := fun _ _ _ i => if Nat.even i then 1%Z else 0%Z;
  norm3 := fun v => v;
  axisangle_to_quat := fun _ _ => mkquat 1 0 0 0;
  quat_to_mat := fun _ => mkmat (mkvec 1 0 0) (mkvec 0 1 0) (mkvec 0 0 1);
  MY_2PI := (710 # 113)%Q
|}.

(** * Properties *)

(** ** Integers and comparisons *)

Lemma wrap_range z : Int32.in_range (Int32.wrap z).
Proof.
  unfold Int32.in_range, Int32.wrap, Int32.MINSMALLINT, Int32.MAXSMALLINT.
  pose proof (Z.mod_pos_bound (z + 2147483648) 4294967296 ltac:(lia)). lia.
Qed.

Lemma wrap_small z : Int32.in_range z -> Int32.wrap z = z.
Proof.
  unfold Int32.in_range, Int32.wrap, Int32.MINSMALLINT, Int32.MAXSMALLINT.
  intros Hz. rewrite Z.mod_small; lia.
Qed.

Lemma wrap_incr z : Int32.incr (Int32.wrap z) = Int32.wrap (z + 1).
Proof.
  unfold Int32.incr, Int32.add, Int32.wrap.
  replace ((z + 2147483648) mod 4294967296 - 2147483648 + 1 + 2147483648)%Z
    with ((z + 2147483648) mod 4294967296 + 1)%Z by lia.
  replace (z + 1 + 2147483648)%Z with ((z + 2147483648) + 1)%Z by lia.
  rewrite Zplus_mod_idemp_l. reflexivity.
Qed.

Lemma Qleb_le a b : Qleb a b = true <-> (a <= b)%Q.
Proof. apply Qle_bool_iff. Qed.

Lemma Qltb_lt a b : Qltb a b = true <-> (a < b)%Q.
Proof.
  unfold Qltb. rewrite negb_true_iff. split; intros Hab.
  - apply Qnot_le_lt. intros Hle. apply Qle_bool_iff in Hle. congruence.
  - destruct (Qle_bool b a) eqn:E; [|reflexivity].
    apply Qle_bool_iff in E. exfalso. exact (Qlt_not_le _ _ Hab E).
Qed.

Lemma Qltb_ge a b : Qltb a b = false <-> (b <= a)%Q.
Proof. unfold Qltb. rewrite negb_false_iff. apply Qle_bool_iff. Qed.

Lemma Qleb_gt a b : Qleb a b = false <-> (b < a)%Q.
Proof.
  rewrite <- Qltb_lt. unfold Qltb, Qleb.
  destruct (Qle_bool a b); simpl; split; congruence.
Qed.

Lemma in_subbox_spec lo hi coord :
  in_subbox lo hi coord = true <-> half_open lo hi coord.
Proof.
  unfold in_subbox, half_open, Qgeb.
  rewrite !andb_true_iff, !Qleb_le, !Qltb_lt. tauto.
Qed.

Lemma outside_subbox_spec lo hi coord :
  outside_subbox lo hi coord = false <-> half_open lo hi coord.
Proof.
  unfold outside_subbox, half_open, Qgeb.
  rewrite !orb_false_iff, !Qltb_ge, !Qleb_gt. tauto.
Qed.

Lemma outside_in_subbox lo hi coord :
  outside_subbox lo hi coord = negb (in_subbox lo hi coord).
Proof.
  destruct (in_subbox lo hi coord) eqn:E; simpl.
  - apply outside_subbox_spec, in_subbox_spec, E.
  - destruct (outside_subbox lo hi coord) eqn:F; [reflexivity|].
    apply outside_subbox_spec, in_subbox_spec in F. congruence.
Qed.

(** ** Units and bounds of [command] *)

Section SetupFacts.

Context {ext : Collaborators}.

Local Open Scope Q_scope.

(** C9: with lattice units (scaleflag = 1) and style single or random, the
    overlap distance that leaves the set-up is the user's value times the
    lattice spacing along x, whatever the spacings along y and z are; with
    box units (scaleflag = 0) it is the user's value. *)
Theorem C9_overlap_scaled_by_xlattice_only :
  forall (sty : Style) (lat : Lattice) (x1 : vec3) (ovl : Q),
    sty = SINGLE \/ sty = RANDOM ->
    (exists x1', scale_units sty lat 1 x1 ovl = Ok (x1', ovl * xlattice lat)) /\
    (forall yl zl bs, exists x1',
        scale_units sty (mkLattice (xlattice lat) yl zl bs) 1 x1 ovl
        = Ok (x1', ovl * xlattice lat)) /\
    scale_units sty lat 0 x1 ovl = Ok (x1, ovl).
Proof.
  intros sty lat x1 ovl Hsty.
  assert (Hl : is_lattice_style sty = false) by (destruct Hsty; subst; reflexivity).
  unfold scale_units. rewrite Hl. simpl.
  split; [|split].
  - eexists. reflexivity.
  - intros yl zl bs. eexists. reflexivity.
  - reflexivity.
Qed.

Lemma C9_witness :
  (RANDOM = SINGLE \/ RANDOM = RANDOM) /\
  scale_units RANDOM (mkLattice 2 3 5 []) 0 (mkvec 1 1 1) (7 # 10)
  = Ok (mkvec 1 1 1, 7 # 10).
Proof.
  split; [right; reflexivity|].
  apply (C9_overlap_scaled_by_xlattice_only RANDOM (mkLattice 2 3 5 [])
           (mkvec 1 1 1) (7 # 10)).
  right; reflexivity.
Defined.

Lemma epsilon_nonneg (a : Axis) (dom : Domain) :
  0 <= along a (prd dom) -> 0 <= along a (epsilon dom).
Proof.
  unfold epsilon, EPSILON. intros Hp.
  destruct (triclinic dom); destruct a; simpl in *; lra.
Qed.

Lemma stored_hi_below (a : Axis) (sty : Style) (dom : Domain) (p : Proc) :
  0 <= along a (prd dom) ->
  along a (snd (set_bounds sty dom p)) <= along a (snd (domain_sub dom p)).
Proof.
  intros Hp. pose proof (epsilon_nonneg a dom Hp) as He.
  unfold set_bounds, shift_axis.
  destruct (domain_sub dom p) as [lo hi].
  destruct (is_lattice_style sty); [|simpl; lra].
  destruct a; simpl in *;
    repeat match goal with |- context [if ?b then _ else _] => destruct b end;
    simpl; lra.
Qed.

Lemma stored_lo_kept (a : Axis) (sty : Style) (dom : Domain) (p : Proc) :
  lo_proc_along a p = false ->
  along a (fst (set_bounds sty dom p)) = along a (fst (domain_sub dom p)).
Proof.
  intros Hlo. unfold set_bounds, shift_axis.
  destruct (domain_sub dom p) as [lo hi].
  destruct (is_lattice_style sty); [|reflexivity].
  destruct a; simpl in *; rewrite Hlo;
    repeat match goal with |- context [if ?b then _ else _] => destruct b end;
    reflexivity.
Qed.

Lemma half_open_along (a : Axis) lo hi coord :
  half_open lo hi coord -> along a lo <= along a coord /\ along a coord < along a hi.
Proof. unfold half_open. destruct a; simpl; tauto. Qed.

End SetupFacts.

(** ** The loop bounds of [add_lattice] *)

Lemma Qltb_0_num q : Qltb q 0 = true <-> (Qnum q < 0)%Z.
Proof.
  rewrite Qltb_lt. unfold Qlt. simpl. lia.
Qed.

Lemma truncate_nonneg q : (0 <= Qnum q)%Z -> Int32.truncate q = Qfloor q.
Proof.
  intros Hq. unfold Int32.truncate, Qfloor. destruct q as [n d]. simpl in *.
  apply Z.quot_div_nonneg; lia.
Qed.

Lemma truncate_neg q :
  (Qnum q < 0)%Z -> (Qfloor q <= Int32.truncate q <= Qfloor q + 1)%Z.
Proof.
  intros Hq. unfold Int32.truncate, Qfloor. destruct q as [n d]. simpl in *.
  pose proof (Z.quot_rem' n (Zpos d)) as Hqr.
  pose proof (Z.rem_bound_pos_neg n (Zpos d) ltac:(lia) ltac:(lia)) as Hr.
  pose proof (Z.div_mod n (Zpos d) ltac:(lia)) as Hdm.
  pose proof (Z.mod_pos_bound n (Zpos d) ltac:(lia)) as Hm.
  nia.
Qed.

Lemma lo_bound_below (xmin : Q) :
  fits_int xmin -> (lo_bound xmin <= Qfloor xmin - 1)%Z.
Proof.
  unfold fits_int, lo_bound, Int32.decr, Int32.sub, Int32.static_cast_int,
    Int32.MINSMALLINT, Int32.MAXSMALLINT.
  intros Hf.
  rewrite (wrap_small (Int32.truncate xmin))
    by (unfold Int32.in_range, Int32.MINSMALLINT, Int32.MAXSMALLINT; lia).
  rewrite (wrap_small (Int32.truncate xmin - 1))
    by (unfold Int32.in_range, Int32.MINSMALLINT, Int32.MAXSMALLINT; lia).
  destruct (Qltb xmin 0) eqn:E.
  - apply Qltb_0_num in E. pose proof (truncate_neg xmin E).
    rewrite wrap_small
      by (unfold Int32.in_range, Int32.MINSMALLINT, Int32.MAXSMALLINT; lia).
    lia.
  - assert (0 <= Qnum xmin)%Z.
    { destruct (Z_lt_le_dec (Qnum xmin) 0) as [Hn|Hn]; [|exact Hn].
      apply Qltb_0_num in Hn. congruence. }
    rewrite truncate_nonneg by assumption. lia.
Qed.

Lemma hi_bound_above (xmax : Q) :
  fits_int xmax -> (hi_bound xmax >= Qfloor xmax + 1)%Z.
Proof.
  unfold fits_int, hi_bound, Int32.add, Int32.static_cast_int,
    Int32.MINSMALLINT, Int32.MAXSMALLINT.
  intros Hf.
  rewrite (wrap_small (Int32.truncate xmax))
    by (unfold Int32.in_range, Int32.MINSMALLINT, Int32.MAXSMALLINT; lia).
  rewrite wrap_small
    by (unfold Int32.in_range, Int32.MINSMALLINT, Int32.MAXSMALLINT; lia).
  destruct (Z_lt_le_dec (Qnum xmax) 0) as [Hn|Hn].
  - pose proof (truncate_neg xmax Hn). lia.
  - rewrite truncate_nonneg by assumption. lia.
Qed.

Section LatticeBounds.

Context {ext : Collaborators}.

(** C8, amended: when the truncations of the six extents of the
    lattice-space bounding box lie in [INT_MIN + 2, INT_MAX - 1], the loop
    bounds that add_lattice stores satisfy ilo <= floor(xmin) - 1 and
    ihi >= floor(xmax) + 1, and likewise for j and k. *)
Theorem C8_loop_bounds_enclose :
  forall (P : Params) (dom : Domain) (r : Rank),
    let vmin := fst (lattice_extent P dom (proc r)) in
    let vmax := snd (lattice_extent P dom (proc r)) in
    let r' := set_lattice_bounds P dom r in
    fits_int (c0 vmin) -> fits_int (c1 vmin) -> fits_int (c2 vmin) ->
    fits_int (c0 vmax) -> fits_int (c1 vmax) -> fits_int (c2 vmax) ->
    ((ilo r' <= Qfloor (c0 vmin) - 1) /\ (ihi r' >= Qfloor (c0 vmax) + 1)) /\
    ((jlo r' <= Qfloor (c1 vmin) - 1) /\ (jhi r' >= Qfloor (c1 vmax) + 1)) /\
    ((klo r' <= Qfloor (c2 vmin) - 1) /\ (khi r' >= Qfloor (c2 vmax) + 1)).
Proof.
  intros P dom r vmin vmax r' H0 H1 H2 H3 H4 H5.
  subst vmin vmax r'. unfold set_lattice_bounds.
  destruct (lattice_extent P dom (proc r)) as [vmin vmax]. simpl in *.
  repeat split; auto using lo_bound_below, hi_bound_above.
Qed.

End LatticeBounds.




Lemma C8_witness :
  let r := demo_rank demo_proc_hi in
  let r' := @set_lattice_bounds plain_world demo_params demo_domain r in
  (ilo r' <= 4 /\ ihi r' >= 11)%Z.
Proof.
  pose proof (@C8_loop_bounds_enclose plain_world demo_params demo_domain
                (demo_rank demo_proc_hi)) as H.
  simpl in H.
  assert (F : forall q, (-2147483646 <=? Int32.truncate q)%Z
                        && (Int32.truncate q <=? 2147483646)%Z = true ->
                        fits_int q).
  { intros q Hq. apply andb_true_iff in Hq. destruct Hq as [Ha Hb].
    unfold fits_int, Int32.MINSMALLINT, Int32.MAXSMALLINT. lia. }
  destruct H as ((Hlo & Hhi) & _); try (apply F; vm_compute; reflexivity).
  split.
  - etransitivity; [exact Hlo|]. vm_compute. discriminate.
  - eapply Z.le_ge, Z.le_trans; [|apply Z.ge_le; exact Hhi]. vm_compute. discriminate.
Defined.

(** C8 as stated fails at the edge of the int range: for a bounding box
    whose lower x extent is -2^31 the stored ilo is 2147483646, which is not
    below floor(xmin) - 1. *)
Lemma C8_counterexample :
  let r := setup_rank BOX demo_domain far_proc [] in
  let vmin := fst (@lattice_extent plain_world demo_params demo_domain (proc r)) in
  let r' := @set_lattice_bounds plain_world demo_params demo_domain r in
  c0 vmin = (-2147483648 # 1)%Q /\ ilo r' = 2147483646%Z /\
  ~ (ilo r' <= Qfloor (c0 vmin) - 1)%Z.
Proof.
  vm_compute. repeat split; intros H; apply H; reflexivity.
Qed.

(** ** [add_single] *)

Section SingleFacts.

Context {ext : Collaborators}.

Local Open Scope Q_scope.

Lemma clamp_lamda_periodic (l : Q) :
  (0 <= clamp_lamda true l /\ clamp_lamda true l < 1) /\
  (l < 0 \/ 1 <= l -> clamp_lamda true l = 0) /\
  (0 <= l /\ l < 1 -> clamp_lamda true l = l).
Proof.
  unfold clamp_lamda, Qgeb. simpl.
  destruct (Qltb l 0) eqn:E0; simpl.
  - apply Qltb_lt in E0. repeat split; try lra; intros; try reflexivity; lra.
  - apply Qltb_ge in E0. destruct (Qleb 1 l) eqn:E1.
    + apply Qleb_le in E1. repeat split; try lra; intros; try reflexivity; lra.
    + apply Qleb_gt in E1. repeat split; try lra; intros; try reflexivity; lra.
Qed.

Lemma single_coord_along (a : Axis) (P : Params) (dom : Domain) (x : vec3) :
  triclinic dom = true -> remapflag P = true ->
  along a (single_coord P dom x)
  = clamp_lamda (periodic_along a dom) (along a (x2lamda x)).
Proof.
  intros Ht Hr. unfold single_coord. rewrite Ht, Hr. destruct a; reflexivity.
Qed.

Lemma half_open_axes lo hi coord :
  half_open lo hi coord <->
  forall a, along a lo <= along a coord /\ along a coord < along a hi.
Proof.
  split.
  - intros H a. apply half_open_along, H.
  - intros H. unfold half_open.
    pose proof (H AxisX). pose proof (H AxisY). pose proof (H AxisZ). tauto.
Qed.

(** C10, amended: in a triclinic box with remap, a fractional coordinate
    of a periodic dimension outside [0,1) is set to 0 before the ownership
    test, so on periodic dimensions the tested position lies in the
    fractional box; when the sub-boxes tile that box and the fractional
    coordinates of the non-periodic dimensions lie in [0,1) too, exactly one
    rank passes the test, and it is the ranks that pass it that create. *)
Theorem C10_remapped_single_atom :
  forall (P : Params) (dom : Domain) (ranks : list Rank),
    triclinic dom = true -> remapflag P = true ->
    let lamda := x2lamda (remap (xone P)) in
    let coord := single_coord P dom (single_x P) in
    (forall a, periodic_along a dom = true ->
       (0 <= along a coord /\ along a coord < 1) /\
       (along a lamda < 0 \/ 1 <= along a lamda -> along a coord = 0) /\
       (0 <= along a lamda /\ along a lamda < 1 -> along a coord = along a lamda)) /\
    (tiles_unit_box ranks ->
     (forall a, periodic_along a dom = false ->
        0 <= along a lamda /\ along a lamda < 1) ->
     length (filter (creates_single P dom) ranks) = 1%nat) /\
    (forall r, add_single P dom r
               = if creates_single P dom r
                 then insert_at P dom (ntype P) (single_x P) r else r).
Proof.
  intros P dom ranks Ht Hr lamda coord.
  assert (Hx : single_x P = remap (xone P)) by (unfold single_x; rewrite Hr; reflexivity).
  assert (Hper : forall a, periodic_along a dom = true ->
            (0 <= along a coord /\ along a coord < 1) /\
            (along a lamda < 0 \/ 1 <= along a lamda -> along a coord = 0) /\
            (0 <= along a lamda /\ along a lamda < 1 -> along a coord = along a lamda)).
  { intros a Ha. subst coord lamda.
    rewrite (single_coord_along a P dom _ Ht Hr), Ha, Hx.
    apply clamp_lamda_periodic. }
  split; [exact Hper|]. split.
  - intros Htile Hnon. apply (Htile coord).
    apply half_open_axes. intros a. simpl.
    replace (along a unit_lo) with 0 by (destruct a; reflexivity).
    replace (along a unit_hi) with 1 by (destruct a; reflexivity).
    destruct (periodic_along a dom) eqn:Ha.
    + apply Hper, Ha.
    + subst coord lamda.
      rewrite (single_coord_along a P dom _ Ht Hr), Ha, Hx.
      unfold clamp_lamda. simpl. apply Hnon, Ha.
  - intros r. reflexivity.
Qed.

End SingleFacts.

Lemma tri_ranks_tile : tiles_unit_box tri_ranks.
Proof.
  intros coord Hc. unfold owners, tri_ranks, owns. simpl.
  unfold half_open, unit_lo, unit_hi in Hc. simpl in Hc.
  destruct (Qlt_le_dec (c0 coord) (1 # 2)) as [Hlt|Hge].
  - replace (in_subbox (mkvec 0 0 0) (mkvec (1 # 2) 1 1) coord) with true
      by (symmetry; apply in_subbox_spec; unfold half_open; simpl; lra).
    destruct (in_subbox (mkvec (1 # 2) 0 0) (mkvec 1 1 1) coord) eqn:E;
      [|reflexivity].
    apply in_subbox_spec in E. unfold half_open in E. simpl in E. lra.
  - replace (in_subbox (mkvec (1 # 2) 0 0) (mkvec 1 1 1) coord) with true
      by (symmetry; apply in_subbox_spec; unfold half_open; simpl; lra).
    destruct (in_subbox (mkvec 0 0 0) (mkvec (1 # 2) 1 1) coord) eqn:E;
      [|reflexivity].
    apply in_subbox_spec in E. unfold half_open in E. simpl in E. lra.
Qed.

Lemma C10_witness :
  let P := single_params (mkvec (-3) 12 5) in
  triclinic tri_domain = true /\ remapflag P = true /\
  c0 (@single_coord plain_world P tri_domain (@single_x plain_world P)) = 0%Q.
Proof.
  split; [reflexivity|]. split; [reflexivity|].
  destruct (@C10_remapped_single_atom plain_world
              (single_params (mkvec (-3) 12 5)) tri_domain tri_ranks
              eq_refl eq_refl) as (Hper & _ & _).
  destruct (Hper AxisX eq_refl) as (_ & Hreset & _).
  apply Hreset. left. reflexivity.
Defined.

(** C10 as stated fails when a dimension is not periodic: with x and y
    periodic and z not, the remapped position (1/4, 1/4, 3/2) passes the
    test of neither of the two ranks that tile the box, so no rank creates
    the atom. *)
Lemma C10_counterexample :
  let P := single_params (mkvec (1 # 4) (1 # 4) (3 # 2)) in
  triclinic tri_domain = true /\ remapflag P = true /\
  tiles_unit_box tri_ranks /\
  filter (@creates_single plain_world P tri_domain) tri_ranks = [] /\
  map (@add_single plain_world P tri_domain) tri_ranks = tri_ranks.
Proof.
  split; [reflexivity|]. split; [reflexivity|].
  split; [apply tri_ranks_tile|].
  split; vm_compute; reflexivity.
Qed.

(** ** Loops *)

Lemma for_each_app {A S : Type} (body : A -> S -> result S) (l1 l2 : list A) (s : S) :
  for_each body (l1 ++ l2) s = bind (for_each body l1 s) (for_each body l2).
Proof.
  revert s. induction l1 as [|a l1 IH]; intros s; simpl; [reflexivity|].
  destruct (body a s); simpl; auto.
Qed.

Lemma for_each_map {A B S : Type} (body : B -> S -> result S) (g : A -> B)
    (l : list A) (s : S) :
  for_each body (map g l) s = for_each (fun a => body (g a)) l s.
Proof.
  revert s. induction l as [|a l IH]; intros s; simpl; [reflexivity|].
  destruct (body (g a) s); simpl; auto.
Qed.

Lemma for_each_flat_map {A B S : Type} (body : B -> S -> result S)
    (f : A -> list B) (l : list A) (s : S) :
  for_each body (flat_map f l) s = for_each (fun a => for_each body (f a)) l s.
Proof.
  revert s. induction l as [|a l IH]; intros s; simpl; [reflexivity|].
  rewrite for_each_app. destruct (for_each body (f a) s); simpl; auto.
Qed.

Lemma for_each_ext {A S : Type} (body1 body2 : A -> S -> result S) (l : list A) :
  (forall a s, body1 a s = body2 a s) ->
  forall s, for_each body1 l s = for_each body2 l s.
Proof.
  intros Hb. induction l as [|a l IH]; intros s; simpl; [reflexivity|].
  rewrite Hb. destruct (body2 a s); simpl; auto.
Qed.

Lemma on_all_total {S T : Type} (f : S -> result T) (l : list S) :
  (forall s, In s l -> exists t, f s = Ok t) ->
  exists ts, on_all f l = Ok ts /\ Forall2 (fun s t => f s = Ok t) l ts.
Proof.
  induction l as [|s l IH]; intros Hf; simpl.
  - exists []. split; [reflexivity|constructor].
  - destruct (Hf s (or_introl eq_refl)) as [t Ht].
    destruct IH as [ts [Hts Hall]]; [intros s' Hs'; apply Hf; right; exact Hs'|].
    exists (t :: ts). rewrite Ht, Hts. simpl. split; [reflexivity|].
    constructor; assumption.
Qed.

Lemma on_all_not_fatal {S T : Type} (f : S -> result T) (l : list S) :
  (forall s m, In s l -> f s <> Fatal m) -> forall m, on_all f l <> Fatal m.
Proof.
  induction l as [|s l IH]; intros Hf m; simpl; [discriminate|].
  pose proof (Hf s m (or_introl eq_refl)) as Hs.
  destruct (f s) as [t|m'|i]; simpl; [|congruence|discriminate].
  assert (Hl : on_all f l <> Fatal m) by (apply IH; intros; apply Hf; right; assumption).
  destruct (on_all f l); simpl; congruence.
Qed.

Lemma on_all_in_bounds {S T : Type} (f : S -> result T) (l : list S) :
  (forall s i, In s l -> f s <> OutOfBounds i) -> forall i, on_all f l <> OutOfBounds i.
Proof.
  induction l as [|s l IH]; intros Hf i; simpl; [discriminate|].
  pose proof (Hf s i (or_introl eq_refl)) as Hs.
  destruct (f s) as [t|m'|i']; simpl; [|discriminate|congruence].
  assert (Hl : on_all f l <> OutOfBounds i)
    by (apply IH; intros; apply Hf; right; assumption).
  destruct (on_all f l); simpl; congruence.
Qed.

(** ** [loop_lattice] *)

Section LatticeFacts.

Context {ext : Collaborators}.

Variables (P : Params) (dom : Domain) (lat : Lattice).

Lemma same_frame_refl r : same_frame r r.
Proof. unfold same_frame; tauto. Qed.

Lemma same_frame_trans r1 r2 r3 :
  same_frame r1 r2 -> same_frame r2 r3 -> same_frame r1 r3.
Proof. unfold same_frame. intuition congruence. Qed.

Lemma insert_at_frame t x r : same_frame r (insert_at P dom t x r).
Proof.
  unfold insert_at, create_atom, add_molecule, same_frame.
  destruct (mode P); [simpl; tauto|].
  destruct (next_quat P dom r). simpl; tauto.
Qed.

Lemma insert_at_nlatt t x r :
  nlatt (insert_at P dom t x r) = nlatt r /\
  nlatt_overflow (insert_at P dom t x r) = nlatt_overflow r.
Proof.
  unfold insert_at, create_atom, add_molecule.
  destruct (mode P); [split; reflexivity|].
  destruct (next_quat P dom r). split; reflexivity.
Qed.

Lemma site_passes_frame r r' s :
  same_frame r r' -> site_passes P dom lat r' s = site_passes P dom lat r s.
Proof.
  intros (_ & Hlo & Hhi & _). unfold site_passes. rewrite Hlo, Hhi. reflexivity.
Qed.

Lemma sites_frame r r' : same_frame r r' -> sites lat r' = sites lat r.
Proof.
  intros (_ & _ & _ & H1 & H2 & H3 & H4 & H5 & H6). unfold sites.
  rewrite H1, H2, H3, H4, H5, H6. reflexivity.
Qed.

Lemma loop_lattice_sites action flag r :
  loop_lattice P dom lat action flag r
  = run_sites P dom lat action flag (sites lat r) (set_nlatt r 0).
Proof.
  unfold loop_lattice, run_sites, sites.
  rewrite for_each_flat_map. apply for_each_ext. intros k s.
  rewrite for_each_flat_map. apply for_each_ext. intros j s'.
  rewrite for_each_flat_map. apply for_each_ext. intros i s''.
  rewrite for_each_map. reflexivity.
Qed.

Lemma site_body_cases action flag s r :
  site_body P dom lat action flag s r
  = if site_passes P dom lat r s
    then bind (act P dom lat action flag s r)
              (fun r' => Ok (set_nlatt r' (Int32.incr (nlatt r'))))
    else Ok r.
Proof.
  unfold site_body, site_passes, act.
  destruct (match style P with REGION => negb (region_match (site_x lat s))
                          | _ => false end); [reflexivity|].
  destruct (varflag P && (vartest P (site_x lat s) =? 0)%Z); [reflexivity|].
  destruct (outside_subbox (sublo r) (subhi r)
              (if triclinic dom then x2lamda (site_x lat s) else site_x lat s));
    [reflexivity|].
  destruct action; reflexivity.
Qed.

Lemma act_ok action flag s r r' :
  act P dom lat action flag s r = Ok r' -> same_frame r r' /\ nlatt r' = nlatt r.
Proof.
  destruct action; simpl.
  - intros H; inversion H; subst; clear H.
    destruct (nlatt r =? Int32.MAXSMALLINT)%Z; split;
      solve [unfold same_frame; simpl; tauto | reflexivity].
  - intros H; inversion H; subst; clear H.
    split; [apply insert_at_frame|apply insert_at_nlatt].
  - destruct (read_flag flag (nlatt r)) as [f| |]; simpl; try discriminate.
    intros H; inversion H; subst; clear H.
    destruct (negb (f =? 0)%Z).
    + split; [apply insert_at_frame|apply insert_at_nlatt].
    + split; [apply same_frame_refl|reflexivity].
Qed.

Lemma act_not_fatal action flag s r m : act P dom lat action flag s r <> Fatal m.
Proof.
  destruct action; simpl; try discriminate.
  unfold read_flag. destruct (nlatt r <? 0)%Z; simpl; [discriminate|].
  destruct (nth_error flag (Z.to_nat (nlatt r))); simpl; discriminate.
Qed.

(** One step: the counter moves by one exactly at a site that passes, for
    every action. *)
Lemma site_body_ok action flag s r r' :
  site_body P dom lat action flag s r = Ok r' ->
  same_frame r r' /\
  nlatt r' = if site_passes P dom lat r s then Int32.incr (nlatt r) else nlatt r.
Proof.
  rewrite site_body_cases. destruct (site_passes P dom lat r s).
  - destruct (act P dom lat action flag s r) as [r1| |] eqn:E; simpl; try discriminate.
    intros H; inversion H; subst; clear H.
    destruct (act_ok _ _ _ _ _ E) as [Hf Hn]. rewrite Hn.
    split; [|reflexivity]. unfold same_frame in *. simpl. exact Hf.
  - intros H; inversion H; subst. split; [apply same_frame_refl|reflexivity].
Qed.

Lemma site_body_not_fatal action flag s r m :
  site_body P dom lat action flag s r <> Fatal m.
Proof.
  rewrite site_body_cases. destruct (site_passes P dom lat r s); [|discriminate].
  pose proof (act_not_fatal action flag s r m).
  destruct (act P dom lat action flag s r); simpl; congruence.
Qed.

Lemma run_sites_not_fatal action flag l r m :
  run_sites P dom lat action flag l r <> Fatal m.
Proof.
  unfold run_sites. revert r. induction l as [|s l IH]; intros r; simpl;
    [discriminate|].
  pose proof (site_body_not_fatal action flag s r m).
  destruct (site_body P dom lat action flag s r); simpl; auto; congruence.
Qed.

Lemma passing_cons r s l :
  passing P dom lat r (s :: l)
  = ((if site_passes P dom lat r s then 1 else 0) + passing P dom lat r l)%Z.
Proof.
  unfold passing. cbn [filter]. destruct (site_passes P dom lat r s);
    cbn [length]; lia.
Qed.

Lemma passing_app r l1 l2 :
  passing P dom lat r (l1 ++ l2)
  = (passing P dom lat r l1 + passing P dom lat r l2)%Z.
Proof.
  unfold passing. rewrite filter_app, length_app. lia.
Qed.

Lemma passing_nonneg r l : (0 <= passing P dom lat r l)%Z.
Proof. unfold passing. lia. Qed.

Lemma passing_frame r r' l :
  same_frame r r' -> passing P dom lat r' l = passing P dom lat r l.
Proof.
  intros Hf. unfold passing. f_equal. f_equal.
  apply filter_ext. intros s. apply site_passes_frame, Hf.
Qed.

(** Whatever the action, a run that ends leaves the counter at the wrapped
    number of passing sites. *)
Lemma run_sites_nlatt action flag l : forall r r' n0,
  run_sites P dom lat action flag l r = Ok r' ->
  nlatt r = Int32.wrap n0 ->
  same_frame r r' /\ nlatt r' = Int32.wrap (n0 + passing P dom lat r l).
Proof.
  unfold run_sites. induction l as [|s l IH]; intros r r' n0; simpl.
  - intros H Hn; inversion H; subst. split; [apply same_frame_refl|].
    unfold passing; simpl. rewrite Z.add_0_r. exact Hn.
  - destruct (site_body P dom lat action flag s r) as [r1| |] eqn:E; simpl;
      try discriminate.
    intros Hrun Hn. destruct (site_body_ok _ _ _ _ _ E) as [Hf1 Hn1].
    rewrite passing_cons.
    assert (Hn1' : nlatt r1 = Int32.wrap
                     (n0 + (if site_passes P dom lat r s then 1 else 0))).
    { rewrite Hn1, Hn. destruct (site_passes P dom lat r s).
      - apply wrap_incr.
      - rewrite Z.add_0_r. reflexivity. }
    destruct (IH r1 r' _ Hrun Hn1') as [Hf2 Hn2].
    split; [eapply same_frame_trans; eassumption|].
    rewrite Hn2, (passing_frame r r1 l Hf1). f_equal. lia.
Qed.

Lemma run_sites_count_total flag l : forall r,
  exists r', run_sites P dom lat COUNT flag l r = Ok r'.
Proof.
  unfold run_sites. induction l as [|s l IH]; intros r; simpl.
  - eexists; reflexivity.
  - rewrite site_body_cases. destruct (site_passes P dom lat r s); simpl; apply IH.
Qed.

Lemma run_sites_insert_total flag l : forall r,
  exists r', run_sites P dom lat INSERT flag l r = Ok r'.
Proof.
  unfold run_sites. induction l as [|s l IH]; intros r; simpl.
  - eexists; reflexivity.
  - rewrite site_body_cases. destruct (site_passes P dom lat r s); simpl; apply IH.
Qed.

(** The COUNT pass raises the flag exactly when the number of passing sites
    goes beyond MAXSMALLINT, and creates nothing. *)
Lemma run_sites_count_overflow flag l : forall r r' n0,
  run_sites P dom lat COUNT flag l r = Ok r' ->
  (0 <= n0)%Z -> nlatt r = Int32.wrap n0 ->
  nlatt_overflow r = (if (n0 >? Int32.MAXSMALLINT)%Z then 1 else 0)%Z ->
  nlatt_overflow r'
  = (if (n0 + passing P dom lat r l >? Int32.MAXSMALLINT)%Z then 1 else 0)%Z /\
  atoms r' = atoms r.
Proof.
  unfold run_sites. induction l as [|s l IH]; intros r r' n0; simpl.
  - intros H; inversion H; subst. intros _ _ Hov. unfold passing; simpl.
    rewrite Z.add_0_r. split; [exact Hov|reflexivity].
  - destruct (site_body P dom lat COUNT flag s r) as [r1| |] eqn:E; simpl;
      try discriminate.
    intros Hrun H0 Hn Hov. rewrite passing_cons.
    destruct (site_body_ok _ _ _ _ _ E) as [Hf1 _].
    rewrite site_body_cases in E.
    destruct (site_passes P dom lat r s) eqn:Hp.
    + simpl in E. inversion E; subst r1; clear E.
      assert (Hstep :
        nlatt_overflow (if (nlatt r =? Int32.MAXSMALLINT)%Z
                        then set_nlatt_overflow r 1 else r)
        = (if (n0 + 1 >? Int32.MAXSMALLINT)%Z then 1 else 0)%Z).
      { unfold Int32.MAXSMALLINT in *.
        destruct (Z.gtb_spec n0 2147483647) as [Hbig|Hsmall].
        - destruct (nlatt r =? 2147483647)%Z; simpl; rewrite ?Hov;
            destruct (Z.gtb_spec (n0 + 1) 2147483647); try reflexivity; lia.
        - rewrite Hn, wrap_small
            by (unfold Int32.in_range, Int32.MINSMALLINT, Int32.MAXSMALLINT; lia).
          destruct (Z.eqb_spec n0 2147483647); simpl; rewrite ?Hov;
            destruct (Z.gtb_spec (n0 + 1) 2147483647); try reflexivity; lia. }
      edestruct (IH _ r' (n0 + 1)%Z Hrun) as [Hov' Hat].
      * lia.
      * simpl. destruct (nlatt r =? Int32.MAXSMALLINT)%Z; simpl;
          rewrite Hn; apply wrap_incr.
      * simpl. exact Hstep.
      * rewrite Hov', (passing_frame r _ l Hf1). split.
        -- rewrite Z.add_assoc. reflexivity.
        -- rewrite Hat. simpl. destruct (nlatt r =? Int32.MAXSMALLINT)%Z; reflexivity.
    + inversion E; subst r1; clear E.
      destruct (IH _ r' n0 Hrun H0 Hn Hov) as [Hov' Hat].
      rewrite Hov', Z.add_0_l. split; [reflexivity|exact Hat].
Qed.

(** With a flag array as long as the number of passing sites, every read of
    the INSERT_SELECTED pass is inside it. *)
Lemma run_sites_selected_total flag l : forall r n0,
  (0 <= n0)%Z -> nlatt r = n0 ->
  (n0 + passing P dom lat r l <= Z.of_nat (length flag))%Z ->
  (Z.of_nat (length flag) <= Int32.MAXSMALLINT)%Z ->
  exists r', run_sites P dom lat INSERT_SELECTED flag l r = Ok r' /\
             nlatt r' = (n0 + passing P dom lat r l)%Z /\ same_frame r r'.
Proof.
  unfold run_sites. induction l as [|s l IH]; intros r n0 H0 Hn Hlen Hmax; simpl.
  - exists r. unfold passing; simpl. rewrite Z.add_0_r.
    repeat split; try assumption; apply same_frame_refl.
  - rewrite passing_cons in *. rewrite site_body_cases.
    pose proof (passing_nonneg r l) as Hpl.
    destruct (site_passes P dom lat r s) eqn:Hp.
    + unfold act, read_flag. rewrite Hn.
      destruct (Z.ltb_spec n0 0) as [Hneg|_]; [lia|].
      destruct (nth_error flag (Z.to_nat n0)) as [f|] eqn:Hnth.
      2:{ apply nth_error_None in Hnth. lia. }
      cbn [bind].
      set (r1 := if negb (f =? 0)%Z
                 then insert_at P dom (nth (s_m s) (basistype P) 0%Z)
                                (site_x lat s) r
                 else r).
      assert (Hr1 : same_frame r r1 /\ nlatt r1 = n0).
      { subst r1. destruct (negb (f =? 0)%Z).
        - split; [apply insert_at_frame|].
          rewrite (proj1 (insert_at_nlatt _ _ _)). exact Hn.
        - split; [apply same_frame_refl|exact Hn]. }
      destruct Hr1 as [Hf1 Hn1].
      assert (Hf1' : same_frame r (set_nlatt r1 (Int32.incr (nlatt r1))))
        by (unfold same_frame in *; simpl; exact Hf1).
      destruct (IH (set_nlatt r1 (Int32.incr (nlatt r1))) (n0 + 1)%Z)
        as (r' & Hrun & Hn' & Hf').
      * lia.
      * simpl. rewrite Hn1. unfold Int32.incr, Int32.add. apply wrap_small.
        unfold Int32.in_range, Int32.MINSMALLINT, Int32.MAXSMALLINT in *. lia.
      * rewrite (passing_frame r _ l Hf1'). lia.
      * exact Hmax.
      * exists r'. split; [exact Hrun|]. split.
        -- rewrite Hn', (passing_frame r _ l Hf1'). lia.
        -- eapply same_frame_trans; eassumption.
    + destruct (IH r n0 H0 Hn ltac:(lia) Hmax) as (r' & Hrun & Hn' & Hf').
      exists r'. split; [exact Hrun|]. split; [rewrite Hn'; lia|exact Hf'].
Qed.

(** Lines 827-897 on one rank: the COUNT pass ends, leaves the wrapped
    number of passing sites in [nlatt], has raised the flag exactly on
    overflow, and has created nothing. *)
Lemma count_sites_spec r :
  exists rc, count_sites P dom lat r = Ok rc /\
    nlatt rc = Int32.wrap (passing P dom lat rc (sites lat rc)) /\
    nlatt_overflow rc
    = (if (passing P dom lat rc (sites lat rc) >? Int32.MAXSMALLINT)%Z
       then 1 else 0)%Z /\
    atoms rc = atoms r /\ proc rc = proc r.
Proof.
  unfold count_sites. rewrite loop_lattice_sites.
  set (r2 := set_nlatt_overflow (set_lattice_bounds P dom r) 0).
  destruct (run_sites_count_total [] (sites lat r2) (set_nlatt r2 0)) as [rc Hrc].
  exists rc. split; [exact Hrc|].
  destruct (run_sites_nlatt COUNT [] _ _ rc 0%Z Hrc eq_refl) as [Hf Hn].
  destruct (run_sites_count_overflow [] _ _ rc 0%Z Hrc ltac:(lia) eq_refl eq_refl)
    as [Hov Hat].
  assert (Hf2 : same_frame r2 rc).
  { unfold same_frame in *. simpl in Hf. exact Hf. }
  assert (Hs : sites lat rc = sites lat r2) by (apply sites_frame, Hf2).
  assert (Hp : passing P dom lat rc (sites lat r2)
               = passing P dom lat (set_nlatt r2 0) (sites lat r2)).
  { apply passing_frame. unfold same_frame in *. simpl. exact Hf. }
  rewrite Hs, Hp. simpl in Hn, Hov. split; [exact Hn|]. split; [exact Hov|].
  split.
  - rewrite Hat. subst r2. unfold set_lattice_bounds.
    destruct (lattice_extent P dom (proc r)). reflexivity.
  - destruct Hf2 as [Hpr _]. rewrite Hpr. subst r2. unfold set_lattice_bounds.
    destruct (lattice_extent P dom (proc r)). reflexivity.
Qed.

End LatticeFacts.

Lemma sum_flags (l : list Z) : forall acc,
  Forall (fun f => f = 0 \/ f = 1)%Z l ->
  (0 <= acc)%Z -> (acc + Z.of_nat (length l) <= Int32.MAXSMALLINT)%Z ->
  exists k, (0 <= k)%Z /\ fold_left Int32.add l acc = (acc + k)%Z /\
            (k = 0%Z <-> Forall (fun f => f = 0%Z) l).
Proof.
  induction l as [|f l IH]; intros acc Hall Hacc Hlen.
  - exists 0%Z. simpl. repeat split; auto; lia.
  - inversion Hall as [|? ? Hf Hl]; subst. cbn [length] in Hlen. cbn [fold_left].
    assert (Hw : Int32.add acc f = (acc + f)%Z).
    { unfold Int32.add. apply wrap_small.
      unfold Int32.in_range, Int32.MINSMALLINT, Int32.MAXSMALLINT in *. lia. }
    rewrite Hw.
    destruct (IH (acc + f)%Z Hl ltac:(lia) ltac:(lia)) as (k & Hk & Hfold & Hzero).
    exists (f + k)%Z. split; [lia|]. split; [rewrite Hfold; lia|].
    split.
    + intros H0. constructor; [lia|]. apply Hzero. lia.
    + intros H0. inversion H0; subst. apply Hzero in H3. lia.
Qed.

Lemma allreduce_sum_flags (l : list Z) :
  Forall (fun f => f = 0 \/ f = 1)%Z l ->
  (Z.of_nat (length l) <= Int32.MAXSMALLINT)%Z ->
  (allreduce_sum_int l = 0%Z <-> Forall (fun f => f = 0%Z) l).
Proof.
  intros Hall Hlen. unfold allreduce_sum_int.
  destruct (sum_flags l 0%Z Hall ltac:(lia) ltac:(lia)) as (k & Hk & Hfold & Hzero).
  rewrite Hfold. rewrite <- Hzero. lia.
Qed.

Lemma some_flag_set (l : list Rank) :
  Forall (fun rc => nlatt_overflow rc = 0 \/ nlatt_overflow rc = 1)%Z l ->
  ~ Forall (fun rc => nlatt_overflow rc = 0%Z) l ->
  exists rc, In rc l /\ nlatt_overflow rc = 1%Z.
Proof.
  induction l as [|rc l IH]; intros H01 Hnot.
  - exfalso. apply Hnot. constructor.
  - inversion H01 as [|? ? Hrc Hl]; subst. destruct Hrc as [H0|H1].
    + destruct IH as (rc' & Hin & Hone); [exact Hl| |].
      * intros Hall. apply Hnot. constructor; assumption.
      * exists rc'. split; [right; exact Hin|exact Hone].
    + exists rc. split; [left; reflexivity|exact H1].
Qed.

Section AddLatticeFacts.

Context {ext : Collaborators}.

(** C1: at every site and for every action the counter nlatt moves by one
    exactly when the site passes the region test, the variable test and the
    ownership test; so after any initial stretch of the enumeration the
    COUNT pass, the INSERT pass and the INSERT_SELECTED pass (with a flag
    array that covers the count) hold the same counter, the wrapped number
    of passing sites met so far, and in particular the same final value. *)
Theorem C1_counter_independent_of_action :
  forall (P : Params) (dom : Domain) (lat : Lattice) (r : Rank) (flag : list Z)
         (pre post : list Site),
    sites lat r = pre ++ post ->
    let n := Int32.wrap (passing P dom lat r pre) in
    (forall action s r1 r2,
        same_frame r r1 -> site_body P dom lat action flag s r1 = Ok r2 ->
        nlatt r2 = if site_passes P dom lat r s
                   then Int32.incr (nlatt r1) else nlatt r1) /\
    (forall action, loop_lattice P dom lat action flag r
                    = run_sites P dom lat action flag (sites lat r) (set_nlatt r 0)) /\
    (forall r1, same_frame r r1 ->
       exists rc, run_sites P dom lat COUNT flag pre (set_nlatt r1 0) = Ok rc /\
                  nlatt rc = n) /\
    (forall r1, same_frame r r1 ->
       exists ri, run_sites P dom lat INSERT flag pre (set_nlatt r1 0) = Ok ri /\
                  nlatt ri = n) /\
    ((passing P dom lat r (sites lat r) <= Z.of_nat (length flag))%Z ->
     (Z.of_nat (length flag) <= Int32.MAXSMALLINT)%Z ->
     forall r1, same_frame r r1 ->
       exists rs, run_sites P dom lat INSERT_SELECTED flag pre (set_nlatt r1 0) = Ok rs /\
                  nlatt rs = n).
Proof.
  intros P dom lat r flag pre post Hsplit n.
  assert (Hstart : forall r1, same_frame r r1 ->
            passing P dom lat (set_nlatt r1 0) pre = passing P dom lat r pre).
  { intros r1 Hf. apply passing_frame. unfold same_frame in *. simpl. exact Hf. }
  split; [|split; [|split; [|split]]].
  - intros action s r1 r2 Hf Hbody.
    destruct (site_body_ok P dom lat _ _ _ _ _ Hbody) as [_ Hn].
    rewrite Hn, (site_passes_frame P dom lat r r1 s Hf). reflexivity.
  - intros action. apply loop_lattice_sites.
  - intros r1 Hf.
    destruct (run_sites_count_total P dom lat flag pre (set_nlatt r1 0)) as [rc Hrc].
    exists rc. split; [exact Hrc|].
    destruct (run_sites_nlatt P dom lat COUNT flag pre _ rc 0%Z Hrc eq_refl) as [_ Hn].
    rewrite Hn, Hstart by exact Hf. reflexivity.
  - intros r1 Hf.
    destruct (run_sites_insert_total P dom lat flag pre (set_nlatt r1 0)) as [ri Hri].
    exists ri. split; [exact Hri|].
    destruct (run_sites_nlatt P dom lat INSERT flag pre _ ri 0%Z Hri eq_refl) as [_ Hn].
    rewrite Hn, Hstart by exact Hf. reflexivity.
  - intros Hlen Hmax r1 Hf.
    assert (Hpre : (passing P dom lat r pre <= passing P dom lat r (sites lat r))%Z).
    { rewrite Hsplit, passing_app. pose proof (passing_nonneg P dom lat r post). lia. }
    destruct (run_sites_selected_total P dom lat flag pre (set_nlatt r1 0) 0%Z)
      as (rs & Hrs & Hn & _); try reflexivity; try lia.
    { rewrite Hstart by exact Hf. lia. }
    exists rs. split; [exact Hrs|].
    rewrite Hn, Hstart by exact Hf. subst n. simpl.
    symmetry. apply wrap_small.
    pose proof (passing_nonneg P dom lat r pre).
    unfold Int32.in_range, Int32.MINSMALLINT, Int32.MAXSMALLINT in *. lia.
Qed.

Lemma counted_flags (P : Params) (dom : Domain) (lat : Lattice)
    (ranks counted : list Rank) :
  Forall2 (fun r rc => count_sites P dom lat r = Ok rc) ranks counted ->
  Forall (fun rc =>
            nlatt rc = Int32.wrap (passing P dom lat rc (sites lat rc)) /\
            nlatt_overflow rc
            = (if (passing P dom lat rc (sites lat rc) >? Int32.MAXSMALLINT)%Z
               then 1 else 0)%Z) counted.
Proof.
  induction 1 as [|r rc ranks counted Hc _ IH]; constructor; [|exact IH].
  destruct (count_sites_spec P dom lat r) as (rc' & Hrc' & Hn & Hov & _).
  rewrite Hc in Hrc'. inversion Hrc'; subst rc'. split; assumption.
Qed.

Lemma counted_no_overflow (P : Params) (dom : Domain) (lat : Lattice) (rc : Rank) :
  nlatt rc = Int32.wrap (passing P dom lat rc (sites lat rc)) ->
  nlatt_overflow rc
  = (if (passing P dom lat rc (sites lat rc) >? Int32.MAXSMALLINT)%Z
     then 1 else 0)%Z ->
  nlatt_overflow rc = 0%Z ->
  nlatt rc = passing P dom lat rc (sites lat rc) /\
  (passing P dom lat rc (sites lat rc) <= Int32.MAXSMALLINT)%Z.
Proof.
  intros Hn Hov H0. rewrite Hov in H0.
  destruct (Z.gtb_spec (passing P dom lat rc (sites lat rc)) Int32.MAXSMALLINT)
    as [Hbig|Hsmall]; [discriminate|].
  split; [|exact Hsmall]. rewrite Hn. apply wrap_small.
  pose proof (passing_nonneg P dom lat rc (sites lat rc)).
  unfold Int32.in_range, Int32.MINSMALLINT, Int32.MAXSMALLINT in *. lia.
Qed.

Lemma subset_flags_length (P : Params) (nsub : Z) (rc : Rank) :
  (0 <= nlatt rc)%Z -> Z.of_nat (length (subset_flags P nsub rc)) = nlatt rc.
Proof.
  intros H. unfold subset_flags. rewrite length_map, length_seq. lia.
Qed.

(** The INSERT_SELECTED pass of a rank whose COUNT pass did not overflow. *)
Lemma selected_pass_total (P : Params) (dom : Domain) (lat : Lattice)
    (nsub : Z) (rc : Rank) :
  nlatt rc = Int32.wrap (passing P dom lat rc (sites lat rc)) ->
  nlatt_overflow rc
  = (if (passing P dom lat rc (sites lat rc) >? Int32.MAXSMALLINT)%Z
     then 1 else 0)%Z ->
  nlatt_overflow rc = 0%Z ->
  exists r', loop_lattice P dom lat INSERT_SELECTED (subset_flags P nsub rc) rc
             = Ok r'.
Proof.
  intros Hn Hov H0.
  destruct (counted_no_overflow P dom lat rc Hn Hov H0) as [Hn' Hmax].
  pose proof (passing_nonneg P dom lat rc (sites lat rc)) as Hpos.
  pose proof (subset_flags_length P nsub rc ltac:(lia)) as Hlen.
  rewrite loop_lattice_sites.
  destruct (run_sites_selected_total P dom lat (subset_flags P nsub rc)
              (sites lat rc) (set_nlatt rc 0) 0%Z) as (r' & Hr' & _);
    try reflexivity; try lia.
  - rewrite (passing_frame P dom lat rc (set_nlatt rc 0))
      by (unfold same_frame; simpl; tauto). lia.
  - exists r'. exact Hr'.
Qed.

(** C7: add_lattice never reads outside the flag array; and on a rank
    whose COUNT pass did not overflow the array has nlatt entries, and at
    every passing site of the INSERT_SELECTED pass the index nlatt that is
    read is at least 0 and less than that size. *)
Theorem C7_flag_reads_in_bounds :
  forall (P : Params) (dom : Domain) (lat : Lattice) (ranks : list Rank),
    (Z.of_nat (length ranks) <= Int32.MAXSMALLINT)%Z ->
    (forall i, add_lattice P dom lat ranks <> OutOfBounds i) /\
    (forall r rc nsub pre s post,
       In r ranks ->
       count_sites P dom lat r = Ok rc -> nlatt_overflow rc = 0%Z ->
       sites lat rc = pre ++ s :: post -> site_passes P dom lat rc s = true ->
       let flag := subset_flags P nsub rc in
       Z.of_nat (length flag) = nlatt rc /\
       exists r' f,
         run_sites P dom lat INSERT_SELECTED flag pre (set_nlatt rc 0) = Ok r' /\
         (0 <= nlatt r' < Z.of_nat (length flag))%Z /\
         read_flag flag (nlatt r') = Ok f).
Proof.
  intros P dom lat ranks Hlen. split.
  - intros i.
    destruct (on_all_total (count_sites P dom lat) ranks) as (counted & Hall & Hf2).
    { intros r _. destruct (count_sites_spec P dom lat r) as (rc & Hrc & _).
      exists rc. exact Hrc. }
    pose proof (counted_flags P dom lat ranks counted Hf2) as Hflags.
    assert (H01 : Forall (fun f => f = 0 \/ f = 1)%Z (map nlatt_overflow counted)).
    { apply Forall_map. eapply Forall_impl; [|exact Hflags].
      intros rc [_ H]. rewrite H.
      destruct (passing P dom lat rc (sites lat rc) >? Int32.MAXSMALLINT)%Z; auto. }
    assert (Hlen' : (Z.of_nat (length (map nlatt_overflow counted))
                     <= Int32.MAXSMALLINT)%Z).
    { rewrite length_map, <- (Forall2_length Hf2). exact Hlen. }
    pose proof (allreduce_sum_flags _ H01 Hlen') as Hsum.
    unfold add_lattice. rewrite Hall. cbn [bind].
    destruct (Z.eqb_spec (allreduce_sum_int (map nlatt_overflow counted)) 0)
      as [Hz|Hnz]; cbn [negb]; [|discriminate].
    apply Hsum in Hz. rewrite Forall_map in Hz.
    assert (Hsel : forall nsub,
              on_all (fun r => loop_lattice P dom lat INSERT_SELECTED
                                 (subset_flags P nsub r) r) counted
              <> OutOfBounds i).
    { intros nsub. apply on_all_in_bounds. intros rc j Hin.
      rewrite Forall_forall in Hflags, Hz.
      destruct (Hflags rc Hin) as [Hn Hov].
      destruct (selected_pass_total P dom lat nsub rc Hn Hov (Hz rc Hin))
        as [r' Hr'].
      rewrite Hr'. discriminate. }
    destruct (subsetflag P).
    + apply on_all_in_bounds. intros rc j _. rewrite loop_lattice_sites.
      destruct (run_sites_insert_total P dom lat [] (sites lat rc) (set_nlatt rc 0))
        as [r' Hr'].
      rewrite Hr'. discriminate.
    + destruct (_ >? _)%Z; [discriminate|apply Hsel].
    + destruct (_ >? _)%Z; [discriminate|apply Hsel].
  - intros r rc nsub pre s post _ Hcount H0 Hsplit Hpass flag.
    destruct (count_sites_spec P dom lat r) as (rc' & Hrc' & Hn & Hov & _).
    rewrite Hcount in Hrc'. inversion Hrc'; subst rc'; clear Hrc'.
    destruct (counted_no_overflow P dom lat rc Hn Hov H0) as [Hn' Hmax].
    pose proof (passing_nonneg P dom lat rc (sites lat rc)) as Hpos.
    pose proof (subset_flags_length P nsub rc ltac:(lia)) as Hflen.
    fold flag in Hflen. split; [exact Hflen|].
    assert (Hfr : same_frame rc (set_nlatt rc 0))
      by (unfold same_frame; simpl; tauto).
    assert (Hall : passing P dom lat rc (sites lat rc)
                   = (passing P dom lat rc pre + 1 + passing P dom lat rc post)%Z).
    { rewrite Hsplit, passing_app, passing_cons, Hpass. lia. }
    pose proof (passing_nonneg P dom lat rc pre) as Hpre.
    pose proof (passing_nonneg P dom lat rc post) as Hpost.
    destruct (run_sites_selected_total P dom lat flag pre (set_nlatt rc 0) 0%Z)
      as (r' & Hr' & Hnr' & _); try reflexivity; try lia.
    { rewrite (passing_frame P dom lat rc _ pre Hfr). lia. }
    rewrite (passing_frame P dom lat rc _ pre Hfr) in Hnr'.
    assert (Hidx : (0 <= nlatt r' < Z.of_nat (length flag))%Z) by lia.
    destruct (nth_error flag (Z.to_nat (nlatt r'))) as [f|] eqn:Hnth.
    + exists r', f. split; [exact Hr'|]. split; [exact Hidx|].
      unfold read_flag. rewrite Hnth.
      destruct (Z.ltb_spec (nlatt r') 0) as [Hneg|_]; [lia|reflexivity].
    + apply nth_error_None in Hnth. lia.
Qed.

End AddLatticeFacts.

Lemma C1_witness :
  let r := @set_lattice_bounds plain_world demo_params demo_domain
             (demo_rank demo_proc_all) in
  sites sc_lattice r = sites sc_lattice r ++ [] /\
  (exists rc,
      @run_sites plain_world demo_params demo_domain sc_lattice COUNT []
                 (sites sc_lattice r) (set_nlatt r 0) = Ok rc /\
      nlatt rc = 1000%Z) /\
  (exists ri,
      @run_sites plain_world demo_params demo_domain sc_lattice INSERT []
                 (sites sc_lattice r) (set_nlatt r 0) = Ok ri /\
      nlatt ri = 1000%Z).
Proof.
  intros r.
  assert (Hsplit : sites sc_lattice r = sites sc_lattice r ++ [])
    by (symmetry; apply app_nil_r).
  split; [exact Hsplit|].
  destruct (@C1_counter_independent_of_action plain_world demo_params demo_domain
              sc_lattice r [] (sites sc_lattice r) [] Hsplit)
    as (_ & _ & Hc & Hi & _).
  split.
  - destruct (Hc r (same_frame_refl r)) as (rc & Hrun & Hn).
    exists rc. split; [exact Hrun|]. rewrite Hn. vm_compute. reflexivity.
  - destruct (Hi r (same_frame_refl r)) as (ri & Hrun & Hn).
    exists ri. split; [exact Hrun|]. rewrite Hn. vm_compute. reflexivity.
Defined.

Lemma two_ranks_fit : (Z.of_nat (length demo_ranks) <= Int32.MAXSMALLINT)%Z.
Proof. vm_compute. discriminate. Defined.

Lemma C7_witness :
  (Z.of_nat (length demo_ranks) <= Int32.MAXSMALLINT)%Z /\
  forall i,
    @add_lattice plain_world subset_params demo_domain sc_lattice demo_ranks
    <> OutOfBounds i.
Proof.
  split; [exact two_ranks_fit|].
  exact (proj1 (@C7_flag_reads_in_bounds plain_world subset_params demo_domain
                  sc_lattice demo_ranks two_ranks_fit)).
Defined.

(** The scenarios of the specification: a 10 x 10 x 10 box of the unit cubic
    lattice holds 1000 sites; split over two ranks along a periodic axis,
    each rank creates 500 atoms; of a subset of 4 each rank keeps its marks. *)
Example box_of_1000_sites :
  match @count_sites plain_world demo_params demo_domain sc_lattice
          (demo_rank demo_proc_all) with
  | Ok rc => nlatt rc = 1000%Z /\ nlatt_overflow rc = 0%Z
  | _ => False
  end.
Proof. vm_compute. split; reflexivity. Qed.

Example two_ranks_500_each :
  match @add_lattice plain_world demo_params demo_domain sc_lattice demo_ranks with
  | Ok l => map nlocal l = [500%nat; 500%nat]
  | _ => False
  end.
Proof. vm_compute. reflexivity. Qed.

(** ** [add_random] *)

Lemma fold_max_flags (l : list Z) : forall a,
  (a = 0 \/ a = 1)%Z -> Forall (fun f => f = 0 \/ f = 1)%Z l ->
  (fold_left Z.max l a = 0%Z <-> a = 0%Z /\ Forall (fun f => f = 0%Z) l).
Proof.
  induction l as [|f l IH]; intros a Ha Hl; simpl.
  - split; [intros H; split; [exact H|constructor]|intros [H _]; exact H].
  - inversion Hl as [|? ? Hf Hl']; subst.
    rewrite IH by (try assumption; lia).
    split.
    + intros [Hm Hall]. split; [lia|]. constructor; [lia|exact Hall].
    + intros [Hz Hall]. inversion Hall; subst. split; [lia|assumption].
Qed.

Lemma allreduce_max_flags (l : list Z) :
  Forall (fun f => f = 0 \/ f = 1)%Z l ->
  (allreduce_max l = 0%Z <-> Forall (fun f => f = 0%Z) l).
Proof.
  intros Hl. destruct l as [|a l]; simpl.
  - split; [constructor|reflexivity].
  - inversion Hl as [|? ? Ha Hl']; subst.
    rewrite fold_max_flags by assumption.
    split; [intros [H1 H2]; constructor; assumption|].
    intros H; inversion H; subst; split; [reflexivity|assumption].
Qed.

Lemma FOP_snoc {A : Type} (R : A -> A -> Prop) (l : list A) (x : A) :
  ForallOrdPairs R l -> (forall a, In a l -> R a x) ->
  ForallOrdPairs R (l ++ [x]).
Proof.
  induction 1 as [|a l Ha Hl IH]; intros Hx; simpl.
  - constructor; constructor.
  - constructor.
    + apply Forall_app. split; [exact Ha|].
      constructor; [apply Hx; left; reflexivity|constructor].
    + apply IH. intros b Hb. apply Hx. right. exact Hb.
Qed.

Section RandomFacts.

Context {ext : Collaborators}.

Variables (P : Params) (dom : Domain).

Local Open Scope Q_scope.

Lemma reject_flag (x : vec3) (r : Rank) :
  (reject P x r = 0 \/ reject P x r = 1)%Z.
Proof. unfold reject. destruct (existsb _ _); auto. Qed.

(** A rank reports 0 exactly when the new position is at least the overlap
    distance away from every atom it stores. *)
Lemma reject_zero (x : vec3) (r : Rank) :
  reject P x r = 0%Z <->
  forall a, In a (atoms r) -> odistsq P <= distsq x (a_x a).
Proof.
  unfold reject.
  destruct (existsb (fun a => Qltb (distsq x (a_x a)) (odistsq P)) (atoms r)) eqn:E.
  - split; [discriminate|]. intros Hfar. exfalso.
    apply existsb_exists in E. destruct E as (a & Hin & Hlt).
    apply Qltb_lt in Hlt. specialize (Hfar a Hin). lra.
  - split; [|reflexivity]. intros _ a Hin.
    apply Qltb_ge.
    destruct (Qltb (distsq x (a_x a)) (odistsq P)) eqn:F; [|reflexivity].
    assert (existsb (fun a => Qltb (distsq x (a_x a)) (odistsq P)) (atoms r) = true)
      by (apply existsb_exists; exists a; split; assumption).
    congruence.
Qed.

(** The reduction with MPI_MAX is the logical OR of the flags. *)
Lemma reject_any (x : vec3) (ranks : list Rank) :
  allreduce_max (map (reject P x) ranks) <> 0%Z <->
  exists r, In r ranks /\ reject P x r = 1%Z.
Proof.
  assert (H01 : Forall (fun f => f = 0 \/ f = 1)%Z (map (reject P x) ranks)).
  { apply Forall_map, Forall_forall. intros r _. apply reject_flag. }
  rewrite (allreduce_max_flags _ H01), Forall_map.
  split.
  - intros Hnot. induction ranks as [|r rs IH].
    + exfalso. apply Hnot. constructor.
    + destruct (reject_flag x r) as [H0|H1].
      * destruct IH as (r' & Hin & Hr').
        -- inversion H01; assumption.
        -- intros Hall. apply Hnot. constructor; assumption.
        -- exists r'. split; [right; exact Hin|exact Hr'].
      * exists r. split; [left; reflexivity|exact H1].
  - intros (r & Hin & Hone) Hall. rewrite Forall_forall in Hall.
    specialize (Hall r Hin). simpl in Hall. lia.
Qed.

(** A position that leaves the try loop is at least the overlap distance
    away from every atom stored on any rank. *)
Lemma try_place_far (box : vec3 * vec3 * Q) (ranks : list Rank) :
  overlapflag P = true ->
  forall fuel n x coord n',
    try_place P dom box ranks fuel n = (Some (x, coord), n') ->
    forall r a, In r ranks -> In a (atoms r) -> odistsq P <= distsq x (a_x a).
Proof.
  intros Hov. induction fuel as [|fuel IH]; intros n x coord n' H;
    [discriminate|].
  cbn [try_place] in H. rewrite Hov in H. cbn [andb] in H.
  set (x0 := draw_position P dom box n) in *.
  repeat match type of H with
         | (if ?b then _ else _) = _ =>
             destruct b eqn:?; [exact (IH _ _ _ _ H)|]
         end.
  inversion H; subst x coord n'; clear H.
  match goal with
  | E : negb (allreduce_max _ =? 0)%Z = false |- _ =>
      apply negb_false_iff, Z.eqb_eq in E;
      apply allreduce_max_flags in E;
      [|apply Forall_map, Forall_forall; intros; apply reject_flag]
  end.
  intros r a Hr Ha.
  match goal with
  | E : Forall _ (map _ ranks) |- _ =>
      rewrite Forall_map, Forall_forall in E; specialize (E r Hr)
  end.
  apply (proj1 (reject_zero x0 r)); assumption.
Qed.

Lemma place_proc (x coord : vec3) (r : Rank) :
  proc (place P dom x coord r) = proc r /\
  sublo (place P dom x coord r) = sublo r /\
  subhi (place P dom x coord r) = subhi r.
Proof.
  unfold place. destruct (in_subbox (sublo r) (subhi r) coord); [|tauto].
  pose proof (insert_at_frame P dom (ntype P) x r) as Hf.
  unfold same_frame in Hf. tauto.
Qed.


End RandomFacts.



Section RandomClaims.

Context {ext : Collaborators}.

Local Open Scope Q_scope.


End RandomClaims.

(** The scenario of the specification: with one try per atom and every
    draw at the same point, one atom of three is placed and rank 0 warns. *)
Example one_of_three_placed :
  match @add_random plain_world (random_params 3) demo_domain random_ranks with
  | Ok out => out_ninsert out = 1%Z /\ map nlocal (out_ranks out) = [0%nat; 1%nat] /\
              out_warned out = [true; false]
  | _ => False
  end.
Proof. vm_compute. repeat split. Qed.

Example none_requested :
  match @add_random plain_world (random_params 0) demo_domain random_ranks with
  | Ok out => out_ninsert out = 0%Z /\ out_ranks out = random_ranks /\
              out_warned out = [false; false]
  | _ => False
  end.
Proof. vm_compute. repeat split. Qed.

Section OverlapFacts.

Context {ext : Collaborators}.

Variables (P : Params) (dom : Domain).

Local Open Scope Q_scope.

Lemma new_x_grown (r0 r : Rank) (nw : list AtomRec) :
  atoms r = atoms r0 ++ nw -> new_x r0 r = map a_x nw.
Proof.
  intros H. unfold new_x, nlocal. rewrite H, skipn_app, skipn_all, Nat.sub_diag.
  reflexivity.
Qed.

Lemma grown_refl (r : Rank) : grown r r.
Proof.
  unfold grown. repeat split. exists []. symmetry. apply app_nil_r.
Qed.

Lemma all_new_x_start (ranks : list Rank) : all_new_x ranks ranks = [].
Proof.
  unfold all_new_x. induction ranks as [|r l IH]; [reflexivity|].
  simpl. rewrite IH, (new_x_grown r r []); [reflexivity|].
  symmetry. apply app_nil_r.
Qed.

Lemma all_new_x_cons (r0 r : Rank) (l0 l : list Rank) :
  all_new_x (r0 :: l0) (r :: l) = new_x r0 r ++ all_new_x l0 l.
Proof. reflexivity. Qed.

(** Every new position is the position of an atom some rank stores. *)
Lemma in_all_new_x (l0 l : list Rank) (v : vec3) :
  Forall2 grown l0 l -> In v (all_new_x l0 l) ->
  exists r a, In r l /\ In a (atoms r) /\ a_x a = v.
Proof.
  induction 1 as [|r0 r l0 l Hg _ IH]; [contradiction|].
  rewrite all_new_x_cons, in_app_iff. intros [Hin|Hin].
  - destruct Hg as (_ & _ & nw & Hnw).
    rewrite (new_x_grown r0 r nw Hnw) in Hin.
    apply in_map_iff in Hin. destruct Hin as (a & Ha & Hin).
    exists r, a. split; [left; reflexivity|]. split; [|exact Ha].
    rewrite Hnw. apply in_or_app. right. exact Hin.
  - destruct (IH Hin) as (r' & a & Hr' & Ha & Hv).
    exists r', a. split; [right; exact Hr'|]. split; assumption.
Qed.

Lemma grown_owns (r0 r : Rank) (coord : vec3) :
  grown r0 r -> owns r coord = owns r0 coord.
Proof. intros (Hlo & Hhi & _). unfold owns. rewrite Hlo, Hhi. reflexivity. Qed.

(** Ranks that do not own the position are left as they are. *)
Lemma place_none (x coord : vec3) (l0 l : list Rank) :
  Forall2 grown l0 l -> owners l0 coord = [] ->
  map (place P dom x coord) l = l.
Proof.
  induction 1 as [|r0 r l0 l Hg _ IH]; [reflexivity|].
  unfold owners. cbn [filter map]. fold (owners l0 coord).
  destruct (owns r0 coord) eqn:E; [discriminate|].
  intros Hnil. rewrite (IH Hnil). f_equal.
  unfold place. fold (owns r coord). rewrite (grown_owns r0 r coord Hg), E.
  reflexivity.
Qed.

(** In atom mode a placement adds the position to one rank at most. *)
Lemma place_all (x coord : vec3) (l0 l : list Rank) :
  mode P = ATOM ->
  Forall2 grown l0 l -> (length (owners l0 coord) <= 1)%nat ->
  Forall2 grown l0 (map (place P dom x coord) l) /\
  (all_new_x l0 (map (place P dom x coord) l) = all_new_x l0 l \/
   Permutation (all_new_x l0 (map (place P dom x coord) l))
               (x :: all_new_x l0 l)).
Proof.
  intros Hmode. induction 1 as [|r0 r l0 l Hg Hl IH]; intros Hone.
  - split; [constructor|left; reflexivity].
  - unfold owners in Hone. cbn [filter] in Hone. fold (owners l0 coord) in Hone.
    cbn [map]. rewrite !all_new_x_cons.
    destruct (owns r0 coord) eqn:E.
    + assert (Hnil : owners l0 coord = []).
      { destruct (owners l0 coord); [reflexivity|simpl in Hone; lia]. }
      rewrite (place_none x coord l0 l Hl Hnil).
      destruct Hg as (Hlo & Hhi & nw & Hnw).
      assert (Hat : atoms (place P dom x coord r)
                    = atoms r0 ++ (nw ++ [mkAtom (ntype P) x])).
      { unfold place. fold (owns r coord).
        rewrite (grown_owns r0 r coord) by (unfold grown; eauto).
        rewrite E. unfold insert_at. rewrite Hmode. simpl.
        rewrite Hnw, app_assoc. reflexivity. }
      split.
      * constructor; [|exact Hl].
        destruct (place_proc P dom x coord r) as (_ & Hlo' & Hhi').
        unfold grown. rewrite Hlo', Hhi'. repeat split; try assumption. eauto.
      * right. rewrite (new_x_grown r0 _ _ Hat), (new_x_grown r0 r nw Hnw).
        rewrite map_app. simpl. rewrite <- app_assoc. simpl.
        apply Permutation_sym, Permutation_middle.
    + assert (Hsame : place P dom x coord r = r).
      { unfold place. fold (owns r coord).
        rewrite (grown_owns r0 r coord Hg), E. reflexivity. }
      rewrite Hsame. destruct (IH Hone) as [Hg' Hnew].
      split; [constructor; assumption|].
      destruct Hnew as [Heq|Hperm].
      * left. rewrite Heq. reflexivity.
      * right. eapply Permutation_trans.
        -- apply Permutation_app_head. exact Hperm.
        -- apply Permutation_sym, Permutation_middle.
Qed.

(** The invariant of the loop over the atoms to place, in atom mode:
    the new positions, in the order of their acceptance, are pairwise at
    least the overlap distance apart. *)
Lemma random_loop_apart (box : vec3 * vec3 * Q) (ranks0 : list Rank) :
  mode P = ATOM -> overlapflag P = true -> disjoint_ownership ranks0 ->
  forall count n ninsert ranks log,
    Forall2 grown ranks0 ranks ->
    Permutation (all_new_x ranks0 ranks) log ->
    ForallOrdPairs (apart P) log ->
    exists log',
      Forall2 grown ranks0 (fst (random_loop P dom box count n ninsert ranks)) /\
      Permutation
        (all_new_x ranks0 (fst (random_loop P dom box count n ninsert ranks)))
        log' /\
      ForallOrdPairs (apart P) log'.
Proof.
  intros Hmode Hov Hdis.
  induction count as [|count IH]; intros n ninsert ranks log Hg Hperm Hfar.
  - exists log. simpl. repeat split; assumption.
  - cbn [random_loop].
    destruct (try_place P dom box ranks (Z.to_nat (maxtry P)) n)
      as [[[x coord]|] n'] eqn:Htry.
    + pose proof (try_place_far P dom box ranks Hov _ _ _ _ _ Htry) as Hx.
      destruct (place_all x coord ranks0 ranks Hmode Hg (Hdis coord))
        as [Hg' [Heq|Hnew]].
      * apply (IH n' _ _ log Hg'); [rewrite Heq; exact Hperm|exact Hfar].
      * apply (IH n' _ _ (log ++ [x]) Hg').
        -- eapply Permutation_trans; [exact Hnew|].
           eapply Permutation_trans; [apply perm_skip; exact Hperm|].
           apply Permutation_cons_append.
        -- apply FOP_snoc; [exact Hfar|].
           intros v Hv. unfold apart.
           apply (Permutation_in _ (Permutation_sym Hperm)) in Hv.
           destruct (in_all_new_x ranks0 ranks v Hg Hv) as (r & a & Hr & Ha & Hav).
           rewrite <- Hav. exact (Hx r a Hr Ha).
    + apply (IH n' _ _ log Hg Hperm Hfar).
Qed.

End OverlapFacts.

Lemma random_ranks_disjoint : disjoint_ownership random_ranks.
Proof.
  intros coord. unfold owners, random_ranks, owns. simpl.
  destruct (in_subbox (mkvec 0 0 0) (mkvec 5 10 10) coord) eqn:Ea;
    destruct (in_subbox (mkvec 5 0 0) (mkvec 10 10 10) coord) eqn:Eb;
    simpl; try lia.
  apply in_subbox_spec in Ea. apply in_subbox_spec in Eb.
  unfold half_open in *. simpl in *. lra.
Qed.

(** ** Molecule IDs *)

Module StitchFacts.

Import Stitch.

Local Open Scope Z_scope.

Lemma scan_offsets (mc : TopoRank -> Z) (maxmol : Z) (l : list TopoRank) :
  forall acc,
    map (fun '(scan, r) => scan - mc r + maxmol)
        (combine (scan_sum_from acc (map mc l)) l)
    = map (fun i => maxmol + (acc + prefix_total i (map mc l)))
          (seq 0 (length l)).
Proof.
  induction l as [|r l IH]; intros acc; [reflexivity|].
  cbn [map scan_sum_from combine length seq]. f_equal.
  - unfold prefix_total. simpl. lia.
  - rewrite IH, <- seq_shift, map_map. apply map_ext. intros i.
    unfold prefix_total. cbn [map firstn fold_right]. lia.
Qed.

(** Lines 478-486: the offset of a rank is the largest molecule ID of the
    atoms that were there before, over all ranks, plus the number of
    molecules created by the ranks before it. *)
Lemma moloffsets_exclusive_prefix (sys : System) (ranks : list TopoRank) :
  molecule_flag sys = true ->
  moloffsets sys ranks
  = map (fun i => allreduce_max (map local_max ranks)
                  + prefix_total i (map (molcreate sys) ranks))
        (seq 0 (length ranks)).
Proof.
  intros Hflag. unfold moloffsets, scan_sum. rewrite Hflag.
  rewrite scan_offsets. apply map_ext. intros i. lia.
Qed.

Lemma update_length {A : Type} (f : A -> A) (l : list A) :
  forall i, length (update i f l) = length l.
Proof.
  induction l as [|a l IH]; intros [|i]; simpl; auto.
Qed.

Lemma nth_update {A : Type} (f : A -> A) (d : A) (l : list A) :
  forall i j, (i < length l)%nat ->
    nth j (update i f l) d = if Nat.eqb i j then f (nth j l d) else nth j l d.
Proof.
  induction l as [|a l IH]; intros i j Hi; simpl in Hi; [lia|].
  destruct i as [|i]; destruct j as [|j]; simpl; try reflexivity.
  apply IH. lia.
Qed.

(** The loop over the atoms of one molecule rewrites the atoms
    [k + s .. k + s + n - 1] and no other. *)
Lemma member_loop_nth {A : Type} (g : nat -> A -> A) (d : A) (k n : nat) :
  forall s arr j,
    (k + s + n <= length arr)%nat ->
    let arr' := fold_left (fun acc m => update (k + m) (g m) acc) (seq s n) arr in
    length arr' = length arr /\
    nth j arr' d
    = if (k + s <=? j)%nat && (j <? k + s + n)%nat
      then g (j - k)%nat (nth j arr d) else nth j arr d.
Proof.
  induction n as [|n IH]; intros s arr j Hlen; cbn [seq fold_left].
  - split; [reflexivity|].
    destruct (Nat.leb_spec (k + s) j); destruct (Nat.ltb_spec j (k + s + 0));
      simpl; try reflexivity; lia.
  - destruct (IH (S s) (update (k + s) (g s) arr) j) as [Hl Hn].
    { rewrite update_length. lia. }
    cbv zeta in Hl, Hn. rewrite Hl, Hn, update_length. split; [reflexivity|].
    rewrite nth_update by lia.
    destruct (Nat.eqb_spec (k + s) j) as [He|Hne].
    + subst j.
      destruct (Nat.leb_spec (k + S s) (k + s)); [lia|].
      destruct (Nat.leb_spec (k + s) (k + s)); [|lia].
      destruct (Nat.ltb_spec (k + s) (k + s + S n)); [|lia].
      simpl. f_equal. lia.
    + destruct (Nat.leb_spec (k + S s) j); destruct (Nat.ltb_spec j (k + S s + n));
        destruct (Nat.leb_spec (k + s) j); destruct (Nat.ltb_spec j (k + s + S n));
        simpl; try reflexivity; lia.
Qed.

Lemma stitch_atom_molecule (sys : System) (moloffset offset : Z) (m : nat)
    (a : TopoAtom) :
  molecule_flag sys = true ->
  molecule (stitch_atom sys moloffset offset m a) = moloffset + member_id sys m.
Proof.
  intros Hflag. unfold stitch_atom, member_id. rewrite Hflag.
  destruct (moleculeflag (template sys)); destruct (molecular sys); reflexivity.
Qed.

(** The molecules are rewritten from [ilocal] on: what is stored before is
    left as it is. *)
Lemma stitch_loop_before (sys : System) (d : TopoAtom) :
  forall count ilocal moloffset arr j,
    (ilocal + count * natoms (template sys) <= length arr)%nat ->
    (j < ilocal)%nat ->
    length (stitch_loop sys count ilocal moloffset arr) = length arr /\
    nth j (stitch_loop sys count ilocal moloffset arr) d = nth j arr d.
Proof.
  induction count as [|count IH]; intros ilocal moloffset arr j Hlen Hj;
    [split; reflexivity|].
  cbn [stitch_loop].
  set (offset := if tag_present sys then _ else _).
  destruct (member_loop_nth (stitch_atom sys moloffset offset) d ilocal
              (natoms (template sys)) 0 arr j) as [Hl Hn]; [simpl in Hlen; lia|].
  cbv zeta in Hl, Hn.
  match goal with
  | |- context [stitch_loop sys count ?il ?mo ?a] =>
      destruct (IH il mo a j) as [Hl' Hn']; [rewrite Hl; simpl in Hlen; lia|lia|]
  end.
  rewrite Hl', Hn', Hl, Hn. split; [reflexivity|].
  destruct (Nat.leb_spec (ilocal + 0) j); [lia|reflexivity].
Qed.

(** Atom [m] of the [i]-th created molecule after the loop: the body of
    the loop applied to what was stored there, with the offset taken from
    the tag of the first atom of the molecule. *)
Lemma stitch_loop_nth (sys : System) :
  forall count ilocal moloffset arr i m,
    (ilocal + count * natoms (template sys) <= length arr)%nat ->
    (i < count)%nat -> (m < natoms (template sys))%nat ->
    nth (ilocal + i * natoms (template sys) + m)
        (stitch_loop sys count ilocal moloffset arr) no_atom
    = stitch_atom sys
        (if molecule_flag sys then moloffset + Z.of_nat i * id_step sys
         else moloffset)
        (if tag_present sys
         then tag (nth (ilocal + i * natoms (template sys)) arr no_atom) - 1
         else 0)
        m (nth (ilocal + i * natoms (template sys) + m) arr no_atom).
Proof.
  induction count as [|count IH]; intros ilocal moloffset arr i m Hlen Hi Hm;
    [lia|].
  cbn [stitch_loop].
  set (offset := if tag_present sys then _ else _).
  set (moloffset' := if molecule_flag sys then _ else _).
  set (arr' := fold_left _ _ arr).
  assert (Hinner : forall j,
            length arr' = length arr /\
            nth j arr' no_atom
            = if (ilocal + 0 <=? j)%nat && (j <? ilocal + 0 + natoms (template sys))%nat
              then stitch_atom sys moloffset offset (j - ilocal) (nth j arr no_atom)
              else nth j arr no_atom).
  { intros j. apply (member_loop_nth (stitch_atom sys moloffset offset)).
    simpl in Hlen. lia. }
  destruct (Hinner 0%nat) as [Hl _].
  destruct i as [|i].
  - destruct (stitch_loop_before sys no_atom count (ilocal + natoms (template sys))
                moloffset' arr' (ilocal + 0 * natoms (template sys) + m))
      as [_ Hn]; [rewrite Hl; simpl in Hlen; lia|lia|].
    rewrite Hn. destruct (Hinner (ilocal + 0 * natoms (template sys) + m)%nat)
      as [_ Hn'].
    rewrite Hn'.
    destruct (Nat.leb_spec (ilocal + 0) (ilocal + 0 * natoms (template sys) + m));
      [|lia].
    destruct (Nat.ltb_spec (ilocal + 0 * natoms (template sys) + m)
                (ilocal + 0 + natoms (template sys))); [|lia].
    simpl andb. cbv iota.
    replace (ilocal + 0 * natoms (template sys) + m - ilocal)%nat with m by lia.
    replace (ilocal + 0 * natoms (template sys))%nat with ilocal by lia.
    subst offset. f_equal.
    destruct (molecule_flag sys); [simpl; lia|reflexivity].
  - replace (ilocal + S i * natoms (template sys) + m)%nat
      with (ilocal + natoms (template sys) + i * natoms (template sys) + m)%nat
      by lia.
    replace (ilocal + S i * natoms (template sys))%nat
      with (ilocal + natoms (template sys) + i * natoms (template sys))%nat
      by lia.
    rewrite IH; [|rewrite Hl; simpl in Hlen; lia|lia|exact Hm].
    destruct (Hinner (ilocal + natoms (template sys)
                      + i * natoms (template sys) + m)%nat) as [_ Hn1].
    destruct (Hinner (ilocal + natoms (template sys)
                      + i * natoms (template sys))%nat) as [_ Hn2].
    rewrite Hn1, Hn2.
    destruct (Nat.ltb_spec (ilocal + natoms (template sys)
                            + i * natoms (template sys) + m)
                (ilocal + 0 + natoms (template sys))); [lia|].
    destruct (Nat.ltb_spec (ilocal + natoms (template sys)
                            + i * natoms (template sys))
                (ilocal + 0 + natoms (template sys))); [lia|].
    rewrite !andb_false_r. f_equal.
    subst moloffset'. unfold id_step.
    destruct (molecule_flag sys); [|reflexivity].
    destruct (moleculeflag (template sys)); lia.
Qed.

(** The ID written on atom [m] of the [i]-th created molecule. *)
Lemma stitch_loop_molecule (sys : System) :
  molecule_flag sys = true ->
  forall count ilocal moloffset arr i m,
    (ilocal + count * natoms (template sys) <= length arr)%nat ->
    (i < count)%nat -> (m < natoms (template sys))%nat ->
    molecule (nth (ilocal + i * natoms (template sys) + m)
                  (stitch_loop sys count ilocal moloffset arr) no_atom)
    = moloffset + Z.of_nat i * id_step sys + member_id sys m.
Proof.
  intros Hflag count ilocal moloffset arr i m Hlen Hi Hm.
  rewrite stitch_loop_nth by assumption.
  rewrite stitch_atom_molecule, Hflag by exact Hflag. reflexivity.
Qed.

Lemma stitch_atom_tag (sys : System) (moloffset offset : Z) (m : nat)
    (a : TopoAtom) :
  tag (stitch_atom sys moloffset offset m a) = tag a.
Proof.
  unfold stitch_atom.
  destruct (molecule_flag sys); [destruct (moleculeflag (template sys))|];
    destruct (molecular sys); reflexivity.
Qed.

Lemma stitch_atom_bonds (sys : System) (moloffset offset : Z) (m : nat)
    (a : TopoAtom) :
  molecular sys = MOLECULAR -> bondflag (template sys) = true ->
  num_bond (stitch_atom sys moloffset offset m a) = num_bond a /\
  bond_atom (stitch_atom sys moloffset offset m a)
  = shift_first (num_bond a) offset (bond_atom a).
Proof.
  intros Hm Hb. unfold stitch_atom. rewrite Hm.
  destruct (molecule_flag sys); [destruct (moleculeflag (template sys))|];
    simpl; rewrite Hb; split; reflexivity.
Qed.

Lemma molcreate_nonneg (sys : System) (r : TopoRank) :
  (0 < natoms (template sys))%nat ->
  (nlocal_previous r <= length (topo r))%nat -> 0 <= molcreate sys r.
Proof.
  intros Hn H. unfold molcreate. apply Z.quot_pos; lia.
Qed.

Lemma molcreate_fits (sys : System) (r : TopoRank) :
  (0 < natoms (template sys))%nat ->
  (nlocal_previous r <= length (topo r))%nat ->
  (nlocal_previous r + Z.to_nat (molcreate sys r) * natoms (template sys)
   <= length (topo r))%nat.
Proof.
  intros Hn Hp. pose proof (molcreate_nonneg sys r Hn Hp) as H0.
  unfold molcreate in *.
  set (a := Z.of_nat (length (topo r)) - Z.of_nat (nlocal_previous r)) in *.
  set (b := Z.of_nat (natoms (template sys))) in *.
  assert (Hq : b * (Z.quot a b) <= a).
  { rewrite Z.quot_div_nonneg by lia. apply Z.mul_div_le. lia. }
  apply Nat2Z.inj_le. rewrite Nat2Z.inj_add, Nat2Z.inj_mul, Z2Nat.id by exact H0.
  fold b. lia.
Qed.

(** The IDs one rank writes, from its offset. *)
Lemma stitch_rank_ids (sys : System) (moloffset : Z) (r : TopoRank) (i m : nat) :
  molecule_flag sys = true ->
  (0 < natoms (template sys))%nat ->
  (nlocal_previous r <= length (topo r))%nat ->
  (i < Z.to_nat (molcreate sys r))%nat -> (m < natoms (template sys))%nat ->
  created_id sys r (stitch_rank sys moloffset r) i m
  = moloffset + Z.of_nat i * id_step sys + member_id sys m.
Proof.
  intros Hflag Hn Hp Hi Hm. unfold created_id, stitch_rank.
  apply stitch_loop_molecule; try assumption.
  apply molcreate_fits; assumption.
Qed.

Lemma nth_map_default {A B : Type} (f : A -> B) (l : list A) (q : nat)
    (d : A) (d' : B) :
  (q < length l)%nat -> nth q (map f l) d' = f (nth q l d).
Proof.
  intros Hq. rewrite (nth_indep _ d' (f d)) by (rewrite length_map; exact Hq).
  apply map_nth.
Qed.

Lemma scan_sum_from_length (l : list Z) : forall acc,
  length (scan_sum_from acc l) = length l.
Proof. induction l as [|a l IH]; intros acc; simpl; auto. Qed.

Lemma moloffsets_length (sys : System) (ranks : list TopoRank) :
  length (moloffsets sys ranks) = length ranks.
Proof.
  unfold moloffsets, scan_sum. destruct (molecule_flag sys).
  - rewrite length_map, length_combine, scan_sum_from_length, length_map. lia.
  - apply length_map.
Qed.

Lemma nth_stitch (sys : System) (ranks : list TopoRank) (q : nat) :
  (q < length ranks)%nat ->
  nth q (stitch sys ranks) []
  = stitch_rank sys (nth q (moloffsets sys ranks) 0) (nth q ranks no_rank).
Proof.
  intros Hq. unfold stitch.
  rewrite (nth_map_default _ _ q (0, no_rank))
    by (rewrite length_combine, moloffsets_length; lia).
  rewrite combine_nth by apply moloffsets_length. reflexivity.
Qed.

Lemma nth_moloffsets (sys : System) (ranks : list TopoRank) (q : nat) :
  molecule_flag sys = true -> (q < length ranks)%nat ->
  nth q (moloffsets sys ranks) 0
  = allreduce_max (map local_max ranks)
    + prefix_total q (map (molcreate sys) ranks).
Proof.
  intros Hflag Hq. rewrite moloffsets_exclusive_prefix by exact Hflag.
  rewrite (nth_map_default _ _ q 0%nat) by (rewrite length_seq; exact Hq).
  rewrite seq_nth by exact Hq. reflexivity.
Qed.

Lemma prefix_total_succ (l : list Z) : forall q,
  (q < length l)%nat -> prefix_total (S q) l = prefix_total q l + nth q l 0.
Proof.
  unfold prefix_total. induction l as [|a l IH]; intros q Hq; simpl in Hq; [lia|].
  destruct q as [|q].
  - simpl. destruct l; simpl; lia.
  - change (firstn (S (S q)) (a :: l)) with (a :: firstn (S q) l).
    change (firstn (S q) (a :: l)) with (a :: firstn q l).
    cbn [fold_right nth]. rewrite IH by lia. lia.
Qed.

Lemma prefix_total_nonneg (l : list Z) :
  Forall (fun c => 0 <= c) l -> forall q, 0 <= prefix_total q l.
Proof.
  unfold prefix_total. induction 1 as [|a l Ha _ IH]; intros [|q]; simpl; try lia.
  specialize (IH q). lia.
Qed.

Lemma prefix_total_mono (l : list Z) :
  Forall (fun c => 0 <= c) l ->
  forall q1 q2, (q1 < q2)%nat -> (q2 <= length l)%nat ->
    prefix_total q1 l + nth q1 l 0 <= prefix_total q2 l.
Proof.
  intros Hl q1 q2 Hlt. induction Hlt as [|q2 Hlt IH]; intros Hlen.
  - rewrite prefix_total_succ by lia. lia.
  - rewrite (prefix_total_succ l q2) by lia.
    assert (0 <= nth q2 l 0).
    { rewrite Forall_forall in Hl. apply Hl, nth_In. lia. }
    specialize (IH ltac:(lia)). lia.
Qed.

(** When the template carries no molecule IDs of its own, every created
    molecule receives one ID: it is larger than every ID that was there
    before, and two molecules, of one rank or of two, receive different
    IDs. *)
Lemma single_id_molecules_distinct (sys : System) (ranks : list TopoRank) :
  molecule_flag sys = true -> moleculeflag (template sys) = false ->
  (0 < natoms (template sys))%nat ->
  Forall (fun r => (nlocal_previous r <= length (topo r))%nat) ranks ->
  forall q1 i1 m1 q2 i2 m2,
    (q1 < length ranks)%nat -> (i1 < created_count sys ranks q1)%nat ->
    (m1 < natoms (template sys))%nat ->
    (q2 < length ranks)%nat -> (i2 < created_count sys ranks q2)%nat ->
    (m2 < natoms (template sys))%nat ->
    allreduce_max (map local_max ranks) < stitched_id sys ranks q1 i1 m1 /\
    ((q1, i1) <> (q2, i2) ->
     stitched_id sys ranks q1 i1 m1 <> stitched_id sys ranks q2 i2 m2) /\
    ((q1, i1) = (q2, i2) ->
     stitched_id sys ranks q1 i1 m1 = stitched_id sys ranks q2 i2 m2).
Proof.
  intros Hflag Hone Hn Hprev.
  assert (Hmc : Forall (fun c => 0 <= c) (map (molcreate sys) ranks)).
  { apply Forall_map. eapply Forall_impl; [|exact Hprev].
    intros r Hr. apply molcreate_nonneg; assumption. }
  assert (Hid : forall q i m,
            (q < length ranks)%nat -> (i < created_count sys ranks q)%nat ->
            (m < natoms (template sys))%nat ->
            stitched_id sys ranks q i m
            = allreduce_max (map local_max ranks)
              + prefix_total q (map (molcreate sys) ranks) + Z.of_nat i + 1).
  { intros q i m Hq Hi Hm. unfold stitched_id. rewrite nth_stitch by exact Hq.
    rewrite stitch_rank_ids; try assumption.
    - rewrite nth_moloffsets by assumption.
      unfold id_step, member_id. rewrite Hone. lia.
    - rewrite Forall_forall in Hprev. apply Hprev, nth_In, Hq. }
  assert (Hcount : forall q, (q < length ranks)%nat ->
            Z.of_nat (created_count sys ranks q)
            = nth q (map (molcreate sys) ranks) 0).
  { intros q Hq. unfold created_count.
    rewrite (nth_map_default _ _ q no_rank) by exact Hq.
    apply Z2Nat.id, molcreate_nonneg; [exact Hn|].
    rewrite Forall_forall in Hprev. apply Hprev, nth_In, Hq. }
  intros q1 i1 m1 q2 i2 m2 Hq1 Hi1 Hm1 Hq2 Hi2 Hm2.
  rewrite (Hid q1 i1 m1), (Hid q2 i2 m2) by assumption.
  pose proof (prefix_total_nonneg _ Hmc q1) as Hp1.
  split; [lia|]. split.
  - intros Hne.
    destruct (Nat.lt_trichotomy q1 q2) as [Hlt|[Heq|Hgt]].
    + pose proof (prefix_total_mono _ Hmc q1 q2 Hlt
                    ltac:(rewrite length_map; lia)) as Hmono.
      rewrite <- (Hcount q1 Hq1) in Hmono. lia.
    + subst q2. assert (i1 <> i2) by congruence. lia.
    + pose proof (prefix_total_mono _ Hmc q2 q1 Hgt
                    ltac:(rewrite length_map; lia)) as Hmono.
      rewrite <- (Hcount q2 Hq2) in Hmono. lia.
  - intros Heq. inversion Heq; subst. reflexivity.
Qed.

(** X23, the rebasing of the bonds: when the atoms of a created molecule carry
    consecutive tags in template order and its bond partners are template
    indices 1..natoms, every partner written by the loop is the tag of an
    atom of the same molecule. *)
Lemma bond_partners_in_molecule (sys : System) (moloffset : Z) (r : TopoRank)
    (i m : nat) :
  molecular sys = MOLECULAR -> bondflag (template sys) = true ->
  tag_present sys = true ->
  (0 < natoms (template sys))%nat ->
  (nlocal_previous r <= length (topo r))%nat ->
  (i < Z.to_nat (molcreate sys r))%nat -> (m < natoms (template sys))%nat ->
  let base := (nlocal_previous r + i * natoms (template sys))%nat in
  let before := nth (base + m) (topo r) no_atom in
  let after := stitch_rank sys moloffset r in
  (forall m', (m' < natoms (template sys))%nat ->
     tag (nth (base + m') (topo r) no_atom)
     = tag (nth base (topo r) no_atom) + Z.of_nat m') ->
  (forall p, In p (firstn (num_bond before) (bond_atom before)) ->
     1 <= p <= Z.of_nat (natoms (template sys))) ->
  forall p, In p (firstn (num_bond before) (bond_atom (nth (base + m) after no_atom))) ->
    exists m', (m' < natoms (template sys))%nat /\
               p = tag (nth (base + m') after no_atom).
Proof.
  intros Hmol Hbond Htag Hn Hp Hi Hm base before after Htags Hlocal p Hin.
  pose proof (molcreate_fits sys r Hn Hp) as Hfit.
  assert (Hnth : forall m', (m' < natoms (template sys))%nat ->
            nth (base + m') after no_atom
            = stitch_atom sys
                (if molecule_flag sys then moloffset + Z.of_nat i * id_step sys
                 else moloffset)
                (tag (nth base (topo r) no_atom) - 1) m'
                (nth (base + m') (topo r) no_atom)).
  { intros m' Hm'. subst after base. unfold stitch_rank.
    rewrite stitch_loop_nth by assumption. rewrite Htag. reflexivity. }
  rewrite (Hnth m Hm) in Hin.
  destruct (stitch_atom_bonds sys
              (if molecule_flag sys then moloffset + Z.of_nat i * id_step sys
               else moloffset)
              (tag (nth base (topo r) no_atom) - 1) m before Hmol Hbond)
    as [_ Hb].
  fold before in Hin. rewrite Hb in Hin. unfold shift_first in Hin.
  rewrite firstn_app, firstn_map, firstn_firstn, Nat.min_id in Hin.
  rewrite length_map, length_firstn in Hin.
  apply in_app_or in Hin. destruct Hin as [Hin|Hin].
  - apply in_map_iff in Hin. destruct Hin as (p0 & Hp0 & Hin0).
    specialize (Hlocal p0 Hin0).
    exists (Z.to_nat (p0 - 1)). split; [lia|].
    rewrite (Hnth (Z.to_nat (p0 - 1))) by lia.
    rewrite stitch_atom_tag, Htags by lia. lia.
  - exfalso.
    destruct (Nat.le_ge_cases (num_bond before) (length (bond_atom before)))
      as [Hle|Hge].
    + rewrite Nat.min_l, Nat.sub_diag in Hin by exact Hle. simpl in Hin. exact Hin.
    + rewrite Nat.min_r in Hin by exact Hge.
      rewrite skipn_all2 in Hin by exact Hge.
      rewrite firstn_nil in Hin. exact Hin.
Qed.

End StitchFacts.

(** C3 at a template with two molecule IDs on two ranks: the offsets are
    the exclusive prefix sums of the molecule counts, 0 and 1; rank 0
    assigns the IDs 1 and 2 and rank 1 the IDs 2 and 3, so the ID 2 is
    given to atoms of two different molecules, while the bond partners are
    rebased to tags of the same molecule. *)
Theorem C3_offsets_collide_across_ranks :
  Stitch.moloffsets two_id_system two_id_ranks = [0; 1]%Z /\
  map (map Stitch.molecule) (Stitch.stitch two_id_system two_id_ranks)
  = [[1; 2]; [2; 3]]%Z /\
  map (map Stitch.bond_atom) (Stitch.stitch two_id_system two_id_ranks)
  = [[[2]; [1]]; [[4]; [3]]]%Z /\
  ~ NoDup (concat (map (map Stitch.molecule)
                       (Stitch.stitch two_id_system two_id_ranks))).
Proof.
  split; [reflexivity|]. split; [reflexivity|]. split; [reflexivity|].
  vm_compute. intros H.
  inversion H as [|? ? _ H1]; subst.
  inversion H1 as [|? ? Hnot _]; subst.
  apply Hnot. left. reflexivity.
Qed.

(** ** What the lattice passes create *)

Section LatticeCreation.

Context {ext : Collaborators}.

Variables (P : Params) (dom : Domain) (lat : Lattice).

Hypothesis atom_mode : mode P = ATOM.

Lemma insert_at_atom t x r :
  insert_at P dom t x r = create_atom t x r.
Proof. unfold insert_at. rewrite atom_mode. reflexivity. Qed.

Lemma run_sites_insert_atoms flag l : forall r,
  exists r', run_sites P dom lat INSERT flag l r = Ok r' /\
    atoms r' = atoms r ++ map (site_atom P lat) (filter (site_passes P dom lat r) l).
Proof.
  unfold run_sites. induction l as [|s l IH]; intros r; cbn [for_each filter map].
  - exists r. rewrite app_nil_r. split; reflexivity.
  - rewrite site_body_cases. destruct (site_passes P dom lat r s) eqn:Hp.
    + cbn [act bind]. rewrite insert_at_atom.
      set (r1 := set_nlatt _ _).
      destruct (IH r1) as (r' & Hrun & Hat). exists r'. split; [exact Hrun|].
      rewrite Hat.
      assert (Hfil : filter (site_passes P dom lat r1) l
                     = filter (site_passes P dom lat r) l).
      { apply filter_ext. intros s'. apply site_passes_frame.
        subst r1. unfold same_frame. simpl. tauto. }
      rewrite Hfil. subst r1. cbn [map]. simpl atoms.
      rewrite <- app_assoc. reflexivity.
    + cbn [bind]. apply IH.
Qed.

Lemma flagged_cons_set f flag s l :
  (f =? 0)%Z = false -> flagged (f :: flag) (s :: l) = s :: flagged flag l.
Proof. intros H. unfold flagged. simpl. rewrite H. reflexivity. Qed.

Lemma flagged_cons_clear flag s l :
  flagged (0%Z :: flag) (s :: l) = flagged flag l.
Proof. reflexivity. Qed.

Lemma run_sites_selected_atoms flag l : forall r n0,
  (0 <= n0)%Z -> nlatt r = n0 ->
  (n0 + passing P dom lat r l <= Z.of_nat (length flag))%Z ->
  (Z.of_nat (length flag) <= Int32.MAXSMALLINT)%Z ->
  exists r', run_sites P dom lat INSERT_SELECTED flag l r = Ok r' /\
    atoms r' = atoms r ++
      map (site_atom P lat)
          (flagged (skipn (Z.to_nat n0) flag) (filter (site_passes P dom lat r) l)).
Proof.
  unfold run_sites. induction l as [|s l IH]; intros r n0 H0 Hn Hlen Hmax;
    cbn [for_each filter].
  - exists r. unfold flagged. simpl. rewrite app_nil_r. split; reflexivity.
  - rewrite passing_cons in Hlen. rewrite site_body_cases.
    pose proof (passing_nonneg P dom lat r l) as Hpl.
    destruct (site_passes P dom lat r s) eqn:Hp.
    + unfold act, read_flag. rewrite Hn.
      destruct (Z.ltb_spec n0 0) as [Hneg|_]; [lia|].
      destruct (nth_error flag (Z.to_nat n0)) as [f|] eqn:Hnth.
      2:{ apply nth_error_None in Hnth. lia. }
      cbn [bind]. rewrite insert_at_atom.
      assert (Hskip : skipn (Z.to_nat n0) flag
                      = f :: skipn (Z.to_nat (n0 + 1)) flag).
      { replace (Z.to_nat (n0 + 1)) with (S (Z.to_nat n0)) by lia.
        clear - Hnth. revert flag Hnth.
        induction (Z.to_nat n0) as [|k IHk]; intros [|a fl] H; simpl in *;
          try discriminate.
        - inversion H; reflexivity.
        - apply IHk, H. }
      rewrite Hskip.
      set (r1 := if negb (f =? 0)%Z then create_atom _ _ r else r).
      assert (Hr1 : same_frame r r1 /\ nlatt r1 = n0).
      { subst r1. destruct (negb (f =? 0)%Z);
          (split; [unfold same_frame; simpl; tauto|exact Hn]). }
      destruct Hr1 as [Hf1 Hn1].
      assert (Hf1' : same_frame r (set_nlatt r1 (Int32.incr (nlatt r1))))
        by (unfold same_frame in *; simpl; exact Hf1).
      destruct (IH (set_nlatt r1 (Int32.incr (nlatt r1))) (n0 + 1)%Z)
        as (r' & Hrun & Hat).
      * lia.
      * simpl. rewrite Hn1. unfold Int32.incr, Int32.add. apply wrap_small.
        unfold Int32.in_range, Int32.MINSMALLINT, Int32.MAXSMALLINT in *. lia.
      * rewrite (passing_frame P dom lat r _ l Hf1'). lia.
      * exact Hmax.
      * exists r'. split; [exact Hrun|]. rewrite Hat.
        assert (Hfil : filter (site_passes P dom lat
                                 (set_nlatt r1 (Int32.incr (nlatt r1)))) l
                       = filter (site_passes P dom lat r) l).
        { apply filter_ext. intros s'. apply site_passes_frame, Hf1'. }
        rewrite Hfil. simpl atoms. subst r1.
        destruct (Z.eqb_spec f 0) as [Hz|Hnz]; cbn [negb].
        -- subst f. rewrite flagged_cons_clear. reflexivity.
        -- rewrite flagged_cons_set by (apply Z.eqb_neq; exact Hnz).
           simpl atoms. cbn [map]. rewrite <- app_assoc. reflexivity.
    + destruct (IH r n0 H0 Hn ltac:(lia) Hmax) as (r' & Hrun & Hat).
      exists r'. split; [exact Hrun|exact Hat].
Qed.

End LatticeCreation.

Section AddLatticeCreation.

Context {ext : Collaborators}.

Variables (P : Params) (dom : Domain) (lat : Lattice).

(** The rank the COUNT pass leaves: the loop bounds are set, the counter
    holds the owned sites, nothing is created. *)
Lemma count_sites_owned (r : Rank) :
  (Z.of_nat (length (owned_sites P dom lat r)) <= Int32.MAXSMALLINT)%Z ->
  exists rc, count_sites P dom lat r = Ok rc /\
    same_frame (set_lattice_bounds P dom r) rc /\
    atoms rc = atoms r /\
    nlatt rc = Z.of_nat (length (owned_sites P dom lat r)) /\
    nlatt_overflow rc = 0%Z.
Proof.
  intros Hmax.
  destruct (count_sites_spec P dom lat r) as (rc & Hrc & Hn & Hov & Hat & _).
  exists rc. split; [exact Hrc|].
  assert (Hf : same_frame (set_lattice_bounds P dom r) rc).
  { unfold count_sites in Hrc. rewrite loop_lattice_sites in Hrc.
    destruct (run_sites_nlatt P dom lat COUNT [] _ _ rc 0%Z Hrc eq_refl) as [Hf _].
    unfold same_frame in *. simpl in Hf. exact Hf. }
  assert (Hp : passing P dom lat rc (sites lat rc)
               = Z.of_nat (length (owned_sites P dom lat r))).
  { unfold owned_sites. rewrite (sites_frame lat _ rc Hf).
    rewrite (passing_frame P dom lat _ rc _ Hf). reflexivity. }
  rewrite Hp in Hn, Hov.
  split; [exact Hf|]. split; [exact Hat|]. split.
  - rewrite Hn. apply wrap_small.
    unfold Int32.in_range, Int32.MINSMALLINT, Int32.MAXSMALLINT in *. lia.
  - rewrite Hov. destruct (Z.gtb_spec (Z.of_nat (length (owned_sites P dom lat r)))
                             Int32.MAXSMALLINT); [lia|reflexivity].
Qed.

Lemma set_lattice_bounds_sub (r : Rank) :
  sublo (set_lattice_bounds P dom r) = sublo r /\
  subhi (set_lattice_bounds P dom r) = subhi r /\
  proc (set_lattice_bounds P dom r) = proc r.
Proof.
  unfold set_lattice_bounds. destruct (lattice_extent P dom (proc r)).
  repeat split.
Qed.

End AddLatticeCreation.

(** ** The enumeration of the lattice sites *)

Lemma In_Zrange (lo hi k : Z) : In k (Zrange lo hi) <-> (lo <= k <= hi)%Z.
Proof.
  unfold Zrange. rewrite in_map_iff. split.
  - intros (n & Hk & Hin). apply in_seq in Hin. lia.
  - intros Hk. exists (Z.to_nat (k - lo)). split; [lia|]. apply in_seq. lia.
Qed.

(** ** The search box of [add_lattice] *)

Section SearchBox.

Context {ext : Collaborators}.

Local Open Scope Q_scope.

Lemma narrow_axis_sound (rmin rmax lo hi : Q) :
  lo <= hi ->
  (lo <= fst (narrow_axis rmin rmax lo hi) /\
   fst (narrow_axis rmin rmax lo hi) <= snd (narrow_axis rmin rmax lo hi) /\
   snd (narrow_axis rmin rmax lo hi) <= hi) /\
  (forall x, lo <= x <= hi -> rmin <= x <= rmax ->
             fst (narrow_axis rmin rmax lo hi) <= x /\
             x <= snd (narrow_axis rmin rmax lo hi)).
Proof.
  intros Hlh. unfold narrow_axis, Qgtb. cbn [fst snd].
  destruct (Qltb lo rmin) eqn:E1; [apply Qltb_lt in E1|apply Qltb_ge in E1];
    (destruct (Qltb hi rmin) eqn:E2; [apply Qltb_lt in E2|apply Qltb_ge in E2]);
    (destruct (Qltb rmax hi) eqn:E3; [apply Qltb_lt in E3|apply Qltb_ge in E3]);
    match goal with
    | |- context [Qltb rmax ?l] =>
        destruct (Qltb rmax l) eqn:E4; [apply Qltb_lt in E4|apply Qltb_ge in E4]
    | _ => idtac
    end;
    (split; [lra|intros x Hx Hr; lra]).
Qed.

(** X4: the narrowing of the search box by the extent of the region stays
    inside the box of the rank, keeps lo <= hi on every axis, and loses no
    point of that box that lies in the extent of the region; without a
    bounded region no point of the box is lost at all. *)
Theorem lattice_search_box_sound :
  forall (P : Params) (dom : Domain) (p : Proc),
    (forall a, along a (fst (rank_box dom p)) <= along a (snd (rank_box dom p))) ->
    let lo := fst (lattice_search_box P dom p) in
    let hi := snd (lattice_search_box P dom p) in
    (forall a, along a (fst (rank_box dom p)) <= along a lo /\
               along a lo <= along a hi /\
               along a hi <= along a (snd (rank_box dom p))) /\
    (forall x, inside (fst (rank_box dom p)) (snd (rank_box dom p)) x ->
       (forall rg, style P = REGION -> region P = Some rg -> bboxflag rg = true ->
                   inside (extent_lo rg) (extent_hi rg) x) ->
       inside lo hi x).
Proof.
  intros P dom p Hbox lo hi. subst lo hi.
  unfold lattice_search_box. fold (rank_box dom p).
  destruct (rank_box dom p) as [blo bhi]. cbn [fst snd] in *.
  assert (Hsame :
    (forall a, along a blo <= along a blo /\ along a blo <= along a bhi /\
               along a bhi <= along a bhi) /\
    (forall x, inside blo bhi x ->
       (forall rg, style P = REGION -> region P = Some rg -> bboxflag rg = true ->
                   inside (extent_lo rg) (extent_hi rg) x) ->
       inside blo bhi x)).
  { split; [intros a; specialize (Hbox a); lra|intros x Hx _; exact Hx]. }
  destruct (style P) eqn:Hs; try exact Hsame.
  destruct (region P) as [rg|] eqn:Hr; try exact Hsame.
  destruct (bboxflag rg) eqn:Hb; try exact Hsame.
  clear Hsame.
  pose proof (narrow_axis_sound (c0 (extent_lo rg)) (c0 (extent_hi rg))
                (c0 blo) (c0 bhi) (Hbox AxisX)) as [H0 K0].
  pose proof (narrow_axis_sound (c1 (extent_lo rg)) (c1 (extent_hi rg))
                (c1 blo) (c1 bhi) (Hbox AxisY)) as [H1 K1].
  pose proof (narrow_axis_sound (c2 (extent_lo rg)) (c2 (extent_hi rg))
                (c2 blo) (c2 bhi) (Hbox AxisZ)) as [H2 K2].
  destruct (narrow_axis (c0 (extent_lo rg)) (c0 (extent_hi rg)) (c0 blo) (c0 bhi))
    as [lo0 hi0].
  destruct (narrow_axis (c1 (extent_lo rg)) (c1 (extent_hi rg)) (c1 blo) (c1 bhi))
    as [lo1 hi1].
  destruct (narrow_axis (c2 (extent_lo rg)) (c2 (extent_hi rg)) (c2 blo) (c2 bhi))
    as [lo2 hi2].
  cbn [fst snd] in *. split.
  - intros a. destruct a; simpl; [exact H0|exact H1|exact H2].
  - intros x Hx Hrg. specialize (Hrg rg eq_refl eq_refl Hb).
    intros a. specialize (Hx a). specialize (Hrg a).
    destruct a; simpl in *;
      [exact (K0 _ Hx Hrg)|exact (K1 _ Hx Hrg)|exact (K2 _ Hx Hrg)].
Qed.

End SearchBox.

(** ** The periodic seam *)

Section Seam.

Context {ext : Collaborators}.

Local Open Scope Q_scope.

Lemma stored_lo_shifted (a : Axis) (sty : Style) (dom : Domain) (p : Proc) :
  is_lattice_style sty = true -> periodic_along a dom = true ->
  lo_proc_along a p = true ->
  along a (fst (set_bounds sty dom p))
  = along a (fst (domain_sub dom p)) - along a (epsilon dom).
Proof.
  intros Hs Hp Hlo. unfold set_bounds, shift_axis. rewrite Hs.
  destruct (domain_sub dom p) as [lo hi].
  destruct a; simpl in *; rewrite Hp, Hlo;
    repeat match goal with |- context [if ?b then _ else _] => destruct b end;
    reflexivity.
Qed.

Lemma stored_hi_shifted (a : Axis) (sty : Style) (dom : Domain) (p : Proc) :
  is_lattice_style sty = true -> periodic_along a dom = true ->
  hi_proc_along a p = true ->
  along a (snd (set_bounds sty dom p))
  = along a (snd (domain_sub dom p)) - 2 * along a (epsilon dom).
Proof.
  intros Hs Hp Hhi. unfold set_bounds, shift_axis. rewrite Hs.
  destruct (domain_sub dom p) as [lo hi].
  destruct a; simpl in *; rewrite Hp, Hhi;
    repeat match goal with |- context [if ?b then _ else _] => destruct b end;
    reflexivity.
Qed.

(** X5: on a periodic axis of a lattice style, a position that lies no
    more than epsilon below the lower face of the box passes the lower
    bound of the first proc of the axis, and its periodic image at the upper
    face is owned by no last proc of the axis: of two images on the seam the
    lower one can be created and the upper one is not. *)
Theorem periodic_seam_images :
  forall (sty : Style) (dom : Domain) (plo phi : Proc) (a : Axis)
         (old : list AtomRec) (c c' : vec3),
    is_lattice_style sty = true -> periodic_along a dom = true ->
    0 <= along a (prd dom) ->
    lo_proc_along a plo = true -> hi_proc_along a phi = true ->
    along a (fst (domain_sub dom plo)) - along a (epsilon dom) <= along a c ->
    along a c' == along a c + (along a (snd (domain_sub dom phi))
                               - along a (fst (domain_sub dom plo))) ->
    along a (sublo (setup_rank sty dom plo old)) <= along a c /\
    owns (setup_rank sty dom phi old) c' = false.
Proof.
  intros sty dom plo phi a old c c' Hs Hp Hprd Hlo Hhi Hc Himg.
  pose proof (stored_lo_shifted a sty dom plo Hs Hp Hlo) as Hl.
  pose proof (stored_hi_shifted a sty dom phi Hs Hp Hhi) as Hh.
  pose proof (epsilon_nonneg a dom Hprd) as He.
  unfold setup_rank.
  destruct (set_bounds sty dom plo) as [lo1 hi1].
  destruct (set_bounds sty dom phi) as [lo2 hi2].
  cbn [fst snd sublo subhi] in *. split.
  - rewrite Hl. exact Hc.
  - unfold owns. cbn [sublo subhi].
    destruct (in_subbox lo2 hi2 c') eqn:E; [|reflexivity].
    apply in_subbox_spec in E. apply (half_open_along a) in E.
    rewrite Hh in E. lra.
Qed.

End Seam.

(** ** The box of [add_random] *)

Section RandomBox.

Context {ext : Collaborators}.

Local Open Scope Q_scope.

Lemma MAX_spec (a b : Q) : a <= MAX a b /\ b <= MAX a b /\ (MAX a b = a \/ MAX a b = b).
Proof.
  unfold MAX, Qgtb. destruct (Qltb b a) eqn:E;
    [apply Qltb_lt in E|apply Qltb_ge in E]; repeat split; auto; lra.
Qed.

Lemma MIN_spec (a b : Q) : MIN a b <= a /\ MIN a b <= b /\ (MIN a b = a \/ MIN a b = b).
Proof.
  unfold MIN. destruct (Qltb a b) eqn:E;
    [apply Qltb_lt in E|apply Qltb_ge in E]; repeat split; auto; lra.
Qed.

Lemma any_gt_false (lo hi : vec3) :
  Qgtb (c0 lo) (c0 hi) || Qgtb (c1 lo) (c1 hi) || Qgtb (c2 lo) (c2 hi) = false
  <-> forall a, along a lo <= along a hi.
Proof.
  unfold Qgtb. rewrite !orb_false_iff, !Qltb_ge. split.
  - intros [[H0 H1] H2] a. destruct a; assumption.
  - intros H. repeat split; [apply (H AxisX)|apply (H AxisY)|apply (H AxisZ)].
Qed.

(** X6: add_random finds a box to draw from exactly when some point of the
    box of the domain lies in the extent of the region (any point, without a
    bounded region); the box it finds has lo <= hi on every axis, lies in the
    box of the domain and in the extent of the region, and zmid is the middle
    of the domain along z, the region not being looked at. *)
Theorem random_box_overlap :
  forall (P : Params) (dom : Domain),
    (forall lo hi zmid, random_box P dom = Ok (lo, hi, zmid) ->
       (forall a, along a (fst (draw_box dom)) <= along a lo /\
                  along a lo <= along a hi /\
                  along a hi <= along a (snd (draw_box dom))) /\
       in_extent P lo /\ in_extent P hi /\
       zmid = c2 (fst (draw_box dom))
              + (1 # 2) * (c2 (snd (draw_box dom)) - c2 (fst (draw_box dom)))) /\
    ((exists x, inside (fst (draw_box dom)) (snd (draw_box dom)) x /\ in_extent P x)
     <-> exists b, random_box P dom = Ok b) /\
    (forall m, random_box P dom = Fatal m ->
               m = "No overlap of box and region for create_atoms"%string).
Proof.
  intros P dom. unfold random_box, in_extent. fold (draw_box dom).
  destruct (draw_box dom) as [dlo dhi]. cbn [fst snd].
  set (zm := c2 dlo + (1 # 2) * (c2 dhi - c2 dlo)).
  assert (Hplain :
    (forall lo hi zmid,
       (if Qgtb (c0 dlo) (c0 dhi) || Qgtb (c1 dlo) (c1 dhi) || Qgtb (c2 dlo) (c2 dhi)
        then Fatal "No overlap of box and region for create_atoms"
        else Ok (dlo, dhi, zm)) = Ok (lo, hi, zmid) ->
       (forall a, along a dlo <= along a lo /\ along a lo <= along a hi /\
                  along a hi <= along a dhi) /\ zmid = zm /\ lo = dlo /\ hi = dhi) /\
    ((exists x, inside dlo dhi x)
     <-> exists b,
        (if Qgtb (c0 dlo) (c0 dhi) || Qgtb (c1 dlo) (c1 dhi) || Qgtb (c2 dlo) (c2 dhi)
         then Fatal "No overlap of box and region for create_atoms"
         else Ok (dlo, dhi, zm)) = Ok b)).
  { destruct (Qgtb (c0 dlo) (c0 dhi) || Qgtb (c1 dlo) (c1 dhi)
              || Qgtb (c2 dlo) (c2 dhi)) eqn:E.
    - split; [discriminate|]. split.
      + intros (x & Hx). exfalso.
        assert (F : Qgtb (c0 dlo) (c0 dhi) || Qgtb (c1 dlo) (c1 dhi)
                    || Qgtb (c2 dlo) (c2 dhi) = false).
        { apply (proj2 (any_gt_false dlo dhi)). intros a. specialize (Hx a). lra. }
        congruence.
      + intros (b & Hb). discriminate.
    - assert (E' := proj1 (any_gt_false dlo dhi) E). clear E. rename E' into E.
      split.
      + intros lo hi zmid H. inversion H; subst. repeat split; try reflexivity.
        * lra.
        * apply E.
        * lra.
      + split; [eauto|]. intros _. exists dlo. intros a. specialize (E a). lra. }
  destruct (region P) as [rg|] eqn:Hr.
  2:{ destruct Hplain as [Hok Hiff]. split; [|split].
      - intros lo hi zmid H. destruct (Hok lo hi zmid H) as (Hb & Hz & -> & ->).
        split; [exact Hb|]. split; [intros rg' Hrg'; discriminate|].
        split; [intros rg' Hrg'; discriminate|exact Hz].
      - rewrite <- Hiff. split.
        + intros (x & Hx & _). eauto.
        + intros (x & Hx). exists x. split; [exact Hx|].
          intros rg' Hrg'. discriminate.
      - intros m. destruct (_ || _); intros H; inversion H; reflexivity. }
  destruct (bboxflag rg) eqn:Hb.
  2:{ destruct Hplain as [Hok Hiff]. split; [|split].
      - intros lo hi zmid H. destruct (Hok lo hi zmid H) as (Hbx & Hz & -> & ->).
        split; [exact Hbx|].
        split; [intros rg' Hrg' Hb'; inversion Hrg'; subst; congruence|].
        split; [intros rg' Hrg' Hb'; inversion Hrg'; subst; congruence|exact Hz].
      - rewrite <- Hiff. split.
        + intros (x & Hx & _). eauto.
        + intros (x & Hx). exists x. split; [exact Hx|].
          intros rg' Hrg' Hb'. inversion Hrg'; subst; congruence.
      - intros m. destruct (_ || _); intros H; inversion H; reflexivity. }
  clear Hplain. cbv beta iota.
  assert (Hlo : forall a,
            along a dlo
            <= along a (mkvec (MAX (c0 dlo) (c0 (extent_lo rg)))
                              (MAX (c1 dlo) (c1 (extent_lo rg)))
                              (MAX (c2 dlo) (c2 (extent_lo rg)))) /\
            along a (extent_lo rg)
            <= along a (mkvec (MAX (c0 dlo) (c0 (extent_lo rg)))
                              (MAX (c1 dlo) (c1 (extent_lo rg)))
                              (MAX (c2 dlo) (c2 (extent_lo rg))))).
  { intros a. destruct a; simpl; split; apply MAX_spec. }
  assert (Hhi : forall a,
            along a (mkvec (MIN (c0 dhi) (c0 (extent_hi rg)))
                           (MIN (c1 dhi) (c1 (extent_hi rg)))
                           (MIN (c2 dhi) (c2 (extent_hi rg))))
            <= along a dhi /\
            along a (mkvec (MIN (c0 dhi) (c0 (extent_hi rg)))
                           (MIN (c1 dhi) (c1 (extent_hi rg)))
                           (MIN (c2 dhi) (c2 (extent_hi rg))))
            <= along a (extent_hi rg)).
  { intros a. destruct a; simpl; split; apply MIN_spec. }
  assert (Hbetween : forall a v,
            along a dlo <= v -> along a (extent_lo rg) <= v ->
            v <= along a dhi -> v <= along a (extent_hi rg) ->
            along a (mkvec (MAX (c0 dlo) (c0 (extent_lo rg)))
                           (MAX (c1 dlo) (c1 (extent_lo rg)))
                           (MAX (c2 dlo) (c2 (extent_lo rg))))
            <= along a (mkvec (MIN (c0 dhi) (c0 (extent_hi rg)))
                              (MIN (c1 dhi) (c1 (extent_hi rg)))
                              (MIN (c2 dhi) (c2 (extent_hi rg))))).
  { intros a v H1 H2 H3 H4. destruct a; simpl in *.
    - destruct (MAX_spec (c0 dlo) (c0 (extent_lo rg))) as (_ & _ & [-> | ->]);
        destruct (MIN_spec (c0 dhi) (c0 (extent_hi rg))) as (_ & _ & [-> | ->]); lra.
    - destruct (MAX_spec (c1 dlo) (c1 (extent_lo rg))) as (_ & _ & [-> | ->]);
        destruct (MIN_spec (c1 dhi) (c1 (extent_hi rg))) as (_ & _ & [-> | ->]); lra.
    - destruct (MAX_spec (c2 dlo) (c2 (extent_lo rg))) as (_ & _ & [-> | ->]);
        destruct (MIN_spec (c2 dhi) (c2 (extent_hi rg))) as (_ & _ & [-> | ->]); lra. }
  set (lo' := mkvec (MAX (c0 dlo) (c0 (extent_lo rg)))
                    (MAX (c1 dlo) (c1 (extent_lo rg)))
                    (MAX (c2 dlo) (c2 (extent_lo rg)))) in *.
  set (hi' := mkvec (MIN (c0 dhi) (c0 (extent_hi rg)))
                    (MIN (c1 dhi) (c1 (extent_hi rg)))
                    (MIN (c2 dhi) (c2 (extent_hi rg)))) in *.
  destruct (Qgtb (c0 lo') (c0 hi') || Qgtb (c1 lo') (c1 hi')
            || Qgtb (c2 lo') (c2 hi')) eqn:E.
  - split; [discriminate|]. split; [|intros m H; inversion H; reflexivity].
    split; [|intros (b & Hbb); discriminate].
    intros (x & Hx & Hext). exfalso.
    specialize (Hext rg eq_refl Hb).
    assert (F : Qgtb (c0 lo') (c0 hi') || Qgtb (c1 lo') (c1 hi')
                || Qgtb (c2 lo') (c2 hi') = false).
    { apply (proj2 (any_gt_false lo' hi')). intros a.
      apply (Hbetween a (along a x)); try apply Hx; apply Hext. }
    congruence.
  - assert (E' := proj1 (any_gt_false lo' hi') E). clear E. rename E' into E.
    split; [|split; [|discriminate]].
    + intros lo hi zmid H. inversion H; subst lo hi zmid.
      split; [intros a; specialize (Hlo a); specialize (Hhi a); specialize (E a);
              repeat split; lra|].
      split; [|split; [|reflexivity]].
      * intros rg' Hrg' _ a. inversion Hrg'; subst rg'.
        specialize (Hlo a); specialize (Hhi a); specialize (E a). lra.
      * intros rg' Hrg' _ a. inversion Hrg'; subst rg'.
        specialize (Hlo a); specialize (Hhi a); specialize (E a). lra.
    + split; [eauto|]. intros _. exists lo'. split.
      * intros a. specialize (Hlo a); specialize (Hhi a); specialize (E a). lra.
      * intros rg' Hrg' _ a. inversion Hrg'; subst rg'.
        specialize (Hlo a); specialize (Hhi a); specialize (E a). lra.
Qed.

End RandomBox.

(** ** What [add_random] creates *)

Section RandomCreation.

Context {ext : Collaborators}.

Variables (P : Params) (dom : Domain).

Local Open Scope Q_scope.

Lemma try_place_accepts (box : vec3 * vec3 * Q) (ranks : list Rank) :
  forall fuel n x coord n',
    try_place P dom box ranks fuel n = (Some (x, coord), n') ->
    acceptable P dom box x /\
    coord = (if triclinic dom then x2lamda x else x) /\
    (n < n' <= n + 3 * fuel)%nat.
Proof.
  induction fuel as [|fuel IH]; intros n x coord n' H; [discriminate|].
  cbn [try_place] in H.
  set (x0 := draw_position P dom box n) in *.
  destruct (match region P with Some _ => negb (region_match x0) | None => false end)
    eqn:Hreg.
  { destruct (IH _ _ _ _ H) as (Ha & Hc & Hn).
    split; [exact Ha|split; [exact Hc|lia]]. }
  destruct (varflag P && (vartest P x0 =? 0)%Z) eqn:Hvar.
  { destruct (IH _ _ _ _ H) as (Ha & Hc & Hn).
    split; [exact Ha|split; [exact Hc|lia]]. }
  destruct (triclinic dom && outside_subbox (boxlo_lamda dom) (boxhi_lamda dom)
              (if triclinic dom then x2lamda x0 else x0)) eqn:Htri.
  { destruct (IH _ _ _ _ H) as (Ha & Hc & Hn).
    split; [exact Ha|split; [exact Hc|lia]]. }
  destruct (overlapflag P && negb (allreduce_max (map (reject P x0) ranks) =? 0)%Z).
  { destruct (IH _ _ _ _ H) as (Ha & Hc & Hn).
    split; [exact Ha|split; [exact Hc|lia]]. }
  inversion H; subst x coord n'; clear H.
  split; [|split; [reflexivity|lia]].
  unfold acceptable. split; [exists n; reflexivity|]. split; [|split].
  - intros Hsome. destruct (region P); [|congruence].
    apply negb_false_iff in Hreg. exact Hreg.
  - intros Hv. rewrite Hv in Hvar. cbn [andb] in Hvar.
    apply Z.eqb_neq. exact Hvar.
  - intros Ht. rewrite Ht in Htri. cbn [andb] in Htri.
    apply outside_subbox_spec. exact Htri.
Qed.

Lemma try_place_fails (box : vec3 * vec3 * Q) (ranks : list Rank) :
  forall fuel n n',
    try_place P dom box ranks fuel n = (None, n') -> n' = (n + 3 * fuel)%nat.
Proof.
  induction fuel as [|fuel IH]; intros n n' H.
  - inversion H. lia.
  - cbn [try_place] in H.
    repeat match type of H with
           | (if ?b then _ else _) = _ =>
               destruct b; [apply IH in H; lia|]
           end.
    discriminate.
Qed.

Hypothesis atom_mode : mode P = ATOM.

Lemma place_atom (x coord : vec3) (r : Rank) :
  place P dom x coord r
  = if owns r coord then create_atom (ntype P) x r else r.
Proof. unfold place, owns, insert_at. rewrite atom_mode. reflexivity. Qed.

(** A placement adds nothing but the accepted position. *)
Lemma place_all_subset (x coord : vec3) (l0 l : list Rank) :
  Forall2 grown l0 l ->
  Forall2 grown l0 (map (place P dom x coord) l) /\
  (forall v, In v (all_new_x l0 (map (place P dom x coord) l)) ->
             In v (all_new_x l0 l) \/ v = x).
Proof.
  induction 1 as [|r0 r l0 l Hg Hl IH].
  - split; [constructor|intros v []].
  - destruct IH as [IHg IHin]. cbn [map]. rewrite !all_new_x_cons.
    destruct Hg as (Hlo & Hhi & nw & Hnw).
    rewrite place_atom. destruct (owns r coord).
    + assert (Hat : atoms (create_atom (ntype P) x r)
                    = atoms r0 ++ (nw ++ [mkAtom (ntype P) x])).
      { simpl. rewrite Hnw, app_assoc. reflexivity. }
      split.
      * constructor; [|exact IHg]. unfold grown. simpl. eauto.
      * intros v Hv. rewrite (new_x_grown r0 _ _ Hat) in Hv.
        rewrite (new_x_grown r0 r nw Hnw).
        rewrite map_app in Hv. simpl in Hv.
        rewrite !in_app_iff in Hv. rewrite in_app_iff.
        destruct Hv as [[Hv|[Hv|[]]]|Hv]; auto.
        destruct (IHin v Hv); auto.
    + split.
      * constructor; [|exact IHg]. unfold grown. eauto.
      * intros v Hv. rewrite in_app_iff in *.
        destruct Hv as [Hv|Hv]; auto. destruct (IHin v Hv); auto.
Qed.

(** The rank that owns the position creates it. *)
Lemma place_one (x coord : vec3) (l0 l : list Rank) :
  Forall2 grown l0 l -> length (owners l0 coord) = 1%nat ->
  Permutation (all_new_x l0 (map (place P dom x coord) l)) (x :: all_new_x l0 l).
Proof.
  induction 1 as [|r0 r l0 l Hg Hl IH]; intros Hone; [discriminate|].
  unfold owners in Hone. cbn [filter] in Hone. fold (owners l0 coord) in Hone.
  cbn [map]. rewrite !all_new_x_cons.
  destruct (owns r0 coord) eqn:E.
  - assert (Hnil : owners l0 coord = []).
    { destruct (owners l0 coord); [reflexivity|discriminate]. }
    rewrite (place_none P dom x coord l0 l Hl Hnil).
    rewrite place_atom, (grown_owns r0 r coord Hg), E.
    destruct Hg as (Hlo & Hhi & nw & Hnw).
    assert (Hat : atoms (create_atom (ntype P) x r)
                  = atoms r0 ++ (nw ++ [mkAtom (ntype P) x])).
    { simpl. rewrite Hnw, app_assoc. reflexivity. }
    rewrite (new_x_grown r0 _ _ Hat), (new_x_grown r0 r nw Hnw).
    rewrite map_app. simpl. rewrite <- app_assoc. simpl.
    apply Permutation_sym, Permutation_middle.
  - rewrite place_atom, (grown_owns r0 r coord Hg), E.
    eapply Permutation_trans.
    + apply Permutation_app_head. apply IH. exact Hone.
    + apply Permutation_sym, Permutation_middle.
Qed.

End RandomCreation.

Section RandomLoops.

Context {ext : Collaborators}.

Variables (P : Params) (dom : Domain) (box : vec3 * vec3 * Q).

Hypothesis atom_mode : mode P = ATOM.

Lemma grown_start (ranks : list Rank) : Forall2 grown ranks ranks.
Proof. induction ranks; constructor; [apply grown_refl|assumption]. Qed.

Lemma random_loop_acceptable (ranks0 : list Rank) :
  forall count n ninsert ranks,
    Forall2 grown ranks0 ranks ->
    (forall v, In v (all_new_x ranks0 ranks) -> acceptable P dom box v) ->
    Forall2 grown ranks0 (fst (random_loop P dom box count n ninsert ranks)) /\
    (forall v, In v (all_new_x ranks0
                       (fst (random_loop P dom box count n ninsert ranks))) ->
               acceptable P dom box v).
Proof.
  induction count as [|count IH]; intros n ninsert ranks Hg Hacc.
  - split; assumption.
  - cbn [random_loop].
    destruct (try_place P dom box ranks (Z.to_nat (maxtry P)) n)
      as [[[x coord]|] n'] eqn:Htry.
    + destruct (try_place_accepts P dom box ranks _ _ _ _ _ Htry) as (Hx & _).
      destruct (place_all_subset P dom atom_mode x coord ranks0 ranks Hg)
        as [Hg' Hin].
      apply IH; [exact Hg'|].
      intros v Hv. destruct (Hin v Hv) as [Hold| ->]; auto.
    + apply IH; assumption.
Qed.

Lemma random_loop_counts (ranks0 : list Rank) :
  disjoint_ownership ranks0 ->
  forall count n ninsert ranks,
    Forall2 grown ranks0 ranks ->
    (0 <= ninsert)%Z -> (ninsert + Z.of_nat count <= Int32.MAXSMALLINT)%Z ->
    (ninsert <= snd (random_loop P dom box count n ninsert ranks)
     <= ninsert + Z.of_nat count)%Z /\
    (Z.of_nat (length (all_new_x ranks0
                         (fst (random_loop P dom box count n ninsert ranks))))
     - Z.of_nat (length (all_new_x ranks0 ranks))
     <= snd (random_loop P dom box count n ninsert ranks) - ninsert)%Z.
Proof.
  intros Hdis.
  induction count as [|count IH]; intros n ninsert ranks Hg H0 Hmax.
  - simpl. lia.
  - cbn [random_loop].
    destruct (try_place P dom box ranks (Z.to_nat (maxtry P)) n)
      as [[[x coord]|] n'] eqn:Htry.
    + assert (Hincr : Int32.incr ninsert = (ninsert + 1)%Z).
      { unfold Int32.incr, Int32.add. apply wrap_small.
        unfold Int32.in_range, Int32.MINSMALLINT, Int32.MAXSMALLINT in *. lia. }
      rewrite Hincr.
      destruct (place_all P dom x coord ranks0 ranks atom_mode Hg (Hdis coord))
        as [Hg' Hnew].
      destruct (IH n' (ninsert + 1)%Z _ Hg' ltac:(lia) ltac:(lia)) as [Hb Hc].
      assert (Hlen : (Z.of_nat (length (all_new_x ranks0
                                          (map (place P dom x coord) ranks)))
                      <= Z.of_nat (length (all_new_x ranks0 ranks)) + 1)%Z).
      { destruct Hnew as [Heq|Hperm].
        - rewrite Heq. lia.
        - rewrite (Permutation_length Hperm). cbn [length]. lia. }
      split; lia.
    + destruct (IH n' ninsert ranks Hg H0 ltac:(lia)) as [Hb Hc]. split; lia.
Qed.

Lemma random_loop_exact (ranks0 : list Rank) :
  triclinic dom = true ->
  (forall coord, half_open (boxlo_lamda dom) (boxhi_lamda dom) coord ->
                 length (owners ranks0 coord) = 1%nat) ->
  forall count n ninsert ranks,
    Forall2 grown ranks0 ranks ->
    (0 <= ninsert)%Z -> (ninsert + Z.of_nat count <= Int32.MAXSMALLINT)%Z ->
    (Z.of_nat (length (all_new_x ranks0
                         (fst (random_loop P dom box count n ninsert ranks))))
     - Z.of_nat (length (all_new_x ranks0 ranks))
     = snd (random_loop P dom box count n ninsert ranks) - ninsert)%Z.
Proof.
  intros Htri Htile.
  induction count as [|count IH]; intros n ninsert ranks Hg H0 Hmax.
  - simpl. lia.
  - cbn [random_loop].
    destruct (try_place P dom box ranks (Z.to_nat (maxtry P)) n)
      as [[[x coord]|] n'] eqn:Htry.
    + assert (Hincr : Int32.incr ninsert = (ninsert + 1)%Z).
      { unfold Int32.incr, Int32.add. apply wrap_small.
        unfold Int32.in_range, Int32.MINSMALLINT, Int32.MAXSMALLINT in *. lia. }
      rewrite Hincr.
      destruct (try_place_accepts P dom box ranks _ _ _ _ _ Htry)
        as ((_ & _ & _ & Hin) & Hcoord & _).
      rewrite Htri in Hcoord. subst coord.
      pose proof (place_one P dom atom_mode x (x2lamda x) ranks0 ranks Hg
                    (Htile _ (Hin Htri))) as Hperm.
      destruct (place_all_subset P dom atom_mode x (x2lamda x) ranks0 ranks Hg)
        as [Hg' _].
      pose proof (IH n' (ninsert + 1)%Z _ Hg' ltac:(lia) ltac:(lia)) as Hc.
      rewrite (Permutation_length Hperm) in Hc. cbn [length] in Hc. lia.
    + apply IH; [exact Hg|exact H0|lia].
Qed.

End RandomLoops.

Section RandomResults.

Context {ext : Collaborators}.

Local Open Scope Q_scope.

Lemma random_box_ordered (P : Params) (dom : Domain) (lo hi : vec3) (zmid : Q) :
  random_box P dom = Ok (lo, hi, zmid) -> forall a, along a lo <= along a hi.
Proof.
  unfold random_box.
  destruct (if triclinic dom then _ else _) as [dlo dhi].
  match goal with
  | |- context [let (_, _) := ?p in _] => destruct p as [lo' hi']
  end.
  destruct (Qgtb (c0 lo') (c0 hi') || Qgtb (c1 lo') (c1 hi')
            || Qgtb (c2 lo') (c2 hi')) eqn:E; [discriminate|].
  intros H. inversion H; subst. exact (proj1 (any_gt_false _ _) E).
Qed.

Lemma draw_between (lo hi u : Q) :
  lo <= hi -> 0 <= u <= 1 -> lo <= lo + u * (hi - lo) <= hi.
Proof. intros H Hu. nra. Qed.

(** X7: in atom mode every atom add_random creates, on any rank, sits at
    a position that was drawn, that the region (when one is given) matches,
    at which the variable (when one is given) is not zero and, in a sheared
    box, whose fractional coordinates lie in the box; with draws in [0, 1] it
    lies between the bounds of the drawing box along x and y, and along z it
    lies between them in 3d and at zmid in 2d.  The atoms that were there
    before are kept. *)
Theorem random_atoms_acceptable :
  forall (P : Params) (dom : Domain) (ranks : list Rank) (lo hi : vec3) (zmid : Q),
    mode P = ATOM ->
    random_box P dom = Ok (lo, hi, zmid) ->
    exists out,
      add_random P dom ranks = Ok out /\
      Forall2 grown ranks (out_ranks out) /\
      (forall v, In v (all_new_x ranks (out_ranks out)) ->
         acceptable P dom (lo, hi, zmid) v /\
         ((forall s n, 0 <= park_uniform s n <= 1) ->
          (c0 lo <= c0 v <= c0 hi) /\ (c1 lo <= c1 v <= c1 hi) /\
          (dimension dom = 2%Z -> c2 v = zmid) /\
          (dimension dom <> 2%Z -> c2 lo <= c2 v <= c2 hi))).
Proof.
  intros P dom ranks lo hi zmid Hmode Hbox.
  unfold add_random. rewrite Hbox. cbn [bind].
  destruct (random_loop_acceptable P dom (lo, hi, zmid) Hmode ranks
              (Z.to_nat (nrandom P)) 30%nat 0%Z ranks (grown_start ranks))
    as [Hg Hacc].
  { rewrite all_new_x_start. intros v []. }
  destruct (random_loop P dom (lo, hi, zmid) (Z.to_nat (nrandom P)) 30 0%Z ranks)
    as [ranks' ninsert].
  cbn [fst] in *. eexists. split; [reflexivity|]. cbn [out_ranks].
  split; [exact Hg|]. intros v Hv. specialize (Hacc v Hv).
  split; [exact Hacc|]. intros Hu.
  destruct Hacc as ((n & ->) & _).
  pose proof (random_box_ordered P dom lo hi zmid Hbox) as Hord.
  pose proof (Hord AxisX) as H0. pose proof (Hord AxisY) as H1.
  pose proof (Hord AxisZ) as H2. simpl in H0, H1, H2.
  unfold draw_position. cbn [c0 c1 c2].
  split; [apply draw_between; [exact H0|apply Hu]|].
  split; [apply draw_between; [exact H1|apply Hu]|].
  split.
  - intros Hd. rewrite Hd. reflexivity.
  - intros Hd. apply Z.eqb_neq in Hd. rewrite Hd.
    apply draw_between; [exact H2|apply Hu].
Qed.

(** X8: in atom mode, no position being owned by two ranks and nrandom
    being a non-negative int, add_random ends with 0 <= ninsert <= nrandom,
    and all ranks together have created at most ninsert atoms. *)
Theorem random_counts :
  forall (P : Params) (dom : Domain) (ranks : list Rank) (box : vec3 * vec3 * Q),
    mode P = ATOM ->
    disjoint_ownership ranks ->
    (0 <= nrandom P <= Int32.MAXSMALLINT)%Z ->
    random_box P dom = Ok box ->
    exists out,
      add_random P dom ranks = Ok out /\
      (0 <= out_ninsert out <= nrandom P)%Z /\
      (Z.of_nat (length (all_new_x ranks (out_ranks out))) <= out_ninsert out)%Z.
Proof.
  intros P dom ranks box Hmode Hdis Hn Hbox.
  unfold add_random. rewrite Hbox. cbn [bind].
  destruct (random_loop_counts P dom box Hmode ranks Hdis
              (Z.to_nat (nrandom P)) 30%nat 0%Z ranks (grown_start ranks))
    as [Hb Hc]; [lia|lia|].
  rewrite all_new_x_start in Hc.
  destruct (random_loop P dom box (Z.to_nat (nrandom P)) 30 0%Z ranks)
    as [ranks' ninsert].
  cbn [fst snd length] in *. eexists. split; [reflexivity|].
  cbn [out_ranks out_ninsert]. split; lia.
Qed.

(** X9: in a sheared box whose fractional box the sub-boxes of the ranks
    tile, in atom mode, every position that passes the tests is created by
    exactly one rank: all ranks together create exactly ninsert atoms. *)
Theorem random_triclinic_exact :
  forall (P : Params) (dom : Domain) (ranks : list Rank) (box : vec3 * vec3 * Q),
    mode P = ATOM ->
    triclinic dom = true ->
    (forall coord, half_open (boxlo_lamda dom) (boxhi_lamda dom) coord ->
                   length (owners ranks coord) = 1%nat) ->
    (0 <= nrandom P <= Int32.MAXSMALLINT)%Z ->
    random_box P dom = Ok box ->
    exists out,
      add_random P dom ranks = Ok out /\
      Z.of_nat (length (all_new_x ranks (out_ranks out))) = out_ninsert out.
Proof.
  intros P dom ranks box Hmode Htri Htile Hn Hbox.
  unfold add_random. rewrite Hbox. cbn [bind].
  pose proof (random_loop_exact P dom box Hmode ranks Htri Htile
                (Z.to_nat (nrandom P)) 30%nat 0%Z ranks (grown_start ranks)
                ltac:(lia) ltac:(lia)) as Hc.
  rewrite all_new_x_start in Hc.
  destruct (random_loop P dom box (Z.to_nat (nrandom P)) 30 0%Z ranks)
    as [ranks' ninsert].
  cbn [fst snd length] in *. eexists. split; [reflexivity|].
  cbn [out_ranks out_ninsert]. lia.
Qed.

End RandomResults.

(** ** Molecules *)

Section MoleculeCreation.

Context {ext : Collaborators}.

Variables (P : Params) (dom : Domain).

Lemma insert_at_appends (t : Z) (x : vec3) (r : Rank) :
  exists nw, atoms (insert_at P dom t x r) = atoms r ++ nw /\
             length nw = atoms_per_insert P.
Proof.
  unfold insert_at, atoms_per_insert, create_atom, add_molecule.
  destruct (mode P).
  - eexists. split; reflexivity.
  - destruct (next_quat P dom r) as [q n]. eexists. split; [reflexivity|].
    rewrite length_map, length_seq. reflexivity.
Qed.

Lemma run_sites_insert_appends (lat : Lattice) (flag : list Z) (l : list Site) :
  forall r, exists r' nw,
    run_sites P dom lat INSERT flag l r = Ok r' /\
    atoms r' = atoms r ++ nw /\
    length nw
    = (atoms_per_insert P * length (filter (site_passes P dom lat r) l))%nat.
Proof.
  unfold run_sites. induction l as [|s l IH]; intros r; cbn [for_each filter].
  - exists r, []. rewrite app_nil_r. split; [reflexivity|]. split; [reflexivity|].
    simpl. lia.
  - rewrite site_body_cases. destruct (site_passes P dom lat r s) eqn:Hp.
    + cbn [act bind].
      set (r1 := set_nlatt _ _).
      assert (Hf : same_frame r r1).
      { subst r1. pose proof (insert_at_frame P dom
                                (nth (s_m s) (basistype P) 0%Z) (site_x lat s) r) as H.
        unfold same_frame in *. simpl. exact H. }
      destruct (insert_at_appends (nth (s_m s) (basistype P) 0%Z) (site_x lat s) r)
        as (nw1 & Hat1 & Hlen1).
      destruct (IH r1) as (r' & nw & Hrun & Hat & Hlen).
      exists r', (nw1 ++ nw). split; [exact Hrun|]. split.
      * rewrite Hat. subst r1. simpl atoms. rewrite Hat1, <- app_assoc. reflexivity.
      * assert (Hfil : filter (site_passes P dom lat r1) l
                       = filter (site_passes P dom lat r) l).
        { apply filter_ext. intros s'. apply site_passes_frame, Hf. }
        rewrite length_app, Hlen, Hlen1, Hfil. cbn [length]. lia.
    + cbn [bind]. apply IH.
Qed.

End MoleculeCreation.

(** ** The stitching of created molecules *)

Module StitchResults.

Import Stitch StitchFacts.

Local Open Scope Z_scope.

Lemma update_map {A B : Type} (g : A -> B) (f : A -> A) (l : list A) :
  (forall a, g (f a) = g a) -> forall i, map g (update i f l) = map g l.
Proof.
  intros H. induction l as [|a l IH]; intros [|i]; simpl; try reflexivity.
  - rewrite H. reflexivity.
  - rewrite IH. reflexivity.
Qed.

Lemma member_loop_map {A B : Type} (g : A -> B) (f : nat -> A -> A) (k : nat)
    (ms : list nat) :
  (forall m a, g (f m a) = g a) ->
  forall arr,
    map g (fold_left (fun acc m => update (k + m) (f m) acc) ms arr) = map g arr.
Proof.
  intros H. induction ms as [|m ms IH]; intros arr; simpl; [reflexivity|].
  rewrite IH. apply update_map. apply H.
Qed.

Lemma stitch_loop_map {B : Type} (g : TopoAtom -> B) (sys : System) :
  (forall moloffset offset m a, g (stitch_atom sys moloffset offset m a) = g a) ->
  forall count ilocal moloffset arr,
    map g (stitch_loop sys count ilocal moloffset arr) = map g arr.
Proof.
  intros H. induction count as [|count IH]; intros ilocal moloffset arr;
    cbn [stitch_loop]; [reflexivity|].
  rewrite IH. apply member_loop_map. intros m a. apply H.
Qed.

Lemma stitch_atom_keeps_molecule (sys : System) (moloffset offset : Z) (m : nat)
    (a : TopoAtom) :
  molecule_flag sys = false ->
  molecule (stitch_atom sys moloffset offset m a) = molecule a.
Proof.
  intros H. unfold stitch_atom. rewrite H.
  destruct (molecular sys); reflexivity.
Qed.

(** X13: the stitching loop of a rank changes neither the number of
    atoms, nor any atom that was there before the command, nor any atom ID;
    when the atom style has no molecule IDs it changes none. *)
Theorem stitch_keeps_old_atoms :
  forall (sys : System) (moloffset : Z) (r : TopoRank),
    (0 < natoms (template sys))%nat ->
    (nlocal_previous r <= length (topo r))%nat ->
    let after := stitch_rank sys moloffset r in
    length after = length (topo r) /\
    firstn (nlocal_previous r) after = firstn (nlocal_previous r) (topo r) /\
    map tag after = map tag (topo r) /\
    (molecule_flag sys = false -> map molecule after = map molecule (topo r)).
Proof.
  intros sys moloffset r Hn Hp after. subst after. unfold stitch_rank.
  pose proof (molcreate_fits sys r Hn Hp) as Hfit.
  assert (Hlen : length (stitch_loop sys (Z.to_nat (molcreate sys r))
                           (nlocal_previous r) moloffset (topo r))
                 = length (topo r)).
  { rewrite <- (length_map tag), stitch_loop_map, length_map; [reflexivity|].
    intros. apply stitch_atom_tag. }
  split; [exact Hlen|]. split; [|split].
  - apply (nth_ext _ _ no_atom no_atom).
    + rewrite !length_firstn, Hlen. reflexivity.
    + intros j Hj. rewrite length_firstn, Hlen in Hj.
      rewrite !nth_firstn.
      destruct (Nat.ltb_spec j (nlocal_previous r)) as [Hlt|Hge]; [|reflexivity].
      apply (stitch_loop_before sys no_atom); [exact Hfit|exact Hlt].
  - apply stitch_loop_map. intros. apply stitch_atom_tag.
  - intros Hflag. apply stitch_loop_map. intros.
    apply stitch_atom_keeps_molecule, Hflag.
Qed.

End StitchResults.

(** ** The arguments of the command *)

Module CommandFacts.

Import Command.

Local Open Scope Z_scope.

Ltac crunch H :=
  repeat (cbn [bind got] in H; unfold illegal in H;
          match type of H with
          | bind (got ?r) _ = _ => destruct r eqn:?; try discriminate
          | bind ?r _ = _ => destruct r eqn:?; try discriminate
          | (if ?b then _ else _) = _ => destruct b eqn:?; try discriminate
          | match ?x with _ => _ end = _ => destruct x eqn:?; try discriminate
          end).

Lemma arg_in (args : list String.string) (i : nat) (s : String.string) :
  arg args i = Ok s -> In s args.
Proof.
  unfold arg. destruct (nth_error args i) eqn:E; [|discriminate].
  intros H. inversion H; subst. eapply nth_error_In, E.
Qed.

Lemma arg_read (args : list String.string) (i : nat) :
  (i < length args)%nat -> exists s, arg args i = Ok s.
Proof.
  intros H. unfold arg. destruct (nth_error args i) eqn:E; [eauto|].
  apply nth_error_None in E. lia.
Qed.

Ltac crunch_read H :=
  repeat (cbn [bind got] in H; unfold illegal in H;
          match type of H with
          | bind (arg ?a ?j) _ = _ =>
              let E := fresh "Er" in
              destruct (arg_read a j) as [? E];
              [repeat match goal with
                      | H' : (_ <? _)%nat = false |- _ => apply Nat.ltb_ge in H'
                      end; lia
              |rewrite E in H]
          | bind (got ?r) _ = _ => destruct r eqn:?; try discriminate
          | bind ?r _ = _ => destruct r eqn:?; try discriminate
          | (if ?b then _ else _) = _ => destruct b eqn:?; try discriminate
          | match ?x with _ => _ end = _ => destruct x eqn:?; try discriminate
          end).

Lemma Forall_update_const {A : Type} (Q : A -> Prop) (v : A) (l : list A) :
  Q v -> Forall Q l -> forall i, Forall Q (Stitch.update i (fun _ => v) l).
Proof.
  intros Hv Hl. induction Hl as [|a l Ha Hl IH]; intros [|i]; simpl;
    constructor; auto.
Qed.

Section Turns.

Context {ext : Collaborators} {env : Setup}.

Variables (me : Z) (dom : Domain) (lat : Lattice) (args : list String.string).

Lemma defaults_settled (P : Params) (tpl : Template) :
  settled lat args (set_defaults lat P) (default_locals tpl).
Proof.
  constructor; cbn; try discriminate; try tauto; try reflexivity.
  - apply repeat_length.
  - apply Forall_forall. intros t Ht. left. eapply repeat_spec, Ht.
  - intros [H|[H|H]]; discriminate.
Qed.

Ltac keyword_given E :=
  match type of E with
  | (?kw =? _)%string = true =>
      apply String.eqb_eq in E; subst kw
  end.

Ltac frame_and_advance :=
  split; [repeat split; reflexivity|];
  repeat match goal with
         | H : (_ <? _)%nat = false |- _ => apply Nat.ltb_ge in H
         end; lia.

Lemma keyword_settled (iarg : nat) (P : Params) (L : Locals)
    (P' : Params) (L' : Locals) (iarg' : nat) :
  settled lat args P L ->
  keyword me dom lat args iarg (P, L) = Ok (P', L', iarg') ->
  settled lat args P' L' /\ same_style P P' /\
  (iarg < iarg' <= length args)%nat.
Proof.
  intros Hinv H. unfold keyword in H.
  destruct (arg args iarg) as [kw| |] eqn:Ekw; cbn [bind] in H;
    try discriminate.
  pose proof (arg_in _ _ _ Ekw) as Hkw.
  destruct (kw =? "basis")%string eqn:E1.
  { keyword_given E1. crunch H. inversion H; subst; clear H.
    split; [|frame_and_advance].
    destruct Hinv. unfold store in *.
    match goal with
    | H : (if ?b then _ else _) = Ok _ |- _ =>
        destruct b; [discriminate|inversion H; subst; clear H]
    end.
    repeat match goal with
           | H : (_ || _) = false |- _ => apply orb_false_elim in H; destruct H
           end.
    constructor; cbn; auto.
    - rewrite StitchFacts.update_length. assumption.
    - apply Forall_update_const; [right; lia|assumption]. }
  destruct (kw =? "remap")%string eqn:E2.
  { keyword_given E2. crunch H. inversion H; subst; clear H.
    split; [|frame_and_advance]. destruct Hinv. constructor; cbn; auto. }
  destruct (kw =? "mol")%string eqn:E3.
  { keyword_given E3. crunch H. inversion H; subst; clear H.
    split; [|frame_and_advance]. destruct Hinv.
    constructor; cbn; auto;
      match goal with
      | |- context [if ?b then _ else _] => destruct b; cbn; auto
      end. }
  destruct (kw =? "units")%string eqn:E4.
  { keyword_given E4. crunch H; inversion H; subst; clear H;
      (split; [|frame_and_advance]); destruct Hinv; constructor; cbn; auto;
      intros; congruence. }
  destruct (kw =? "var")%string eqn:E5.
  { keyword_given E5. crunch H; inversion H; subst; clear H;
      (split; [|frame_and_advance]); destruct Hinv; constructor; cbn; auto;
      intros; congruence. }
  destruct (kw =? "set")%string eqn:E6.
  { keyword_given E6. crunch H; inversion H; subst; clear H;
      (split; [|frame_and_advance]); destruct Hinv; constructor; cbn; auto. }
  destruct (kw =? "rotate")%string eqn:E7.
  { keyword_given E7. crunch H. inversion H; subst; clear H.
    split; [|frame_and_advance]. destruct Hinv. constructor; cbn; auto. }
  destruct (kw =? "ratio")%string eqn:E8.
  { keyword_given E8. crunch H. inversion H; subst; clear H.
    split; [|frame_and_advance]. destruct Hinv.
    repeat match goal with
           | H : (_ || _) = false |- _ => apply orb_false_elim in H; destruct H
           end.
    constructor; cbn; auto; try discriminate.
    intros _. split; [|lia]. split.
    - apply Qleb_gt. assumption.
    - unfold Qgtb in *. apply Qltb_ge. assumption. }
  destruct (kw =? "subset")%string eqn:E9.
  { keyword_given E9. crunch H. inversion H; subst; clear H.
    split; [|frame_and_advance]. destruct Hinv.
    repeat match goal with
           | H : (_ || _) = false |- _ => apply orb_false_elim in H; destruct H
           end.
    constructor; cbn; auto; try discriminate.
    intros _. lia. }
  destruct (kw =? "overlap")%string eqn:E10.
  { keyword_given E10. crunch H. inversion H; subst; clear H.
    split; [|frame_and_advance]. destruct Hinv.
    constructor; cbn; auto.
    intros _. split; [assumption|]. apply Qleb_gt. assumption. }
  destruct (kw =? "maxtry")%string eqn:E11.
  { keyword_given E11. crunch H. inversion H; subst; clear H.
    split; [|frame_and_advance]. destruct Hinv.
    constructor; cbn; auto. lia. }
  discriminate.
Qed.

Lemma keyword_in_bounds (iarg : nat) (P : Params) (L : Locals) (i : Z) :
  settled lat args P L -> (iarg < length args)%nat ->
  keyword me dom lat args iarg (P, L) <> OutOfBounds i.
Proof.
  intros Hinv Hlt H. unfold keyword in H.
  crunch_read H; try discriminate.
  unfold store in *. rewrite (basis_length _ _ _ _ Hinv) in *.
  repeat match goal with
         | H : (_ || _) = false |- _ => apply orb_false_elim in H; destruct H
         end.
  match goal with
  | H : (if ?b then _ else _) = OutOfBounds _ |- _ =>
      destruct b eqn:Eb; [|discriminate]
  end.
  apply orb_true_iff in Eb. destruct Eb as [Eb|Eb]; lia.
Qed.

Lemma same_style_refl (P : Params) : same_style P P.
Proof. repeat split. Qed.

Lemma same_style_trans (P1 P2 P3 : Params) :
  same_style P1 P2 -> same_style P2 P3 -> same_style P1 P3.
Proof. unfold same_style. intuition congruence. Qed.

Lemma keywords_settled :
  forall turns iarg P L P' L',
    settled lat args P L ->
    keywords turns me dom lat args iarg (P, L) = Some (Ok (P', L')) ->
    settled lat args P' L' /\ same_style P P'.
Proof.
  induction turns as [|turns IH]; intros iarg P L P' L' Hinv H;
    cbn [keywords] in H.
  - destruct (iarg <? length args)%nat; [discriminate|].
    inversion H; subst. split; [exact Hinv|apply same_style_refl].
  - destruct (iarg <? length args)%nat.
    + destruct (keyword me dom lat args iarg (P, L)) as [[[P1 L1] i1]| |] eqn:E;
        try discriminate.
      destruct (keyword_settled _ _ _ _ _ _ Hinv E) as (Hinv1 & Hs1 & _).
      destruct (IH _ _ _ _ _ Hinv1 H) as [Hinv' Hs'].
      split; [exact Hinv'|exact (same_style_trans _ _ _ Hs1 Hs')].
    + inversion H; subst. split; [exact Hinv|apply same_style_refl].
Qed.

Lemma keywords_ends :
  forall turns iarg P L,
    settled lat args P L ->
    (length args - iarg <= turns)%nat ->
    exists res, keywords turns me dom lat args iarg (P, L) = Some res /\
                forall i, res <> OutOfBounds i.
Proof.
  induction turns as [|turns IH]; intros iarg P L Hinv Hturns;
    cbn [keywords].
  - destruct (Nat.ltb_spec iarg (length args)); [lia|].
    eexists. split; [reflexivity|discriminate].
  - destruct (Nat.ltb_spec iarg (length args)) as [Hlt|Hge].
    + destruct (keyword me dom lat args iarg (P, L)) as [[[P1 L1] i1]|msg|i] eqn:E.
      * destruct (keyword_settled _ _ _ _ _ _ Hinv E) as (Hinv1 & _ & Hadv).
        apply IH; [exact Hinv1|lia].
      * eexists. split; [reflexivity|discriminate].
      * exfalso. exact (keyword_in_bounds _ _ _ _ Hinv Hlt E).
    + eexists. split; [reflexivity|discriminate].
Qed.

End Turns.

Section Parsed.

Context {ext : Collaborators} {env : Setup}.

Variables (me : Z) (dom : Domain) (lat : Lattice).

Lemma check_before_in_bounds (i : Z) : check_before dom <> OutOfBounds i.
Proof.
  unfold check_before.
  destruct (negb box_exist); [discriminate|].
  destruct (negb (nfix_restart_peratom =? 0)); [discriminate|].
  destruct (dimension dom =? 2); destruct latsty; discriminate.
Qed.

Lemma find_region_in_bounds (id : String.string) (i : Z) :
  find_region id <> OutOfBounds i.
Proof. unfold find_region. destruct (get_region_by_id id); discriminate. Qed.

Lemma parse_style_in_bounds (P0 : Params) (args : list String.string) (i : Z) :
  parse_style P0 args <> OutOfBounds i.
Proof.
  intros H. unfold parse_style in H.
  destruct (Nat.ltb_spec (length args) 2) as [|Hn]; [discriminate|].
  crunch_read H; try discriminate;
    match goal with
    | E : find_region _ = OutOfBounds _ |- _ =>
        exact (find_region_in_bounds _ _ E)
    end.
Qed.

(** What the style has set and checked. *)
Lemma parse_style_sets (P0 P : Params) (args : list String.string) (iarg : nat) :
  parse_style P0 args = Ok (P, iarg) ->
  (iarg <= length args)%nat /\
  (style P = RANDOM -> 0 <= nrandom P /\ 0 < seed P) /\
  (style P = BOX -> region P = None) /\
  (style P = REGION -> region P <> None).
Proof.
  intros H. unfold parse_style in H.
  destruct (Nat.ltb_spec (length args) 2) as [|Hn]; [discriminate|].
  crunch H; inversion H; subst; clear H; cbn;
    repeat match goal with
           | H' : (_ <? _)%nat = false |- _ => apply Nat.ltb_ge in H'
           end;
    (split; [lia|]); repeat split; try discriminate; try reflexivity; lia.
Qed.

Lemma check_internal_in_bounds (name : option String.string) (i : Z) :
  check_internal name <> OutOfBounds i.
Proof.
  unfold check_internal. destruct name as [s|]; [|discriminate].
  destruct (variable_find s <? 0); [discriminate|].
  destruct (negb (internalstyle (variable_find s))); discriminate.
Qed.

Lemma scale_units_in_bounds sty scaleflag x1 ovl (i : Z) :
  scale_units sty lat scaleflag x1 ovl <> OutOfBounds i.
Proof.
  unfold scale_units. destruct (is_lattice_style sty).
  - destruct (Z.of_nat (nbasis lat) =? 0); discriminate.
  - destruct (scaleflag =? 1); discriminate.
Qed.

Lemma finish_in_bounds (args : list String.string) (P : Params) (L : Locals)
    (i : Z) :
  settled lat args P L -> finish lat (P, L) <> OutOfBounds i.
Proof.
  intros Hinv H. unfold finish in H.
  destruct (check_mode P L) as [P1| |] eqn:Em; cbn [bind] in H; try discriminate.
  2:{ unfold check_mode in Em. crunch Em. }
  assert (Hv : varflag P1 = varflag P).
  { unfold check_mode in Em. crunch Em; inversion Em; subst; reflexivity. }
  destruct (check_variables P1 L) as [[]| |] eqn:Ev; cbn [bind] in H;
    try discriminate.
  - destruct (scale_units (style P1) lat (scaleflag L) (xone P1) (overlap P1))
      eqn:Es; cbn [bind] in H; try discriminate.
    exact (scale_units_in_bounds _ _ _ _ _ Es).
  - clear H. unfold check_variables in Ev.
    rewrite Hv, (var_named _ _ _ _ Hinv) in Ev.
    destruct (vstr L) as [v|]; cbn [is_set] in Ev.
    + crunch Ev;
        match goal with
        | E : check_internal _ = OutOfBounds _ |- _ =>
            exact (check_internal_in_bounds _ _ E)
        | _ => idtac
        end.
      exact (check_internal_in_bounds _ _ Ev).
    + crunch Ev.
Qed.

(** The stages a successful reading of the arguments has gone through. *)
Lemma parse_stages (P0 : Params) (tpl0 : Template) (args : list String.string)
    (P : Params) (L : Locals) :
  parse me dom lat P0 tpl0 args = Some (Ok (P, L)) ->
  exists P1 iarg P2,
    parse_style P0 args = Ok (P1, iarg) /\
    settled lat args P2 L /\ same_style P1 P2 /\
    finish lat (P2, L) = Ok (P, L).
Proof.
  unfold parse. intros H.
  destruct (check_before dom); try discriminate.
  destruct (parse_style P0 args) as [[P1 iarg]| |] eqn:Es; try discriminate.
  destruct (keywords (length args) me dom lat args iarg
              (set_defaults lat P1, default_locals tpl0))
    as [[[P2 L2]| |]|] eqn:Ek; try discriminate.
  destruct (keywords_settled me dom lat args _ _ _ _ _ _
              (defaults_settled lat args P1 tpl0) Ek) as [Hinv Hs].
  assert (HL : L2 = L).
  { inversion H as [H1]. unfold finish in H1. crunch H1.
    inversion H1; reflexivity. }
  subst L2. exists P1, iarg, P2. split; [reflexivity|].
  split; [exact Hinv|]. split; [|inversion H; reflexivity].
  destruct Hs as (H1 & H2 & H3 & H4 & H5 & H6). cbn in *.
  repeat split; assumption.
Qed.

(** What [finish] changes: the template's center in molecule mode, and
    the scaling of [xone] and [overlap]. *)
Lemma finish_spec (P : Params) (L : Locals) (P' : Params) (L' : Locals) :
  finish lat (P, L) = Ok (P', L') ->
  exists P1 scaled,
    check_mode P L = Ok P1 /\ check_variables P1 L = Ok tt /\
    scale_units (style P1) lat (scaleflag L) (xone P1) (overlap P1) = Ok scaled /\
    P' = set_overlap (set_xone P1 (fst scaled)) (snd scaled) /\ L' = L.
Proof.
  unfold finish. intros H.
  destruct (check_mode P L) as [P1| |] eqn:Em; cbn [bind] in H;
    try discriminate.
  destruct (check_variables P1 L) as [[]| |] eqn:Ev; cbn [bind] in H;
    try discriminate.
  destruct (scale_units (style P1) lat (scaleflag L) (xone P1) (overlap P1))
    as [scaled| |] eqn:Es; cbn [bind] in H; try discriminate.
  inversion H; subst. exists P1, scaled.
  split; [reflexivity|]. split; [exact Ev|]. split; [exact Es|].
  split; reflexivity.
Qed.

Lemma check_mode_spec (P : Params) (L : Locals) (P1 : Params) :
  check_mode P L = Ok P1 ->
  (mode P = ATOM /\ P1 = P /\ 1 <= ntype P <= ntypes) \/
  (mode P = MOLECULE /\ P1 = set_onemol P (compute_center (template L)) /\
   xflag (template L) = true /\ typeflag (template L) = true /\
   0 < Int32.add (ntype P) (mol_ntypes (template L)) <= ntypes /\
   (tag_require (template L) = true -> tag_enable = true)).
Proof.
  unfold check_mode. intros H. destruct (mode P) eqn:Em.
  - left. crunch H. inversion H; subst.
    match goal with
    | H' : (_ || _) = false |- _ => apply orb_false_elim in H'; destruct H'
    end.
    repeat split; lia.
  - right. crunch H. inversion H; subst.
    repeat match goal with
           | H' : (_ || _) = false |- _ => apply orb_false_elim in H'; destruct H'
           | H' : negb _ = false |- _ => apply negb_false_iff in H'
           end.
    repeat split; try assumption; try lia.
    intros Ht.
    match goal with
    | H' : (_ && _) = false |- _ => rewrite Ht in H'; cbn in H';
                                    apply negb_false_iff in H'; exact H'
    end.
Qed.

End Parsed.

Section ParseResults.

Context {ext : Collaborators} {env : Setup}.

Lemma scale_units_spec (lat : Lattice) sty scaleflag x1 ovl scaled :
  scale_units sty lat scaleflag x1 ovl = Ok scaled ->
  (is_lattice_style sty = true -> nbasis lat <> 0%nat) /\
  (is_lattice_style sty = false ->
   snd scaled = if scaleflag =? 1 then (ovl * xlattice lat)%Q else ovl).
Proof.
  unfold scale_units. intros H. destruct (is_lattice_style sty).
  - destruct (Z.eqb_spec (Z.of_nat (nbasis lat)) 0); [discriminate|].
    split; [intros _; lia|discriminate].
  - split; [discriminate|]. intros _.
    destruct (scaleflag =? 1); inversion H; reflexivity.
Qed.

(** X16: the reading of the arguments always ends, with the members of
    the command or with an error message; it never reads an argument past
    the last one, never writes outside basistype and never reads the name of
    a variable that is not set. *)
Theorem arguments_read_in_bounds :
  forall (me : Z) (dom : Domain) (lat : Lattice) (P0 : Params)
         (tpl0 : Template) (args : list String.string),
    exists res, parse me dom lat P0 tpl0 args = Some res /\
                forall i, res <> OutOfBounds i.
Proof.
  intros me dom lat P0 tpl0 args. unfold parse.
  destruct (check_before dom) as [u|msg|i] eqn:Eb.
  2:{ eexists. split; [reflexivity|discriminate]. }
  2:{ exfalso. exact (check_before_in_bounds dom i Eb). }
  destruct (parse_style P0 args) as [[P1 iarg]|msg|i] eqn:Es.
  2:{ eexists. split; [reflexivity|discriminate]. }
  2:{ exfalso. exact (parse_style_in_bounds P0 args i Es). }
  destruct (keywords_ends me dom lat args (length args) iarg _ _
              (defaults_settled lat args P1 tpl0) ltac:(lia))
    as (res & Hk & Hb).
  rewrite Hk. destruct res as [[P2 L2]|msg|i].
  - destruct (keywords_settled me dom lat args _ _ _ _ _ _
                (defaults_settled lat args P1 tpl0) Hk) as [Hinv _].
    eexists. split; [reflexivity|].
    intros i. apply (finish_in_bounds lat args), Hinv.
  - eexists. split; [reflexivity|discriminate].
  - exfalso. exact (Hb i eq_refl).
Qed.

(** X17: when the arguments are accepted, maxtry is positive; for the
    style random, nrandom is not negative and the seed is positive; for any
    other style neither overlap nor maxtry has been given; and an overlap
    that has been given was positive before the scaling by the lattice
    spacing along x. *)
Theorem parsed_random_settings :
  forall (me : Z) (dom : Domain) (lat : Lattice) (P0 : Params)
         (tpl0 : Template) (args : list String.string) (P : Params) (L : Locals),
    parse me dom lat P0 tpl0 args = Some (Ok (P, L)) ->
    0 < maxtry P /\
    (style P = RANDOM -> 0 <= nrandom P /\ 0 < seed P) /\
    (style P <> RANDOM -> overlapflag P = false /\ maxtry P = DEFAULT_MAXTRY) /\
    (overlapflag P = true ->
     exists raw, (0 < raw)%Q /\
       overlap P = if scaleflag L =? 1 then (raw * xlattice lat)%Q else raw).
Proof.
  intros me dom lat P0 tpl0 args P L H.
  destruct (parse_stages me dom lat P0 tpl0 args P L H)
    as (P1 & iarg & P2 & Hsty & Hinv & Hsame & Hfin).
  destruct (finish_spec lat _ _ _ _ Hfin) as (P3 & scaled & Hm & _ & Hsc & -> & _).
  destruct (parse_style_sets _ _ _ _ Hsty) as (_ & Hrand & _).
  destruct Hsame as (_ & Hst & _ & _ & Hnr & Hsd).
  destruct (scale_units_spec lat _ _ _ _ _ Hsc) as [_ Hscale].
  assert (H3 : style P3 = style P2 /\ maxtry P3 = maxtry P2 /\
               overlapflag P3 = overlapflag P2 /\ overlap P3 = overlap P2 /\
               nrandom P3 = nrandom P2 /\ seed P3 = seed P2).
  { destruct (check_mode_spec _ _ _ Hm) as [(_ & -> & _)|(_ & -> & _)];
      repeat split. }
  destruct H3 as (E1 & E2 & E3 & E4 & E5 & E6). cbn.
  rewrite E1, E2, E3, E5, E6 in *. destruct Hinv.
  split; [assumption|]. split; [|split].
  - intros Hr. rewrite Hnr, Hsd. apply Hrand. congruence.
  - intros Hr. split.
    + destruct (overlapflag P2) eqn:Eo; [|reflexivity].
      exfalso. apply Hr. apply overlap_random0. reflexivity.
    + destruct (Z.eq_dec (maxtry P2) DEFAULT_MAXTRY) as [|Hne]; [assumption|].
      exfalso. apply Hr, maxtry_random0, Hne.
  - intros Ho. destruct (overlap_random0 Ho) as [Hr Hpos].
    exists (overlap P2). split; [exact Hpos|].
    rewrite Hscale, E4; [reflexivity|]. rewrite Hr. reflexivity.
Qed.

(** X18: when the arguments are accepted, a lattice style has a lattice
    with basis atoms; in atom mode the type of the command and the type of
    every basis atom are atom types of the system; in molecule mode the
    template has been named by mol, has coordinates and types, its types
    shifted by the type of the command are atom types of the system, and
    onemol is the template with its center computed. *)
Theorem parsed_types_valid :
  forall (me : Z) (dom : Domain) (lat : Lattice) (P0 : Params)
         (tpl0 : Template) (args : list String.string) (P : Params) (L : Locals),
    parse me dom lat P0 tpl0 args = Some (Ok (P, L)) ->
    (is_lattice_style (style P) = true -> nbasis lat <> 0%nat) /\
    (mode P = ATOM ->
     1 <= ntype P <= ntypes /\
     length (basistype P) = nbasis lat /\
     forall m, (m < nbasis lat)%nat -> 1 <= nth m (basistype P) 0 <= ntypes) /\
    (mode P = MOLECULE ->
     In "mol"%string args /\
     xflag (template L) = true /\ typeflag (template L) = true /\
     0 < Int32.add (ntype P) (mol_ntypes (template L)) <= ntypes /\
     (tag_require (template L) = true -> tag_enable = true) /\
     onemol P = compute_center (template L)).
Proof.
  intros me dom lat P0 tpl0 args P L H.
  destruct (parse_stages me dom lat P0 tpl0 args P L H)
    as (P1 & iarg & P2 & Hsty & Hinv & Hsame & Hfin).
  destruct (finish_spec lat _ _ _ _ Hfin) as (P3 & scaled & Hm & _ & Hsc & -> & _).
  destruct (scale_units_spec lat _ _ _ _ _ Hsc) as [Hlat _]. cbn.
  destruct Hinv.
  destruct (check_mode_spec _ _ _ Hm)
    as [(Emode & -> & Hty)|(Emode & -> & Hx & Ht & Hsum & Htag)]; cbn in *.
  - split; [exact Hlat|]. split; [|intros Hmol; congruence].
    intros _. split; [exact Hty|]. split; [assumption|].
    intros m Hlt. rewrite <- basis_length0 in Hlt.
    rewrite Forall_forall in basis_types0.
    destruct (basis_types0 _ (nth_In _ 0 Hlt)) as [->|Hin]; assumption.
  - split; [exact Hlat|]. split; [intros Hat; congruence|].
    intros _. repeat split; try assumption; try lia. auto.
Qed.

(** X19: when the arguments are accepted, a variable test has not been
    asked for the style single, comes with at least one of the coordinate
    variables, and its variable exists and is of equal style; without var no
    coordinate variable is set; every coordinate variable that is set exists
    and is of internal style. *)
Theorem parsed_variables_complete :
  forall (me : Z) (dom : Domain) (lat : Lattice) (P0 : Params)
         (tpl0 : Template) (args : list String.string) (P : Params) (L : Locals),
    parse me dom lat P0 tpl0 args = Some (Ok (P, L)) ->
    (varflag P = true ->
     style P <> SINGLE /\
     (xstr P = true \/ ystr P = true \/ zstr P = true) /\
     exists v, vstr L = Some v /\ 0 <= variable_find v /\
               equalstyle (variable_find v) = true) /\
    (varflag P = false ->
     vstr L = None /\ xstr P = false /\ ystr P = false /\ zstr P = false) /\
    (forall s,
       xstr_name L = Some s \/ ystr_name L = Some s \/ zstr_name L = Some s ->
       0 <= variable_find s /\ internalstyle (variable_find s) = true).
Proof.
  intros me dom lat P0 tpl0 args P L H.
  destruct (parse_stages me dom lat P0 tpl0 args P L H)
    as (P1 & iarg & P2 & Hsty & Hinv & Hsame & Hfin).
  destruct (finish_spec lat _ _ _ _ Hfin) as (P3 & scaled & Hm & Hv & _ & -> & _).
  assert (H3 : style P3 = style P2 /\ varflag P3 = varflag P2 /\
               xstr P3 = xstr P2 /\ ystr P3 = ystr P2 /\ zstr P3 = zstr P2).
  { destruct (check_mode_spec _ _ _ Hm) as [(_ & -> & _)|(_ & -> & _)];
      repeat split. }
  destruct H3 as (E1 & E2 & E3 & E4 & E5). cbn.
  rewrite E1, E2, E3, E4, E5. destruct Hinv.
  unfold check_variables in Hv. rewrite E2, var_named0 in Hv.
  rewrite var_named0, x_named0, y_named0, z_named0.
  assert (Hint : forall name s, check_internal name = Ok tt -> name = Some s ->
                   0 <= variable_find s /\ internalstyle (variable_find s) = true).
  { intros name s Hc ->. unfold check_internal in Hc.
    destruct (Z.ltb_spec (variable_find s) 0); [discriminate|].
    destruct (internalstyle (variable_find s)); [split; [lia|reflexivity]|].
    discriminate. }
  destruct (vstr L) as [v|] eqn:Evs; cbn [is_set] in *.
  - destruct (is_set (xstr_name L) || is_set (ystr_name L)
              || is_set (zstr_name L)) eqn:Eany; cbn in Hv; [|discriminate].
    destruct (Z.ltb_spec (variable_find v) 0); [discriminate|].
    destruct (equalstyle (variable_find v)) eqn:Eeq; cbn in Hv; [|discriminate].
    destruct (check_internal (xstr_name L)) as [[]| |] eqn:Ex; cbn in Hv;
      try discriminate.
    destruct (check_internal (ystr_name L)) as [[]| |] eqn:Ey; cbn in Hv;
      try discriminate.
    split; [|split].
    + intros _. split; [apply var_not_single0; rewrite var_named0; reflexivity|].
      split.
      * clear - Eany.
        destruct (xstr_name L); [left; reflexivity|].
        destruct (ystr_name L); [right; left; reflexivity|].
        destruct (zstr_name L); [right; right; reflexivity|discriminate].
      * exists v. split; [reflexivity|]. split; [lia|exact Eeq].
    + discriminate.
    + intros s [Hs|[Hs|Hs]];
        [exact (Hint _ _ Ex Hs)|exact (Hint _ _ Ey Hs)|exact (Hint _ _ Hv Hs)].
  - destruct (is_set (xstr_name L) || is_set (ystr_name L)
              || is_set (zstr_name L)) eqn:Eany; cbn in Hv; [discriminate|].
    apply orb_false_elim in Eany. destruct Eany as [Eany Ez].
    apply orb_false_elim in Eany. destruct Eany as [Ex Ey].
    split; [discriminate|]. split; [intros _; repeat split; assumption|].
    intros s [Hs|[Hs|Hs]]; rewrite Hs in *; discriminate.
Qed.

(** X20: when the arguments are accepted, a ratio lies in (0, 1], a
    subset size is positive and the seed that came with either is
    positive, whatever keywords followed. *)
Theorem parsed_subset_valid :
  forall (me : Z) (dom : Domain) (lat : Lattice) (P0 : Params)
         (tpl0 : Template) (args : list String.string) (P : Params) (L : Locals),
    parse me dom lat P0 tpl0 args = Some (Ok (P, L)) ->
    (subsetflag P = RATIO ->
     In "ratio"%string args /\ (0 < subsetfrac P <= 1)%Q /\ 0 < subsetseed P) /\
    (subsetflag P = SUBSET ->
     In "subset"%string args /\ 0 < nsubset P /\ 0 < subsetseed P).
Proof.
  intros me dom lat P0 tpl0 args P L H.
  destruct (parse_stages me dom lat P0 tpl0 args P L H)
    as (P1 & iarg & P2 & Hsty & Hinv & Hsame & Hfin).
  destruct (finish_spec lat _ _ _ _ Hfin) as (P3 & scaled & Hm & _ & _ & -> & _).
  assert (H3 : subsetflag P3 = subsetflag P2 /\ subsetfrac P3 = subsetfrac P2 /\
               nsubset P3 = nsubset P2 /\ subsetseed P3 = subsetseed P2).
  { destruct (check_mode_spec _ _ _ Hm) as [(_ & -> & _)|(_ & -> & _)];
      repeat split. }
  destruct H3 as (E1 & E2 & E3 & E4). cbn. rewrite E1, E2, E3, E4.
  destruct Hinv. split; intros Hf; (split; [auto|]); auto.
Qed.

(** X21: when the arguments are accepted, a member whose keyword is not
    among the arguments holds its default: no remap, atom mode, lattice
    units, no variable test, no rotation, no subset, no overlap test,
    maxtry 1000, every basis atom of the type of the command. *)
Theorem absent_keywords_default :
  forall (me : Z) (dom : Domain) (lat : Lattice) (P0 : Params)
         (tpl0 : Template) (args : list String.string) (P : Params) (L : Locals),
    parse me dom lat P0 tpl0 args = Some (Ok (P, L)) ->
    (~ In "basis"%string args -> basistype P = repeat (ntype P) (nbasis lat)) /\
    (~ In "remap"%string args -> remapflag P = false) /\
    (~ In "mol"%string args -> mode P = ATOM) /\
    (~ In "units"%string args -> scaleflag L = 1) /\
    (~ In "var"%string args -> varflag P = false) /\
    (~ In "set"%string args -> xstr P = false /\ ystr P = false /\ zstr P = false) /\
    (~ In "rotate"%string args -> quat_user P = false) /\
    (~ In "ratio"%string args -> ~ In "subset"%string args -> subsetflag P = NONE) /\
    (~ In "overlap"%string args -> overlapflag P = false) /\
    (~ In "maxtry"%string args -> maxtry P = DEFAULT_MAXTRY).
Proof.
  intros me dom lat P0 tpl0 args P L H.
  destruct (parse_stages me dom lat P0 tpl0 args P L H)
    as (P1 & iarg & P2 & Hsty & Hinv & Hsame & Hfin).
  destruct (finish_spec lat _ _ _ _ Hfin) as (P3 & scaled & Hm & _ & _ & -> & _).
  assert (H3 : forall A (f : Params -> A),
             (forall Q m, f (set_onemol Q m) = f Q) -> f P3 = f P2).
  { intros A f Hf.
    destruct (check_mode_spec _ _ _ Hm) as [(_ & -> & _)|(_ & -> & _)];
      [reflexivity|apply Hf]. }
  cbn.
  rewrite (H3 _ basistype), (H3 _ ntype), (H3 _ remapflag), (H3 _ mode),
    (H3 _ varflag), (H3 _ xstr), (H3 _ ystr), (H3 _ zstr), (H3 _ quat_user),
    (H3 _ subsetflag), (H3 _ overlapflag), (H3 _ maxtry) by reflexivity.
  destruct Hinv.
  split.
  { intros Hn.
    destruct (list_eq_dec Z.eq_dec (basistype P2) (repeat (ntype P2) (nbasis lat)))
      as [|Hne]; [assumption|]. exfalso. auto. }
  split.
  { intros Hn. destruct (remapflag P2); [exfalso; auto|reflexivity]. }
  split.
  { intros Hn. destruct (mode P2); [reflexivity|exfalso; auto]. }
  split.
  { intros Hn. destruct (Z.eq_dec (scaleflag L) 1); [assumption|exfalso; auto]. }
  split.
  { intros Hn. destruct (varflag P2); [exfalso; auto|reflexivity]. }
  split.
  { intros Hn.
    destruct (xstr P2); [exfalso; auto|].
    destruct (ystr P2); [exfalso; auto|].
    destruct (zstr P2); [exfalso; auto|]. repeat split. }
  split.
  { intros Hn. destruct (quat_user P2); [exfalso; auto|reflexivity]. }
  split.
  { intros Hn1 Hn2. destruct (subsetflag P2); [reflexivity| |]; exfalso; auto. }
  split.
  { intros Hn. destruct (overlapflag P2); [exfalso; auto|reflexivity]. }
  intros Hn.
  destruct (Z.eq_dec (maxtry P2) DEFAULT_MAXTRY); [assumption|exfalso; auto].
Qed.

End ParseResults.

End CommandFacts.

(** ** The loops over [int] indices *)

Lemma Zrange_nil (lo hi : Z) : (hi < lo)%Z -> Zrange lo hi = [].
Proof.
  intros H. unfold Zrange. replace (Z.to_nat (hi - lo + 1)) with 0%nat by lia.
  reflexivity.
Qed.

Lemma Zrange_cons (lo hi : Z) :
  (lo <= hi)%Z -> Zrange lo hi = lo :: Zrange (lo + 1) hi.
Proof.
  intros H. unfold Zrange.
  replace (Z.to_nat (hi - lo + 1)) with (S (Z.to_nat (hi - (lo + 1) + 1))) by lia.
  cbn [seq map]. f_equal; [lia|].
  rewrite <- seq_shift, map_map. apply map_ext. intros n. lia.
Qed.

(** Below INT_MAX the loop over an [int] index visits the values from [lo]
    to [hi] in order and ends. *)
Lemma for_int_list {S : Type} (body : Z -> S -> option (result S))
    (b : Z -> S -> result S) (hi : Z) :
  (hi < Int32.MAXSMALLINT)%Z ->
  forall turns lo s,
    Int32.in_range lo ->
    (forall v s', (lo <= v <= hi)%Z -> body v s' = Some (b v s')) ->
    (Z.to_nat (hi - lo + 1) <= turns)%nat ->
    for_int turns lo hi body s = Some (for_each b (Zrange lo hi) s).
Proof.
  intros Hhi. induction turns as [|turns IH]; intros lo s Hlo Hbody Hturns.
  - cbn [for_int]. destruct (Z.leb_spec lo hi) as [Hle|Hgt]; [lia|].
    rewrite Zrange_nil by lia. reflexivity.
  - cbn [for_int]. destruct (Z.leb_spec lo hi) as [Hle|Hgt].
    + rewrite Zrange_cons by exact Hle. cbn [for_each].
      rewrite Hbody by lia.
      assert (Hincr : Int32.incr lo = (lo + 1)%Z).
      { unfold Int32.incr, Int32.add. apply wrap_small.
        unfold Int32.in_range, Int32.MINSMALLINT, Int32.MAXSMALLINT in *. lia. }
      destruct (b lo s) as [s'|msg|i]; cbn [bind]; try reflexivity.
      rewrite Hincr. apply IH.
      * unfold Int32.in_range, Int32.MINSMALLINT, Int32.MAXSMALLINT in *. lia.
      * intros v s'' Hv. apply Hbody. lia.
      * lia.
    + rewrite Zrange_nil by lia. reflexivity.
Qed.

(** At INT_MAX the test [v <= hi] never fails: a loop whose body goes
    through uses up any number of turns. *)
Lemma for_int_max {S : Type} (body : Z -> S -> option (result S)) :
  (forall v s, exists s', body v s = Some (Ok s')) ->
  forall turns lo s,
    Int32.in_range lo ->
    for_int turns lo Int32.MAXSMALLINT body s = None.
Proof.
  intros Hbody. induction turns as [|turns IH]; intros lo s Hlo; cbn [for_int];
    (destruct (Z.leb_spec lo Int32.MAXSMALLINT) as [_|Hgt];
     [|unfold Int32.in_range in Hlo; lia]); [reflexivity|].
  destruct (Hbody lo s) as [s' Hs']. rewrite Hs'.
  apply IH. unfold Int32.incr, Int32.add. apply wrap_range.
Qed.

Section StepFacts.

Context {ext : Collaborators}.

Variables (P : Params) (dom : Domain) (lat : Lattice).

(** The loops of [loop_lattice], run step by step on a rank whose upper
    bounds lie below INT_MAX, end and give what [loop_lattice] gives. *)
Lemma loop_lattice_steps_end (action : Action) (flag : list Z) (r : Rank)
    (turns : nat) :
  loops_end r -> (loop_turns r <= turns)%nat ->
  loop_lattice_steps turns P dom lat action flag r
  = Some (loop_lattice P dom lat action flag r).
Proof.
  intros ((Hil & Hih) & (Hjl & Hjh) & (Hkl & Hkh)) Hturns.
  unfold loop_turns in Hturns.
  unfold loop_lattice_steps, loop_lattice.
  apply for_int_list; [exact Hkh|exact Hkl| |lia].
  intros k s _.
  apply for_int_list; [exact Hjh|exact Hjl| |lia].
  intros j s' _.
  apply for_int_list; [exact Hih|exact Hil| |lia].
  intros i s'' _. reflexivity.
Qed.

Lemma set_lattice_bounds_int (r : Rank) :
  Int32.in_range (ilo (set_lattice_bounds P dom r)) /\
  Int32.in_range (jlo (set_lattice_bounds P dom r)) /\
  Int32.in_range (klo (set_lattice_bounds P dom r)).
Proof.
  unfold set_lattice_bounds. destruct (lattice_extent P dom (proc r)) as [vmin vmax].
  unfold set_loop_bounds. cbn [ilo jlo klo]. unfold lo_bound.
  repeat split;
    (destruct (Qltb _ 0); unfold Int32.decr, Int32.sub; apply wrap_range).
Qed.

End StepFacts.

Section CountClaim.

Context {ext : Collaborators}.

Lemma loops_end_flag (r : Rank) (f : Z) :
  loops_end r -> loops_end (set_nlatt_overflow r f).
Proof. intros H. exact H. Qed.

(** C5: on every rank whose loop bounds lie below INT_MAX the COUNT pass,
    its loops run step by step, runs to its end; it leaves the flag
    nlatt_overflow at 1 when the number of passing sites exceeds MAXSMALLINT
    and at 0 otherwise; and, the flags being summed over the ranks,
    add_lattice stops with the fatal overflow error exactly when the flag of
    at least one rank is set. *)
Theorem C5_overflow_flag_reduced :
  forall (P : Params) (dom : Domain) (lat : Lattice) (ranks : list Rank),
    (Z.of_nat (length ranks) <= Int32.MAXSMALLINT)%Z ->
    (forall r, In r ranks -> loops_end (set_lattice_bounds P dom r)) ->
    exists counted,
      on_all (count_sites P dom lat) ranks = Ok counted /\
      Forall2 (fun r rc =>
                 forall turns,
                   (loop_turns (set_lattice_bounds P dom r) <= turns)%nat ->
                   loop_lattice_steps turns P dom lat COUNT []
                     (set_nlatt_overflow (set_lattice_bounds P dom r) 0)
                   = Some (Ok rc)) ranks counted /\
      Forall (fun rc =>
                nlatt_overflow rc
                = (if (passing P dom lat rc (sites lat rc) >? Int32.MAXSMALLINT)%Z
                   then 1 else 0)%Z) counted /\
      (add_lattice P dom lat ranks
       = Fatal "Create_atoms lattice size overflow on 1 or more procs"
       <-> exists rc, In rc counted /\ nlatt_overflow rc = 1%Z).
Proof.
  intros P dom lat ranks Hlen Hend.
  destruct (on_all_total (count_sites P dom lat) ranks) as (counted & Hall & Hf2).
  { intros r _. destruct (count_sites_spec P dom lat r) as (rc & Hrc & _).
    exists rc. exact Hrc. }
  exists counted. split; [exact Hall|].
  pose proof (counted_flags P dom lat ranks counted Hf2) as Hflags.
  split.
  { clear - Hf2 Hend. induction Hf2 as [|r rc ranks counted Hc _ IH];
      constructor.
    - intros turns Hturns. unfold count_sites in Hc. rewrite <- Hc.
      apply loop_lattice_steps_end; [|exact Hturns].
      apply loops_end_flag, Hend. left. reflexivity.
    - apply IH. intros r' Hr'. apply Hend. right. exact Hr'. }
  split; [eapply Forall_impl; [|exact Hflags]; intros rc [_ H]; exact H|].
  assert (H01 : Forall (fun f => f = 0 \/ f = 1)%Z (map nlatt_overflow counted)).
  { apply Forall_map. eapply Forall_impl; [|exact Hflags].
    intros rc [_ H]. rewrite H.
    destruct (passing P dom lat rc (sites lat rc) >? Int32.MAXSMALLINT)%Z; auto. }
  assert (Hlen' : (Z.of_nat (length (map nlatt_overflow counted))
                   <= Int32.MAXSMALLINT)%Z).
  { rewrite length_map, <- (Forall2_length Hf2). exact Hlen. }
  pose proof (allreduce_sum_flags _ H01 Hlen') as Hsum.
  unfold add_lattice. rewrite Hall. cbn [bind].
  destruct (Z.eqb_spec (allreduce_sum_int (map nlatt_overflow counted)) 0)
    as [Hz|Hnz]; cbn [negb].
  - split.
    + intros Hfatal. exfalso.
      destruct (subsetflag P).
      * revert Hfatal. apply on_all_not_fatal. intros s m _.
        rewrite loop_lattice_sites. apply run_sites_not_fatal.
      * destruct (_ >? _)%Z; [discriminate|].
        revert Hfatal. apply on_all_not_fatal. intros s m _.
        rewrite loop_lattice_sites. apply run_sites_not_fatal.
      * destruct (_ >? _)%Z; [discriminate|].
        revert Hfatal. apply on_all_not_fatal. intros s m _.
        rewrite loop_lattice_sites. apply run_sites_not_fatal.
    + intros (rc & Hin & Hone). exfalso.
      apply Hsum in Hz. rewrite Forall_map, Forall_forall in Hz.
      specialize (Hz rc Hin). simpl in Hz. lia.
  - split; [|reflexivity].
    intros _.
    apply some_flag_set.
    + rewrite Forall_map in H01. exact H01.
    + intros Hnone. apply Hnz, Hsum. rewrite Forall_map. exact Hnone.
Qed.

End CountClaim.

(** ** The ownership test *)

Section OwnershipClaim.

Context {ext : Collaborators}.

Local Open Scope Q_scope.

Lemma has_created_grows (P : Params) (r r' : Rank) :
  (0 < atoms_per_insert P)%nat -> has_created P r r' -> atoms r' <> atoms r.
Proof.
  intros Hk (nw & Hat & Hlen) Heq. rewrite Heq in Hat.
  rewrite <- (app_nil_r (atoms r)) in Hat at 1.
  apply app_inv_head in Hat. subst nw. simpl in Hlen. lia.
Qed.

Lemma half_open_dec (lo hi coord : vec3) :
  {half_open lo hi coord} + {~ half_open lo hi coord}.
Proof.
  destruct (in_subbox lo hi coord) eqn:E.
  - left. apply in_subbox_spec, E.
  - right. intros H. apply in_subbox_spec in H. congruence.
Qed.

(** The bounds a rank stores at set-up, axis by axis. *)
Lemma stored_bounds (sty : Style) (dom : Domain) (p : Proc)
    (old : list AtomRec) (a : Axis) :
  let shifted := is_lattice_style sty && periodic_along a dom in
  along a (sublo (setup_rank sty dom p old))
  = (if shifted && lo_proc_along a p
     then along a (fst (domain_sub dom p)) - seam_shift dom a
     else along a (fst (domain_sub dom p))) /\
  along a (subhi (setup_rank sty dom p old))
  = (if shifted && hi_proc_along a p
     then along a (snd (domain_sub dom p)) - 2 * seam_shift dom a
     else along a (snd (domain_sub dom p))).
Proof.
  unfold setup_rank, set_bounds, shift_axis, seam_shift, epsilon, EPSILON,
    lo_proc_along, hi_proc_along, periodic_along.
  destruct (domain_sub dom p) as [lo hi].
  destruct (is_lattice_style sty); cbn [andb].
  - destruct a; cbn [along fst snd sublo subhi c0 c1 c2];
      destruct (triclinic dom); cbn [c0 c1 c2];
      repeat match goal with
             | |- context [if ?b then _ else _] => destruct b; cbn [andb fst snd]
             end; split; reflexivity.
  - destruct a; split; reflexivity.
Qed.

(** C4: the bounds a rank stores are those of its sub-domain, moved once
    at set-up, for the lattice styles and on a periodic axis, by EPSILON at
    the lower domain edge and by 2 EPSILON at the upper one (EPSILON times
    the box length in a box that is not sheared); a candidate of the lattice
    loop that the region and variable tests let through, the single position
    and an accepted random position are created by a rank exactly when the
    tested coordinate, fractional in a sheared box and real otherwise, lies
    in the half-open box sublo <= coord < subhi of the rank on every axis,
    and the rank is left as it was otherwise; so where the sub-domain of one
    rank ends along an axis and that of another begins, no position is
    created by both. *)
Theorem C4_ownership_half_open :
  forall (P : Params) (sty : Style) (dom : Domain) (lat : Lattice)
         (pa pb : Proc) (a : Axis) (old : list AtomRec),
    (0 < atoms_per_insert P)%nat ->
    shared_boundary a dom pa pb ->
    let ra := setup_rank sty dom pa old in
    let rb := setup_rank sty dom pb old in
    (forall (p : Proc) (b : Axis),
       let shifted := is_lattice_style sty && periodic_along b dom in
       along b (sublo (setup_rank sty dom p old))
       = (if shifted && lo_proc_along b p
          then along b (fst (domain_sub dom p)) - seam_shift dom b
          else along b (fst (domain_sub dom p))) /\
       along b (subhi (setup_rank sty dom p old))
       = (if shifted && hi_proc_along b p
          then along b (snd (domain_sub dom p)) - 2 * seam_shift dom b
          else along b (snd (domain_sub dom p)))) /\
    (forall (r : Rank) (flag : list Z) (s : Site),
       filtered P (site_x lat s) = false ->
       exists r',
         site_body P dom lat INSERT flag s r = Ok r' /\
         (half_open (sublo r) (subhi r) (tested dom (site_x lat s))
          <-> has_created P r r') /\
         (~ half_open (sublo r) (subhi r) (tested dom (site_x lat s)) ->
          r' = r)) /\
    (forall r : Rank,
       let coord := single_coord P dom (single_x P) in
       (triclinic dom = false -> coord = single_x P) /\
       (triclinic dom = true -> remapflag P = false ->
        coord = x2lamda (single_x P)) /\
       (half_open (sublo r) (subhi r) coord
        <-> has_created P r (add_single P dom r)) /\
       (~ half_open (sublo r) (subhi r) coord -> add_single P dom r = r)) /\
    (forall box ranks fuel n x coord n' (r : Rank),
       try_place P dom box ranks fuel n = (Some (x, coord), n') ->
       coord = tested dom x /\
       (half_open (sublo r) (subhi r) coord
        <-> has_created P r (place P dom x coord r)) /\
       (~ half_open (sublo r) (subhi r) coord -> place P dom x coord r = r)) /\
    (forall coord,
       ~ (half_open (sublo ra) (subhi ra) coord /\
          half_open (sublo rb) (subhi rb) coord)).
Proof.
  intros P sty dom lat pa pb a old Hk (Heq & Hlo & Hprd) ra rb.
  assert (Hins : forall t x r, has_created P r (insert_at P dom t x r)).
  { intros t x r. exact (insert_at_appends P dom t x r). }
  assert (Hiff : forall lo hi coord r r',
             (half_open lo hi coord -> has_created P r r') ->
             (~ half_open lo hi coord -> r' = r) ->
             (half_open lo hi coord <-> has_created P r r')).
  { intros lo hi coord r r' Hin Hout. split; [exact Hin|].
    intros Hc. destruct (half_open_dec lo hi coord) as [H|H]; [exact H|].
    exfalso. apply (has_created_grows P r r' Hk Hc). rewrite (Hout H).
    reflexivity. }
  split; [intros p b; apply stored_bounds|].
  split; [|split; [|split]].
  - intros r flag s Hf.
    unfold filtered in Hf. apply orb_false_elim in Hf. destruct Hf as [Hreg Hvar].
    unfold site_body. rewrite Hreg, Hvar. fold (tested dom (site_x lat s)).
    destruct (outside_subbox (sublo r) (subhi r) (tested dom (site_x lat s)))
      eqn:E.
    + assert (Hnot : ~ half_open (sublo r) (subhi r) (tested dom (site_x lat s))).
      { intros H. apply outside_subbox_spec in H. congruence. }
      exists r. split; [reflexivity|].
      split; [|reflexivity]. apply Hiff; [intros H; contradiction|reflexivity].
    + apply outside_subbox_spec in E. cbn [bind]. eexists. split; [reflexivity|].
      assert (Hc : has_created P r
                     (set_nlatt (insert_at P dom (nth (s_m s) (basistype P) 0%Z)
                                           (site_x lat s) r)
                                (Int32.incr
                                   (nlatt (insert_at P dom
                                             (nth (s_m s) (basistype P) 0%Z)
                                             (site_x lat s) r))))).
      { exact (Hins _ _ r). }
      split; [split; [intros _; exact Hc|intros _; exact E]|].
      intros H. contradiction.
  - intros r coord. subst coord.
    split; [intros Ht; unfold single_coord; rewrite Ht; reflexivity|].
    split; [intros Ht Hr; unfold single_coord; rewrite Ht, Hr; reflexivity|].
    assert (Hin : half_open (sublo r) (subhi r) (single_coord P dom (single_x P)) ->
                  has_created P r (add_single P dom r)).
    { intros H. apply in_subbox_spec in H. unfold add_single.
      fold (single_x P). rewrite H. apply Hins. }
    assert (Hout : ~ half_open (sublo r) (subhi r)
                     (single_coord P dom (single_x P)) ->
                   add_single P dom r = r).
    { intros H. unfold add_single. fold (single_x P).
      destruct (in_subbox (sublo r) (subhi r) (single_coord P dom (single_x P)))
        eqn:E; [|reflexivity].
      exfalso. apply H, in_subbox_spec, E. }
    split; [apply Hiff; assumption|exact Hout].
  - intros box ranks fuel n x coord n' r Htry.
    destruct (try_place_accepts P dom box ranks _ _ _ _ _ Htry) as (_ & Hc & _).
    split; [exact Hc|].
    assert (Hin : half_open (sublo r) (subhi r) coord ->
                  has_created P r (place P dom x coord r)).
    { intros H. apply in_subbox_spec in H. unfold place. rewrite H. apply Hins. }
    assert (Hout : ~ half_open (sublo r) (subhi r) coord ->
                   place P dom x coord r = r).
    { intros H. unfold place.
      destruct (in_subbox (sublo r) (subhi r) coord) eqn:E; [|reflexivity].
      exfalso. apply H, in_subbox_spec, E. }
    split; [apply Hiff; assumption|exact Hout].
  - intros coord [Ha Hb].
    apply (half_open_along a) in Ha. apply (half_open_along a) in Hb.
    pose proof (stored_hi_below a sty dom pa Hprd) as Hhi.
    pose proof (stored_lo_kept a sty dom pb Hlo) as Hkeep.
    subst ra rb. unfold setup_rank in *.
    destruct (set_bounds sty dom pa) as [loa hia].
    destruct (set_bounds sty dom pb) as [lob hib].
    simpl in *. rewrite Hkeep in Hb. lra.
Qed.

End OwnershipClaim.

(** ** The count of [add_random] *)

Section PlacedCount.

Context {ext : Collaborators}.

Variables (P : Params) (dom : Domain).

Lemma gained_grown (r0 r : Rank) (nw : list AtomRec) :
  atoms r = atoms r0 ++ nw -> gained r0 r = length nw.
Proof. intros H. unfold gained, nlocal. rewrite H, length_app. lia. Qed.

(** A placement: every rank keeps its sub-box and what it had, and the
    ranks that own the position gain one entity each. *)
Lemma place_gain (x coord : vec3) (r0 r : Rank) :
  grown r0 r ->
  grown r0 (place P dom x coord r) /\
  gained r0 (place P dom x coord r)
  = (gained r0 r + if owns r0 coord then atoms_per_insert P else 0)%nat.
Proof.
  intros Hg. pose proof (grown_owns r0 r coord Hg) as Ho.
  destruct Hg as (Hlo & Hhi & nw & Hnw).
  unfold place. fold (owns r coord). rewrite Ho.
  destruct (owns r0 coord).
  - destruct (insert_at_appends P dom (ntype P) x r) as (nw1 & Hat & Hlen).
    destruct (insert_at_frame P dom (ntype P) x r) as (_ & Hlo' & Hhi' & _).
    assert (Hat' : atoms (insert_at P dom (ntype P) x r)
                   = atoms r0 ++ (nw ++ nw1))
      by (rewrite Hat, Hnw, app_assoc; reflexivity).
    split.
    + split; [congruence|]. split; [congruence|]. exists (nw ++ nw1). exact Hat'.
    + rewrite (gained_grown _ _ _ Hat'), (gained_grown _ _ _ Hnw), length_app.
      lia.
  - split; [|lia]. split; [exact Hlo|]. split; [exact Hhi|]. exists nw. exact Hnw.
Qed.





End PlacedCount.

Section ShortfallClaim.

Context {ext : Collaborators}.


End ShortfallClaim.

(** ** The overlap test of [add_random] *)

Section Squares.

Local Open Scope Q_scope.

Lemma sq_nonneg (x : Q) : 0 <= x * x.
Proof.
  destruct (Qlt_le_dec x 0) as [Hneg|Hpos].
  - setoid_replace (x * x) with ((- x) * (- x)) by ring.
    apply Qmult_le_0_compat; lra.
  - apply Qmult_le_0_compat; assumption.
Qed.

(** Cauchy-Schwarz, by Lagrange's identity. *)
Lemma dot_bound (u1 u2 u3 d1 d2 d3 : Q) :
  (u1 * d1 + u2 * d2 + u3 * d3) * (u1 * d1 + u2 * d2 + u3 * d3)
  <= (u1 * u1 + u2 * u2 + u3 * u3) * (d1 * d1 + d2 * d2 + d3 * d3).
Proof.
  pose proof (sq_nonneg (u1 * d2 - u2 * d1)) as H1.
  pose proof (sq_nonneg (u1 * d3 - u3 * d1)) as H2.
  pose proof (sq_nonneg (u2 * d3 - u3 * d2)) as H3.
  apply Qle_minus_iff.
  setoid_replace ((u1 * u1 + u2 * u2 + u3 * u3) * (d1 * d1 + d2 * d2 + d3 * d3) +
    - ((u1 * d1 + u2 * d2 + u3 * d3) * (u1 * d1 + u2 * d2 + u3 * d3)))
    with ((u1 * d2 - u2 * d1) * (u1 * d2 - u2 * d1)
          + (u1 * d3 - u3 * d1) * (u1 * d3 - u3 * d1)
          + (u2 * d3 - u3 * d2) * (u2 * d3 - u3 * d2)) by ring.
  lra.
Qed.

(** The triangle inequality on squares: a vector of length o + r or more,
    moved by a vector of length r or less, keeps a length of o or more. *)
Lemma far_core (A B s o r : Q) :
  0 <= o -> 0 <= r -> (o + r) * (o + r) <= A -> 0 <= B -> B <= r * r ->
  s * s <= A * B -> o * o <= A + 2 * s + B.
Proof.
  intros Ho Hr HA HB0 HB Hs.
  pose proof (Qmult_le_0_compat o r Ho Hr) as Hor.
  pose proof (sq_nonneg o) as Hoo. pose proof (sq_nonneg r) as Hrr.
  setoid_replace ((o + r) * (o + r)) with (o * o + 2 * (o * r) + r * r) in HA
    by ring.
  destruct (Qlt_le_dec s 0) as [Hneg|Hpos]; [|lra].
  destruct (Qlt_le_dec (A + 2 * s + B) (o * o)) as [Hlt|Hge]; [|exact Hge].
  exfalso.
  assert (H4 : (A + B - o * o) * (A + B - o * o) < 4 * (s * s)).
  { pose proof (Qmult_lt_0_compat (2 * (- s) - (A + B - o * o))
                  (2 * (- s) + (A + B - o * o)) ltac:(lra) ltac:(lra)) as Hp.
    setoid_replace ((2 * - s - (A + B - o * o)) * (2 * - s + (A + B - o * o)))
      with (4 * (s * s) - (A + B - o * o) * (A + B - o * o)) in Hp by ring.
    lra. }
  assert (Hf : 0 <= (A - (o * o + 2 * (o * r) + r * r))
                    * (A - (o * o - 2 * (o * r) + r * r)))
    by (apply Qmult_le_0_compat; lra).
  assert (Hg : 0 <= (r * r - B) * (2 * A + 2 * (o * o) - B - r * r))
    by (apply Qmult_le_0_compat; lra).
  assert (Hfg : (A + B - o * o) * (A + B - o * o) - 4 * (A * B)
                == (A - (o * o + 2 * (o * r) + r * r))
                   * (A - (o * o - 2 * (o * r) + r * r))
                   + (r * r - B) * (2 * A + 2 * (o * o) - B - r * r)) by ring.
  lra.
Qed.

Lemma normsq_nonneg (v : vec3) : 0 <= normsq v.
Proof.
  unfold normsq. pose proof (sq_nonneg (c0 v)). pose proof (sq_nonneg (c1 v)).
  pose proof (sq_nonneg (c2 v)). lra.
Qed.

(** The same on vectors: [w] minus [d] is long, [d] is short. *)
Lemma shifted_far (w d : vec3) (o r : Q) :
  0 <= o -> 0 <= r ->
  (o + r) * (o + r) <= normsq (diff3 w d) -> normsq d <= r * r ->
  o * o <= normsq w.
Proof.
  intros Ho Hr HU Hd.
  pose proof (dot_bound (c0 w - c0 d) (c1 w - c1 d) (c2 w - c2 d)
                        (c0 d) (c1 d) (c2 d)) as Hcs.
  pose proof (normsq_nonneg d) as Hd0.
  unfold normsq, diff3 in *. cbn [c0 c1 c2] in *.
  pose proof (far_core _ _ _ o r Ho Hr HU Hd0 Hd Hcs) as H.
  setoid_replace (c0 w * c0 w + c1 w * c1 w + c2 w * c2 w)
    with ((c0 w - c0 d) * (c0 w - c0 d) + (c1 w - c1 d) * (c1 w - c1 d)
          + (c2 w - c2 d) * (c2 w - c2 d)
          + 2 * ((c0 w - c0 d) * c0 d + (c1 w - c1 d) * c1 d
                 + (c2 w - c2 d) * c2 d)
          + (c0 d * c0 d + c1 d * c1 d + c2 d * c2 d)) by ring.
  exact H.
Qed.

End Squares.

Lemma FOP_later {A : Type} (R R' : A -> A -> Prop) (Q : A -> Prop) (l : list A) :
  (forall a b, R a b -> Q b -> R' a b) ->
  ForallOrdPairs R l -> Forall Q l -> ForallOrdPairs R' l.
Proof.
  intros Himp. induction 1 as [|a l Ha _ IH]; intros HQ; constructor.
  - inversion HQ as [|? ? _ HQl]; subst.
    rewrite Forall_forall in *. intros b Hb. apply Himp; auto.
  - apply IH. inversion HQ; assumption.
Qed.

Section InsertionFacts.

Context {ext : Collaborators}.

Variables (P : Params) (dom : Domain).

Local Open Scope Q_scope.

(** What an insertion appends, with the positions it gives the atoms. *)
Lemma insert_at_made (x : vec3) (r : Rank) :
  exists nw, atoms (insert_at P dom (ntype P) x r) = atoms r ++ nw /\
             length nw = atoms_per_insert P /\
             forall b, In b (map a_x nw) -> member_of P dom x b.
Proof.
  unfold insert_at, member_of, atoms_per_insert, create_atom, add_molecule,
    rotmat_of.
  destruct (mode P).
  - eexists. split; [reflexivity|]. split; [reflexivity|].
    intros b [<-|[]]. reflexivity.
  - destruct (next_quat P dom r) as [q n] eqn:Eq. eexists. split; [reflexivity|].
    split; [rewrite length_map, length_seq; reflexivity|].
    intros b Hb. rewrite map_map in Hb. cbn [a_x] in Hb.
    apply in_map_iff in Hb. destruct Hb as (m & <- & Hm).
    apply in_seq in Hm. exists r, m. split; [lia|]. rewrite Eq. reflexivity.
Qed.

(** A placement at a position that at most one rank owns: what the ranks
    have created grows by the atoms of one insertion, or by nothing. *)
Lemma place_all_made (x coord : vec3) (l0 l : list Rank) :
  Forall2 grown l0 l -> (length (owners l0 coord) <= 1)%nat ->
  Forall2 grown l0 (map (place P dom x coord) l) /\
  exists mk,
    Permutation (all_new_x l0 (map (place P dom x coord) l))
                (all_new_x l0 l ++ mk) /\
    (length mk <= atoms_per_insert P)%nat /\
    forall b, In b mk -> member_of P dom x b.
Proof.
  induction 1 as [|r0 r l0 l Hg Hl IH]; intros Hone.
  - split; [constructor|]. exists [].
    split; [reflexivity|]. split; [apply Nat.le_0_l|intros b []].
  - unfold owners in Hone. cbn [filter] in Hone. fold (owners l0 coord) in Hone.
    cbn [map]. rewrite !all_new_x_cons.
    destruct (owns r0 coord) eqn:E.
    + assert (Hnil : owners l0 coord = []).
      { destruct (owners l0 coord); [reflexivity|simpl in Hone; lia]. }
      rewrite (place_none P dom x coord l0 l Hl Hnil).
      destruct (place_gain P dom x coord r0 r Hg) as [Hg' _].
      destruct Hg as (Hlo & Hhi & nw & Hnw).
      destruct (insert_at_made x r) as (nw1 & Hat & Hlen & Hmem).
      assert (Hat' : atoms (place P dom x coord r) = atoms r0 ++ (nw ++ nw1)).
      { unfold place. fold (owns r coord).
        rewrite (grown_owns r0 r coord) by (unfold grown; eauto).
        rewrite E, Hat, Hnw, app_assoc. reflexivity. }
      split; [constructor; assumption|].
      exists (map a_x nw1).
      split; [|split; [rewrite length_map, Hlen; apply Nat.le_refl|exact Hmem]].
      rewrite (new_x_grown r0 _ _ Hat'), (new_x_grown r0 r nw Hnw), map_app.
      rewrite <- !app_assoc. apply Permutation_app_head, Permutation_app_comm.
    + assert (Hsame : place P dom x coord r = r).
      { unfold place. fold (owns r coord).
        rewrite (grown_owns r0 r coord Hg), E. reflexivity. }
      rewrite Hsame. destruct (IH Hone) as (Hg' & mk & Hperm & Hlen & Hmem).
      split; [constructor; assumption|].
      exists mk. split; [|split; [exact Hlen|exact Hmem]].
      rewrite <- app_assoc. apply Permutation_app_head. exact Hperm.
Qed.

(** The invariant of the loop of add_random with the overlap test: the
    atoms created so far are those of a list of insertions, each made
    around its accepted position, each accepted at the threshold distance or
    more from every atom of the insertions before it. *)
Lemma random_loop_log (box : vec3 * vec3 * Q) (ranks0 : list Rank) :
  overlapflag P = true -> disjoint_ownership ranks0 ->
  forall count n ninsert ranks log,
    Forall2 grown ranks0 ranks ->
    Permutation (all_new_x ranks0 ranks) (flat_map made log) ->
    Forall (around P dom) log ->
    Forall (fun ins => (length (made ins) <= atoms_per_insert P)%nat) log ->
    ForallOrdPairs (clear_of P) log ->
    exists log',
      Permutation
        (all_new_x ranks0 (fst (random_loop P dom box count n ninsert ranks)))
        (flat_map made log') /\
      Forall (around P dom) log' /\
      Forall (fun ins => (length (made ins) <= atoms_per_insert P)%nat) log' /\
      ForallOrdPairs (clear_of P) log'.
Proof.
  intros Hov Hdis.
  induction count as [|count IH];
    intros n ninsert ranks log Hg Hperm Har Hsz Hfar.
  - exists log. simpl. repeat split; assumption.
  - cbn [random_loop].
    destruct (try_place P dom box ranks (Z.to_nat (maxtry P)) n)
      as [[[x coord]|] n'] eqn:Htry.
    + pose proof (try_place_far P dom box ranks Hov _ _ _ _ _ Htry) as Hx.
      destruct (place_all_made x coord ranks0 ranks Hg (Hdis coord))
        as (Hg' & mk & Hnew & Hlen & Hmem).
      apply (IH n' _ _ (log ++ [mkInsertion x mk]) Hg').
      * rewrite flat_map_app. cbn [flat_map made]. rewrite app_nil_r.
        eapply Permutation_trans; [exact Hnew|].
        apply Permutation_app_tail. exact Hperm.
      * apply Forall_app. split; [exact Har|].
        constructor; [|constructor]. intros b Hb. exact (Hmem b Hb).
      * apply Forall_app. split; [exact Hsz|].
        constructor; [exact Hlen|constructor].
      * apply FOP_snoc; [exact Hfar|].
        intros e He a Ha. cbn [at_x].
        assert (Hin : In a (all_new_x ranks0 ranks)).
        { apply (Permutation_in _ (Permutation_sym Hperm)).
          apply in_flat_map. exists e. split; assumption. }
        destruct (in_all_new_x ranks0 ranks a Hg Hin) as (r & at0 & Hr & Hat & Hav).
        rewrite <- Hav. exact (Hx r at0 Hr Hat).
    + apply (IH n' _ _ log Hg Hperm Har Hsz Hfar).
Qed.

(** From the test to the atoms: the atoms of two insertions are at least
    [overlap] apart, in atom mode because the atom is the accepted position,
    in molecule mode because the threshold was widened by the radius within
    which the atoms of the later molecule lie around its center. *)
Lemma clear_apart (earlier later : Insertion) :
  (mode P = ATOM \/
   (0 <= overlap P /\ template_in_radius P /\ rotations_keep_length P dom /\
    shortest_image)) ->
  clear_of P earlier later -> around P dom later -> atoms_apart P earlier later.
Proof.
  intros Hgeo Hclear Har a b Ha Hb.
  specialize (Hclear a Ha). specialize (Har b Hb).
  unfold member_of, odistsq in *.
  destruct (mode P) eqn:Hmode.
  - subst b. exact Hclear.
  - destruct Hgeo as [Hat|(Ho & (Hr & Hrad) & Hrot & Hmi)]; [discriminate|].
    destruct Har as (r & m & Hm & ->).
    set (d := matvec (rotmat_of P dom r) (nth m (dx (onemol P)) zero3)).
    pose proof (Hmi (at_x later) a d) as Himg.
    assert (Hd : normsq d <= molradius (onemol P) * molradius (onemol P)).
    { eapply Qle_trans; [apply Hrot|apply Hrad, Hm]. }
    change (distsq (add3 d (at_x later)) a)
      with (normsq (minimum_image (diff3 (add3 d (at_x later)) a))).
    apply (shifted_far _ d (overlap P) (molradius (onemol P)) Ho Hr); [|exact Hd].
    eapply Qle_trans; [exact Hclear|exact Himg].
Qed.

End InsertionFacts.

Section OverlapClaim.

Context {ext : Collaborators}.

Local Open Scope Q_scope.

(** C2: with overlap avoidance, a position is rejected exactly when the
    MPI_MAX of the ranks' local flags is not 0, that is when some rank
    stores an atom closer than the threshold (overlap, plus the template
    radius for molecules); so an accepted position, the molecule center in
    molecule mode, is at least the threshold away from every atom stored on
    any rank.  When no position is owned by two ranks, the atoms created by
    all ranks are those of a list of insertions in the order of their
    acceptance, each of one atom or of the atoms of one template at most,
    placed around its accepted position, and each accepted at the threshold
    or more from every atom of the insertions before it, whichever rank
    created them; and the atoms of two insertions are at least overlap
    apart: in atom mode, and in molecule mode when the template lies within
    its radius, the rotations of add_molecule keep lengths and the minimum
    image is the shortest image. *)
Theorem C2_overlap_consensus :
  forall (P : Params) (dom : Domain) (ranks : list Rank) (box : vec3 * vec3 * Q),
    overlapflag P = true ->
    disjoint_ownership ranks ->
    random_box P dom = Ok box ->
    (forall x rs, allreduce_max (map (reject P x) rs) <> 0%Z <->
                  exists r a, In r rs /\ In a (atoms r) /\
                              distsq x (a_x a) < odistsq P) /\
    (forall rs fuel n x coord n',
        try_place P dom box rs fuel n = (Some (x, coord), n') ->
        forall r a, In r rs -> In a (atoms r) -> odistsq P <= distsq x (a_x a)) /\
    (mode P = ATOM ->
     odistsq P = overlap P * overlap P /\
     exists out log,
       add_random P dom ranks = Ok out /\
       Permutation (all_new_x ranks (out_ranks out)) log /\
       ForallOrdPairs (apart P) log) /\
    (exists out log,
       add_random P dom ranks = Ok out /\
       Permutation (all_new_x ranks (out_ranks out)) (flat_map made log) /\
       Forall (around P dom) log /\
       Forall (fun ins => (length (made ins) <= atoms_per_insert P)%nat) log /\
       ForallOrdPairs (clear_of P) log /\
       ((mode P = ATOM \/
         (0 <= overlap P /\ template_in_radius P /\
          rotations_keep_length P dom /\ shortest_image)) ->
        ForallOrdPairs (atoms_apart P) log)).
Proof.
  intros P dom ranks box Hov Hdis Hbox. split; [|split; [|split]].
  - intros x rs. rewrite reject_any. split.
    + intros (r & Hr & Hone).
      destruct (existsb (fun a => Qltb (distsq x (a_x a)) (odistsq P)) (atoms r))
        eqn:E.
      * apply existsb_exists in E. destruct E as (a & Ha & Hlt).
        apply Qltb_lt in Hlt. exists r, a. repeat split; assumption.
      * unfold reject in Hone. rewrite E in Hone. discriminate.
    + intros (r & a & Hr & Ha & Hlt). exists r. split; [exact Hr|].
      destruct (reject_flag P x r) as [H0|H1]; [|exact H1].
      pose proof (proj1 (reject_zero P x r) H0 a Ha). lra.
  - intros rs fuel n x coord n' Htry.
    exact (try_place_far P dom box rs Hov _ _ _ _ _ Htry).
  - intros Hmode. split; [unfold odistsq; rewrite Hmode; reflexivity|].
    destruct (random_loop_apart P dom box ranks Hmode Hov Hdis
                (Z.to_nat (nrandom P)) 30%nat 0%Z ranks [])
      as (log & _ & Hperm & Hfar).
    + apply grown_start.
    + rewrite all_new_x_start. constructor.
    + constructor.
    + unfold add_random. rewrite Hbox. cbn [bind].
      destruct (random_loop P dom box (Z.to_nat (nrandom P)) 30 0%Z ranks)
        as [ranks' ninsert].
      eexists. exists log. split; [reflexivity|].
      split; [exact Hperm|exact Hfar].
  - destruct (random_loop_log P dom box ranks Hov Hdis
                (Z.to_nat (nrandom P)) 30%nat 0%Z ranks [])
      as (log & Hperm & Har & Hsz & Hfar).
    + apply grown_start.
    + rewrite all_new_x_start. constructor.
    + constructor.
    + constructor.
    + constructor.
    + unfold add_random. rewrite Hbox. cbn [bind].
      destruct (random_loop P dom box (Z.to_nat (nrandom P)) 30 0%Z ranks)
        as [ranks' ninsert].
      eexists. exists log. split; [reflexivity|].
      split; [exact Hperm|]. split; [exact Har|]. split; [exact Hsz|].
      split; [exact Hfar|].
      intros Hgeo.
      apply (FOP_later (clear_of P) (atoms_apart P) (around P dom)); try assumption.
      intros e l Hc Ha. exact (clear_apart P dom e l Hgeo Hc Ha).
Qed.

End OverlapClaim.

(** ** The enumeration of the lattice sites *)

Lemma FOP_app {A : Type} (R : A -> A -> Prop) (l1 l2 : list A) :
  ForallOrdPairs R l1 -> ForallOrdPairs R l2 ->
  (forall x y, In x l1 -> In y l2 -> R x y) ->
  ForallOrdPairs R (l1 ++ l2).
Proof.
  induction 1 as [|a l1 Ha Hl IH]; intros H2 Hx; simpl; [exact H2|].
  constructor.
  - apply Forall_app. split; [exact Ha|].
    apply Forall_forall. intros y Hy. apply Hx; [left; reflexivity|exact Hy].
  - apply IH; [exact H2|]. intros x y Hx1 Hy. apply Hx; [right; exact Hx1|exact Hy].
Qed.

(** The lists made for the values of a loop variable, one after the
    other, are in order when each is and the variable orders them. *)
Lemma FOP_flat_map_seq {A B : Type} (g : nat -> A) (f : A -> list B)
    (R : B -> B -> Prop) (len : nat) :
  (forall n, ForallOrdPairs R (f (g n))) ->
  (forall a b x y, (a < b)%nat -> In x (f (g a)) -> In y (f (g b)) -> R x y) ->
  forall start, ForallOrdPairs R (flat_map f (map g (seq start len))).
Proof.
  intros Hone Hord. induction len as [|len IH]; intros start; simpl.
  - constructor.
  - apply FOP_app; [apply Hone|apply IH|].
    intros x y Hx Hy. apply in_flat_map in Hy. destruct Hy as (a & Ha & Hy).
    apply in_map_iff in Ha. destruct Ha as (n & <- & Hn). apply in_seq in Hn.
    apply (Hord start n); [lia|exact Hx|exact Hy].
Qed.

Lemma sites_spec (lat : Lattice) (r : Rank) (s : Site) :
  In s (sites lat r) <->
  ((klo r <= s_k s <= khi r)%Z /\ (jlo r <= s_j s <= jhi r)%Z /\
   (ilo r <= s_i s <= ihi r)%Z /\ (s_m s < nbasis lat)%nat).
Proof.
  unfold sites. rewrite in_flat_map. split.
  - intros (k & Hk & Hin). apply in_flat_map in Hin.
    destruct Hin as (j & Hj & Hin). apply in_flat_map in Hin.
    destruct Hin as (i & Hi & Hin). apply in_map_iff in Hin.
    destruct Hin as (m & Hs & Hm). subst s. simpl.
    apply In_Zrange in Hk, Hj, Hi. apply in_seq in Hm.
    repeat split; lia.
  - intros (Hk & Hj & Hi & Hm). exists (s_k s).
    split; [apply In_Zrange, Hk|]. apply in_flat_map. exists (s_j s).
    split; [apply In_Zrange, Hj|]. apply in_flat_map. exists (s_i s).
    split; [apply In_Zrange, Hi|]. apply in_map_iff. exists (s_m s).
    split; [destruct s; reflexivity|]. apply in_seq. lia.
Qed.

Lemma seq_sites_ordered (k j i : Z) (n : nat) :
  forall start,
    ForallOrdPairs site_before (map (fun m => mkSite k j i m) (seq start n)).
Proof.
  induction n as [|n IH]; intros start; simpl; constructor; [|apply IH].
  apply Forall_forall. intros y Hy. apply in_map_iff in Hy.
  destruct Hy as (m & <- & Hm). apply in_seq in Hm.
  unfold site_before. simpl. right. split; [reflexivity|].
  right. split; [reflexivity|]. right. split; [reflexivity|lia].
Qed.

Lemma sites_in_loop_order (lat : Lattice) (r : Rank) :
  ForallOrdPairs site_before (sites lat r).
Proof.
  unfold sites, Zrange, site_before.
  apply FOP_flat_map_seq.
  - intros nk. apply FOP_flat_map_seq.
    + intros nj. apply FOP_flat_map_seq.
      * intros ni. apply seq_sites_ordered.
      * intros a b x y Hab Hx Hy.
        apply in_map_iff in Hx, Hy.
        destruct Hx as (m1 & <- & _). destruct Hy as (m2 & <- & _).
        simpl. right. split; [reflexivity|]. right. split; [reflexivity|].
        left. lia.
    + intros a b x y Hab Hx Hy. apply in_flat_map in Hx, Hy.
      destruct Hx as (i1 & _ & Hx). destruct Hy as (i2 & _ & Hy).
      apply in_map_iff in Hx, Hy.
      destruct Hx as (m1 & <- & _). destruct Hy as (m2 & <- & _).
      simpl. right. split; [reflexivity|]. left. lia.
  - intros a b x y Hab Hx Hy. apply in_flat_map in Hx, Hy.
    destruct Hx as (j1 & _ & Hx). destruct Hy as (j2 & _ & Hy).
    apply in_flat_map in Hx, Hy.
    destruct Hx as (i1 & _ & Hx). destruct Hy as (i2 & _ & Hy).
    apply in_map_iff in Hx, Hy.
    destruct Hx as (m1 & <- & _). destruct Hy as (m2 & <- & _).
    simpl. left. lia.
Qed.

Lemma sites_NoDup (lat : Lattice) (r : Rank) : NoDup (sites lat r).
Proof.
  assert (H : forall l, ForallOrdPairs site_before l -> NoDup l).
  { induction 1 as [|a l Ha _ IH]; constructor; [|exact IH].
    intros Hin. rewrite Forall_forall in Ha. specialize (Ha a Hin).
    unfold site_before in Ha. lia. }
  apply H, sites_in_loop_order.
Qed.

(** ** The passes of [add_lattice], their loops run step by step *)

Section LatticePasses.

Context {ext : Collaborators}.

Variables (P : Params) (dom : Domain) (lat : Lattice).

Lemma loops_end_frame (r r' : Rank) :
  same_frame r r' -> loops_end r -> loops_end r' /\ loop_turns r' = loop_turns r.
Proof.
  intros (_ & _ & _ & Hil & Hih & Hjl & Hjh & Hkl & Hkh).
  unfold loops_end, loop_turns. rewrite Hil, Hih, Hjl, Hjh, Hkl, Hkh.
  intros H. split; [exact H|reflexivity].
Qed.

(** The COUNT pass on a rank whose loops end and that owns no more than
    MAXSMALLINT sites. *)
Lemma count_pass_steps (r : Rank) (turns : nat) :
  loops_end (set_lattice_bounds P dom r) ->
  (loop_turns (set_lattice_bounds P dom r) <= turns)%nat ->
  (Z.of_nat (length (owned_sites P dom lat r)) <= Int32.MAXSMALLINT)%Z ->
  exists rc,
    loop_lattice_steps turns P dom lat COUNT []
      (set_nlatt_overflow (set_lattice_bounds P dom r) 0) = Some (Ok rc) /\
    count_sites P dom lat r = Ok rc /\
    same_frame (set_lattice_bounds P dom r) rc /\
    atoms rc = atoms r /\
    nlatt rc = Z.of_nat (length (owned_sites P dom lat r)) /\
    nlatt_overflow rc = 0%Z.
Proof.
  intros Hend Hturns Hmax.
  destruct (count_sites_owned P dom lat r Hmax) as (rc & Hrc & Hspec).
  exists rc. split; [|split; [exact Hrc|exact Hspec]].
  rewrite (loop_lattice_steps_end P dom lat COUNT [] _ turns
             (loops_end_flag _ 0%Z Hend) Hturns).
  f_equal. exact Hrc.
Qed.

(** What the INSERT pass and the flag array see of the counted rank. *)
Lemma counted_owned (r rc : Rank) :
  same_frame (set_lattice_bounds P dom r) rc ->
  same_frame (set_lattice_bounds P dom r) (set_nlatt rc 0) /\
  filter (site_passes P dom lat (set_nlatt rc 0)) (sites lat rc)
  = owned_sites P dom lat r.
Proof.
  intros Hf.
  assert (Hfr : same_frame (set_lattice_bounds P dom r) (set_nlatt rc 0))
    by (unfold same_frame in *; simpl; exact Hf).
  split; [exact Hfr|].
  unfold owned_sites. rewrite (sites_frame lat _ rc Hf).
  apply filter_ext. intros s. apply site_passes_frame, Hfr.
Qed.

End LatticePasses.

Section LatticePassResults.

Context {ext : Collaborators}.

(** X1: in atom mode, on a rank whose loop bounds lie below INT_MAX and
    that owns no more than MAXSMALLINT sites, the COUNT pass followed by
    the INSERT pass, their loops run step by step, end: the COUNT pass
    creates nothing and leaves the number of owned sites in nlatt, and the
    INSERT pass appends exactly one atom per owned site, in loop order, of
    the type of the site's basis atom and at the site's position, and leaves
    the sub-box alone. *)
Theorem insert_pass_fills_owned_sites :
  forall (P : Params) (dom : Domain) (lat : Lattice) (r : Rank) (turns : nat),
    mode P = ATOM ->
    loops_end (set_lattice_bounds P dom r) ->
    (loop_turns (set_lattice_bounds P dom r) <= turns)%nat ->
    (Z.of_nat (length (owned_sites P dom lat r)) <= Int32.MAXSMALLINT)%Z ->
    exists rc r',
      loop_lattice_steps turns P dom lat COUNT []
        (set_nlatt_overflow (set_lattice_bounds P dom r) 0) = Some (Ok rc) /\
      atoms rc = atoms r /\
      nlatt rc = Z.of_nat (length (owned_sites P dom lat r)) /\
      nlatt_overflow rc = 0%Z /\
      loop_lattice_steps turns P dom lat INSERT [] rc = Some (Ok r') /\
      atoms r' = atoms r ++ map (site_atom P lat) (owned_sites P dom lat r) /\
      nlatt r' = Z.of_nat (length (owned_sites P dom lat r)) /\
      sublo r' = sublo r /\ subhi r' = subhi r.
Proof.
  intros P dom lat r turns Hmode Hend Hturns Hmax.
  destruct (count_pass_steps P dom lat r turns Hend Hturns Hmax)
    as (rc & Hsteps & _ & Hf & Hat & Hn & Hov).
  destruct (loops_end_frame _ _ Hf Hend) as [Hend' Ht'].
  destruct (counted_owned P dom lat r rc Hf) as [Hfr Hown].
  destruct (run_sites_insert_atoms P dom lat Hmode [] (sites lat rc)
              (set_nlatt rc 0)) as (r' & Hrun & Hat').
  exists rc, r'. split; [exact Hsteps|]. split; [exact Hat|].
  split; [exact Hn|]. split; [exact Hov|].
  destruct (run_sites_nlatt P dom lat INSERT [] _ _ r' 0%Z Hrun eq_refl)
    as [Hf' Hn'].
  destruct (set_lattice_bounds_sub P dom r) as (Hlo & Hhi & _).
  destruct (same_frame_trans _ _ _ Hfr Hf') as (_ & Hlo' & Hhi' & _).
  split; [|split; [|split; [|split]]].
  - rewrite (loop_lattice_steps_end P dom lat INSERT [] rc turns Hend')
      by (rewrite Ht'; exact Hturns).
    rewrite loop_lattice_sites. f_equal. exact Hrun.
  - rewrite Hat', Hown. simpl atoms. rewrite Hat. reflexivity.
  - rewrite Hn'. unfold passing. rewrite Hown. simpl. apply wrap_small.
    unfold Int32.in_range, Int32.MINSMALLINT, Int32.MAXSMALLINT in *. lia.
  - rewrite Hlo', Hlo. reflexivity.
  - rewrite Hhi', Hhi. reflexivity.
Qed.

(** X2: in atom mode, on a rank whose loop bounds lie below INT_MAX and
    that owns no more than MAXSMALLINT sites, the flag array that
    select_subset fills after the COUNT pass has one entry per owned site,
    whatever the size of the subset, and the INSERT_SELECTED pass, its loops
    run step by step, ends and appends exactly the owned sites whose entry
    is set, the n-th owned site reading the n-th entry. *)
Theorem selected_pass_inserts_flagged_sites :
  forall (P : Params) (dom : Domain) (lat : Lattice) (r : Rank) (turns : nat)
         (nsub : Z),
    mode P = ATOM ->
    loops_end (set_lattice_bounds P dom r) ->
    (loop_turns (set_lattice_bounds P dom r) <= turns)%nat ->
    (Z.of_nat (length (owned_sites P dom lat r)) <= Int32.MAXSMALLINT)%Z ->
    exists rc r',
      loop_lattice_steps turns P dom lat COUNT []
        (set_nlatt_overflow (set_lattice_bounds P dom r) 0) = Some (Ok rc) /\
      length (subset_flags P nsub rc) = length (owned_sites P dom lat r) /\
      loop_lattice_steps turns P dom lat INSERT_SELECTED
        (subset_flags P nsub rc) rc = Some (Ok r') /\
      atoms r' = atoms r ++
        map (site_atom P lat)
            (flagged (subset_flags P nsub rc) (owned_sites P dom lat r)) /\
      nlatt r' = Z.of_nat (length (owned_sites P dom lat r)).
Proof.
  intros P dom lat r turns nsub Hmode Hend Hturns Hmax.
  destruct (count_pass_steps P dom lat r turns Hend Hturns Hmax)
    as (rc & Hsteps & _ & Hf & Hat & Hn & Hov).
  destruct (loops_end_frame _ _ Hf Hend) as [Hend' Ht'].
  destruct (counted_owned P dom lat r rc Hf) as [Hfr Hown].
  assert (Hflen : Z.of_nat (length (subset_flags P nsub rc))
                  = Z.of_nat (length (owned_sites P dom lat r))).
  { rewrite subset_flags_length by lia. exact Hn. }
  destruct (run_sites_selected_atoms P dom lat Hmode (subset_flags P nsub rc)
              (sites lat rc) (set_nlatt rc 0) 0%Z) as (r' & Hrun & Hat');
    try reflexivity; try lia.
  { unfold passing. rewrite Hown. lia. }
  exists rc, r'. split; [exact Hsteps|]. split; [lia|].
  split; [|split].
  - rewrite (loop_lattice_steps_end P dom lat INSERT_SELECTED _ rc turns Hend')
      by (rewrite Ht'; exact Hturns).
    rewrite loop_lattice_sites. f_equal. exact Hrun.
  - rewrite Hat', Hown. simpl atoms. rewrite Hat. cbn [Z.to_nat skipn].
    reflexivity.
  - destruct (run_sites_nlatt P dom lat INSERT_SELECTED _ _ _ r' 0%Z Hrun eq_refl)
      as [_ Hn'].
    rewrite Hn'. unfold passing. rewrite Hown. simpl. apply wrap_small.
    unfold Int32.in_range, Int32.MINSMALLINT, Int32.MAXSMALLINT in *. lia.
Qed.

(** X3: on a rank whose loop bounds lie below INT_MAX the three int loops
    of loop_lattice, run step by step with the wrap-around of the int
    counter written out, end, and what they leave is the run of the loop
    body over the sites (k, j, i, m) with klo <= k <= khi, jlo <= j <= jhi,
    ilo <= i <= ihi and m < nbasis, each visited once, in the order of the
    loops: k outermost, then j, then i, and m innermost. *)
Theorem lattice_loops_visit_sites :
  forall (P : Params) (dom : Domain) (lat : Lattice) (action : Action)
         (flag : list Z) (r : Rank),
    loops_end r ->
    (forall turns, (loop_turns r <= turns)%nat ->
       loop_lattice_steps turns P dom lat action flag r
       = Some (run_sites P dom lat action flag (sites lat r) (set_nlatt r 0))) /\
    NoDup (sites lat r) /\
    (forall s, In s (sites lat r) <->
               ((klo r <= s_k s <= khi r)%Z /\ (jlo r <= s_j s <= jhi r)%Z /\
                (ilo r <= s_i s <= ihi r)%Z /\ (s_m s < nbasis lat)%nat)) /\
    ForallOrdPairs site_before (sites lat r).
Proof.
  intros P dom lat action flag r Hend. split; [|split; [|split]].
  - intros turns Hturns.
    rewrite (loop_lattice_steps_end P dom lat action flag r turns Hend Hturns).
    rewrite loop_lattice_sites. reflexivity.
  - apply sites_NoDup.
  - apply sites_spec.
  - apply sites_in_loop_order.
Qed.

(** X11: on a rank whose loop bounds lie below INT_MAX and that owns no
    more than MAXSMALLINT sites, the COUNT pass followed by the INSERT pass,
    their loops run step by step, end, and the rank has gained one atom
    (atom mode) or the atoms of one molecule (molecule mode) per site it
    owns, behind the atoms it had; in molecule mode the number of molecules
    the stitching computes for the rank is the number of sites it owns. *)
Theorem insert_pass_gain_per_site :
  forall (P : Params) (dom : Domain) (lat : Lattice) (r : Rank) (turns : nat),
    loops_end (set_lattice_bounds P dom r) ->
    (loop_turns (set_lattice_bounds P dom r) <= turns)%nat ->
    (Z.of_nat (length (owned_sites P dom lat r)) <= Int32.MAXSMALLINT)%Z ->
    exists rc r',
      loop_lattice_steps turns P dom lat COUNT []
        (set_nlatt_overflow (set_lattice_bounds P dom r) 0) = Some (Ok rc) /\
      loop_lattice_steps turns P dom lat INSERT [] rc = Some (Ok r') /\
      firstn (nlocal r) (atoms r') = atoms r /\
      nlocal r'
      = (nlocal r + atoms_per_insert P * length (owned_sites P dom lat r))%nat /\
      (forall (sys : Stitch.System) (tr : Stitch.TopoRank),
         mode P = MOLECULE -> Stitch.template sys = onemol P ->
         (0 < natoms (onemol P))%nat ->
         Stitch.nlocal_previous tr = nlocal r ->
         length (Stitch.topo tr) = nlocal r' ->
         Stitch.molcreate sys tr = Z.of_nat (length (owned_sites P dom lat r))).
Proof.
  intros P dom lat r turns Hend Hturns Hmax.
  destruct (count_pass_steps P dom lat r turns Hend Hturns Hmax)
    as (rc & Hsteps & _ & Hf & Hat & Hn & Hov).
  destruct (loops_end_frame _ _ Hf Hend) as [Hend' Ht'].
  destruct (counted_owned P dom lat r rc Hf) as [Hfr Hown].
  destruct (run_sites_insert_appends P dom lat [] (sites lat rc) (set_nlatt rc 0))
    as (r' & nw & Hrun & Hat' & Hlen).
  rewrite Hown in Hlen. simpl atoms in Hat'. rewrite Hat in Hat'.
  assert (Hnl : nlocal r'
                = (nlocal r
                   + atoms_per_insert P * length (owned_sites P dom lat r))%nat).
  { unfold nlocal. rewrite Hat', length_app, Hlen. reflexivity. }
  exists rc, r'. split; [exact Hsteps|]. split; [|split; [|split]].
  - rewrite (loop_lattice_steps_end P dom lat INSERT [] rc turns Hend')
      by (rewrite Ht'; exact Hturns).
    rewrite loop_lattice_sites. f_equal. exact Hrun.
  - unfold nlocal. rewrite Hat', firstn_app, Nat.sub_diag, firstn_all.
    simpl. apply app_nil_r.
  - exact Hnl.
  - intros sys tr Hmode Htpl Hpos Hprev Htopo.
    unfold Stitch.molcreate. rewrite Htpl, Hprev, Htopo, Hnl.
    unfold atoms_per_insert. rewrite Hmode.
    set (k := natoms (onemol P)) in *.
    set (c := length (owned_sites P dom lat r)).
    replace (Z.of_nat (nlocal r + k * c) - Z.of_nat (nlocal r))%Z
      with (Z.of_nat c * Z.of_nat k)%Z by lia.
    apply Z.quot_mul. clear - Hpos. lia.
Qed.

End LatticePassResults.

(** ** The molecule IDs and the template rows, in the range of tagint *)

Module StitchRange.

Import Stitch StitchFacts.

Local Open Scope Z_scope.

Lemma local_max_nonneg (r : TopoRank) : 0 <= local_max r.
Proof.
  unfold local_max.
  assert (H : forall l a, 0 <= a ->
            0 <= fold_left (fun mx b => Z.max mx (molecule b)) l a).
  { induction l as [|b l IH]; intros a Ha; simpl; [exact Ha|]. apply IH. lia. }
  apply H. lia.
Qed.

Lemma fold_max_nonneg (l : list Z) : forall a, 0 <= a -> 0 <= fold_left Z.max l a.
Proof.
  induction l as [|b l IH]; intros a Ha; simpl; [exact Ha|]. apply IH. lia.
Qed.

Lemma maxmol_nonneg (ranks : list TopoRank) :
  0 <= allreduce_max (map local_max ranks).
Proof.
  unfold allreduce_max. destruct ranks as [|r ranks]; simpl; [lia|].
  apply fold_max_nonneg, local_max_nonneg.
Qed.

Lemma prefix_total_le (l : list Z) :
  Forall (fun c => 0 <= c) l ->
  forall q, (q <= length l)%nat -> prefix_total q l <= prefix_total (length l) l.
Proof.
  intros Hl q Hq. destruct (Nat.eq_dec q (length l)) as [->|Hne]; [lia|].
  pose proof (prefix_total_mono l Hl q (length l) ltac:(lia) ltac:(lia)) as H.
  assert (0 <= nth q l 0).
  { rewrite Forall_forall in Hl. apply Hl, nth_In. lia. }
  lia.
Qed.

Lemma nth_scan_sum_from (l : list Z) : forall acc q,
  (q < length l)%nat ->
  nth q (scan_sum_from acc l) 0 = acc + prefix_total (S q) l.
Proof.
  unfold prefix_total.
  induction l as [|a l IH]; intros acc q Hq; simpl in Hq; [lia|].
  destruct q as [|q].
  - simpl. destruct l; simpl; lia.
  - change (firstn (S (S q)) (a :: l)) with (a :: firstn (S q) l).
    cbn [scan_sum_from nth fold_right]. rewrite IH by lia. lia.
Qed.

Lemma nth_scan_sum (l : list Z) (q : nat) :
  (q < length l)%nat -> nth q (scan_sum l) 0 = prefix_total (S q) l.
Proof. intros Hq. unfold scan_sum. rewrite nth_scan_sum_from by exact Hq. lia. Qed.

(** X14: on one rank, for a template that carries molecule IDs 1 to
    nmolecules, when moloffset is not negative and moloffset plus
    nmolecules for every created molecule is an ID that a tagint holds,
    every value the loop gives moloffset and every ID it writes is one a
    tagint holds; the IDs of the i-th created molecule lie in the block
    moloffset + i * nmolecules + 1 .. moloffset + (i + 1) * nmolecules: atoms
    of different created molecules never share an ID, and two atoms of one
    created molecule share theirs exactly when the template gives them the
    same ID. *)
Theorem rank_molecule_ids_in_range :
  forall (maxtagint : Z) (sys : System) (moloffset : Z) (r : TopoRank),
    molecule_flag sys = true -> moleculeflag (template sys) = true ->
    (0 < natoms (template sys))%nat ->
    (nlocal_previous r <= length (topo r))%nat ->
    (forall m, (m < natoms (template sys))%nat ->
       1 <= nth m (mol_molecule (template sys)) 0 <= nmolecules (template sys)) ->
    0 <= moloffset ->
    moloffset + molcreate sys r * nmolecules (template sys) <= maxtagint ->
    let id := created_id sys r (stitch_rank sys moloffset r) in
    (forall i, (i <= Z.to_nat (molcreate sys r))%nat ->
       0 <= moloffset + Z.of_nat i * nmolecules (template sys) <= maxtagint) /\
    forall i1 m1 i2 m2,
      (i1 < Z.to_nat (molcreate sys r))%nat -> (m1 < natoms (template sys))%nat ->
      (i2 < Z.to_nat (molcreate sys r))%nat -> (m2 < natoms (template sys))%nat ->
      1 <= id i1 m1 <= maxtagint /\
      (moloffset + Z.of_nat i1 * nmolecules (template sys) < id i1 m1
       <= moloffset + (Z.of_nat i1 + 1) * nmolecules (template sys)) /\
      (i1 <> i2 -> id i1 m1 <> id i2 m2) /\
      (i1 = i2 ->
       (id i1 m1 = id i2 m2 <->
        nth m1 (mol_molecule (template sys)) 0
        = nth m2 (mol_molecule (template sys)) 0)).
Proof.
  intros maxtagint sys moloffset r Hflag Hmf Hn Hp Hids H0 Hfit id.
  pose proof (molcreate_nonneg sys r Hn Hp) as Hmc.
  pose proof (Hids 0%nat Hn) as Hk.
  set (k := nmolecules (template sys)) in *.
  assert (Hsteps : forall i, (i <= Z.to_nat (molcreate sys r))%nat ->
            0 <= moloffset + Z.of_nat i * k <= maxtagint).
  { intros i Hi. assert (Z.of_nat i <= molcreate sys r) by lia. nia. }
  split; [exact Hsteps|].
  intros i1 m1 i2 m2 Hi1 Hm1 Hi2 Hm2.
  subst id. cbv beta.
  rewrite !stitch_rank_ids by assumption.
  unfold id_step, member_id. rewrite Hmf. fold k.
  pose proof (Hids m1 Hm1) as H1. pose proof (Hids m2 Hm2) as H2.
  pose proof (Hsteps i1 ltac:(lia)) as Hlo.
  pose proof (Hsteps (S i1) ltac:(lia)) as Hhi.
  set (a1 := nth m1 _ 0) in *. set (a2 := nth m2 _ 0) in *.
  split; [nia|]. split; [nia|]. split.
  - intros Hne.
    destruct (Nat.lt_trichotomy i1 i2) as [Hlt|[Heq|Hgt]]; [|contradiction|]; nia.
  - intros ->. split; intros H; lia.
Qed.

(** X22: when the template carries no molecule IDs of its own and the
    largest molecule ID that was there before plus the number of molecules
    all ranks created is an ID that a tagint holds, the sums of MPI_Scan,
    the offsets of the ranks, every value the loops give moloffset and every
    ID they write are values a tagint holds; every created molecule receives
    one ID, larger than every ID that was there before, and two molecules,
    of one rank or of two, receive different IDs. *)
Theorem created_molecule_ids_in_range :
  forall (maxtagint : Z) (sys : System) (ranks : list TopoRank),
    molecule_flag sys = true -> moleculeflag (template sys) = false ->
    (0 < natoms (template sys))%nat ->
    Forall (fun r => (nlocal_previous r <= length (topo r))%nat) ranks ->
    allreduce_max (map local_max ranks)
    + prefix_total (length ranks) (map (molcreate sys) ranks) <= maxtagint ->
    (forall q, (q < length ranks)%nat ->
       0 <= nth q (scan_sum (map (molcreate sys) ranks)) 0 <= maxtagint /\
       forall i, (i <= created_count sys ranks q)%nat ->
         0 <= nth q (moloffsets sys ranks) 0 + Z.of_nat i <= maxtagint) /\
    forall q1 i1 m1 q2 i2 m2,
      (q1 < length ranks)%nat -> (i1 < created_count sys ranks q1)%nat ->
      (m1 < natoms (template sys))%nat ->
      (q2 < length ranks)%nat -> (i2 < created_count sys ranks q2)%nat ->
      (m2 < natoms (template sys))%nat ->
      allreduce_max (map local_max ranks) < stitched_id sys ranks q1 i1 m1
      <= maxtagint /\
      ((q1, i1) <> (q2, i2) ->
       stitched_id sys ranks q1 i1 m1 <> stitched_id sys ranks q2 i2 m2) /\
      ((q1, i1) = (q2, i2) ->
       stitched_id sys ranks q1 i1 m1 = stitched_id sys ranks q2 i2 m2).
Proof.
  intros maxtagint sys ranks Hflag Hone Hn Hprev Hfit.
  set (mc := map (molcreate sys) ranks) in *.
  assert (Hmc : Forall (fun c => 0 <= c) mc).
  { apply Forall_map. eapply Forall_impl; [|exact Hprev].
    intros r Hr. apply molcreate_nonneg; assumption. }
  assert (Hlen : length mc = length ranks) by apply length_map.
  pose proof (maxmol_nonneg ranks) as Hmax.
  assert (Hcount : forall q, (q < length ranks)%nat ->
            Z.of_nat (created_count sys ranks q) = nth q mc 0).
  { intros q Hq. unfold created_count, mc.
    rewrite (nth_map_default _ _ q no_rank) by exact Hq.
    apply Z2Nat.id, molcreate_nonneg; [exact Hn|].
    rewrite Forall_forall in Hprev. apply Hprev, nth_In, Hq. }
  assert (Hupto : forall q, (q < length ranks)%nat ->
            prefix_total q mc + nth q mc 0 <= prefix_total (length ranks) mc).
  { intros q Hq. rewrite <- Hlen.
    rewrite <- prefix_total_succ by lia.
    apply prefix_total_le; [exact Hmc|lia]. }
  split.
  - intros q Hq. pose proof (Hupto q Hq) as Hu.
    pose proof (prefix_total_nonneg mc Hmc q) as Hp0.
    assert (Hq0 : 0 <= nth q mc 0).
    { rewrite Forall_forall in Hmc. apply Hmc, nth_In. lia. }
    split.
    + rewrite nth_scan_sum by lia. rewrite prefix_total_succ by lia. lia.
    + intros i Hi. rewrite nth_moloffsets by assumption. fold mc.
      pose proof (Hcount q Hq). lia.
  - intros q1 i1 m1 q2 i2 m2 Hq1 Hi1 Hm1 Hq2 Hi2 Hm2.
    destruct (single_id_molecules_distinct sys ranks Hflag Hone Hn Hprev
                q1 i1 m1 q2 i2 m2 Hq1 Hi1 Hm1 Hq2 Hi2 Hm2) as (Hgt & Hne & Heq).
    split; [|split; [exact Hne|exact Heq]].
    split; [exact Hgt|].
    unfold stitched_id. rewrite nth_stitch by exact Hq1.
    rewrite stitch_rank_ids; try assumption.
    + rewrite nth_moloffsets by assumption. fold mc.
      unfold id_step, member_id. rewrite Hone.
      pose proof (Hupto q1 Hq1). pose proof (Hcount q1 Hq1). lia.
    + rewrite Forall_forall in Hprev. apply Hprev, nth_In, Hq1.
Qed.


End StitchRange.

(** ** The properties at concrete configurations *)

Section Instances.

#[local] Existing Instance plain_world.
#[local] Existing Instance demo_setup.

Lemma demo_box_ordered (a : Axis) :
  (along a (fst (rank_box demo_domain demo_proc_lo))
   <= along a (snd (rank_box demo_domain demo_proc_lo)))%Q.
Proof. destruct a; vm_compute; discriminate. Qed.

Lemma lattice_search_box_sound_witness :
  (forall a, along a (fst (rank_box demo_domain demo_proc_lo))
             <= along a (snd (rank_box demo_domain demo_proc_lo)))%Q /\
  forall x,
    inside (fst (rank_box demo_domain demo_proc_lo))
           (snd (rank_box demo_domain demo_proc_lo)) x ->
    inside (extent_lo cube_region) (extent_hi cube_region) x ->
    inside (fst (lattice_search_box region_params demo_domain demo_proc_lo))
           (snd (lattice_search_box region_params demo_domain demo_proc_lo)) x.
Proof.
  split; [exact demo_box_ordered|].
  intros x Hx Hrg.
  apply (proj2 (lattice_search_box_sound region_params demo_domain demo_proc_lo
                  demo_box_ordered) x Hx).
  intros rg _ Hreg _. inversion Hreg; subst. exact Hrg.
Defined.

Lemma periodic_seam_images_witness :
  (along AxisX (sublo (setup_rank BOX demo_domain demo_proc_lo []))
   <= along AxisX (mkvec 0 0 0))%Q /\
  owns (setup_rank BOX demo_domain demo_proc_hi []) (mkvec 10 0 0) = false.
Proof.
  apply (periodic_seam_images BOX demo_domain demo_proc_lo demo_proc_hi AxisX []
           (mkvec 0 0 0) (mkvec 10 0 0)); try reflexivity;
    vm_compute; discriminate.
Defined.

Lemma random_atoms_acceptable_witness :
  exists out,
    add_random (random_params 3) demo_domain random_ranks = Ok out /\
    Forall2 grown random_ranks (out_ranks out) /\
    forall v, In v (all_new_x random_ranks (out_ranks out)) ->
      acceptable (random_params 3) demo_domain
                 (mkvec 0 0 0, mkvec 10 10 10, (0 + (1 # 2) * (10 - 0))%Q) v.
Proof.
  destruct (random_atoms_acceptable (random_params 3) demo_domain random_ranks
              (mkvec 0 0 0) (mkvec 10 10 10) (0 + (1 # 2) * (10 - 0))%Q
              eq_refl eq_refl) as (out & Hout & Hg & Hacc).
  exists out. split; [exact Hout|]. split; [exact Hg|].
  intros v Hv. exact (proj1 (Hacc v Hv)).
Defined.

Lemma random_counts_witness :
  disjoint_ownership random_ranks /\
  exists out,
    add_random (random_params 3) demo_domain random_ranks = Ok out /\
    (0 <= out_ninsert out <= 3)%Z /\
    (Z.of_nat (length (all_new_x random_ranks (out_ranks out)))
     <= out_ninsert out)%Z.
Proof.
  split; [exact random_ranks_disjoint|].
  apply (random_counts (random_params 3) demo_domain random_ranks
           (mkvec 0 0 0, mkvec 10 10 10, (0 + (1 # 2) * (10 - 0))%Q)
           eq_refl random_ranks_disjoint).
  - vm_compute. split; discriminate.
  - reflexivity.
Defined.

Lemma random_triclinic_exact_witness :
  triclinic tri_domain = true /\
  exists out,
    add_random (random_params 3) tri_domain tri_ranks = Ok out /\
    Z.of_nat (length (all_new_x tri_ranks (out_ranks out))) = out_ninsert out.
Proof.
  split; [reflexivity|].
  apply (random_triclinic_exact (random_params 3) tri_domain tri_ranks
           (mkvec 0 0 0, mkvec 12 10 10, (0 + (1 # 2) * (10 - 0))%Q)
           eq_refl eq_refl tri_ranks_tile).
  - vm_compute. split; discriminate.
  - reflexivity.
Defined.

Lemma stitch_keeps_old_atoms_witness :
  (0 < natoms (Stitch.template two_id_system))%nat /\
  length (Stitch.stitch_rank two_id_system 0 two_molecule_rank)
  = length (Stitch.topo two_molecule_rank) /\
  map Stitch.tag (Stitch.stitch_rank two_id_system 0 two_molecule_rank)
  = map Stitch.tag (Stitch.topo two_molecule_rank).
Proof.
  assert (Hn : (0 < natoms (Stitch.template two_id_system))%nat)
    by (vm_compute; lia).
  assert (Hp : (Stitch.nlocal_previous two_molecule_rank
                <= length (Stitch.topo two_molecule_rank))%nat)
    by (vm_compute; lia).
  split; [exact Hn|].
  destruct (StitchResults.stitch_keeps_old_atoms two_id_system 0
              two_molecule_rank Hn Hp) as (H1 & _ & H3 & _).
  split; [exact H1|exact H3].
Defined.

Lemma bond_partners_in_molecule_witness :
  bondflag (Stitch.template two_id_system) = true /\
  forall p,
    In p (firstn 1 (Stitch.bond_atom
                      (nth 0 (Stitch.stitch_rank two_id_system 0 two_molecule_rank)
                           Stitch.no_atom))) ->
    exists m', (m' < 2)%nat /\
      p = Stitch.tag (nth m' (Stitch.stitch_rank two_id_system 0 two_molecule_rank)
                          Stitch.no_atom).
Proof.
  split; [reflexivity|].
  refine (StitchFacts.bond_partners_in_molecule two_id_system 0 two_molecule_rank
            0 0 eq_refl eq_refl eq_refl _ _ _ _ _ _);
    try (vm_compute; lia).
  - intros [|[|m]] Hm; vm_compute in Hm |- *; try lia; reflexivity.
  - intros p Hp. vm_compute in Hp. destruct Hp as [<-|[]]. vm_compute.
    split; discriminate.
Defined.

Lemma parsed_random_settings_witness :
  Command.parse 0 demo_domain sc_lattice demo_params pair_template random_args
  = Some (Ok random_parsed) /\
  (0 < maxtry (fst random_parsed))%Z /\
  (style (fst random_parsed) = RANDOM ->
   (0 <= nrandom (fst random_parsed))%Z /\ (0 < seed (fst random_parsed))%Z).
Proof.
  assert (H : Command.parse 0 demo_domain sc_lattice demo_params pair_template
                random_args = Some (Ok random_parsed))
    by (vm_compute; reflexivity).
  split; [exact H|].
  destruct (CommandFacts.parsed_random_settings 0 demo_domain sc_lattice
              demo_params pair_template random_args
              (fst random_parsed) (snd random_parsed) H) as (H1 & H2 & _).
  split; [exact H1|exact H2].
Defined.

Lemma parsed_types_valid_witness :
  Command.parse 0 demo_domain sc_lattice demo_params pair_template box_args
  = Some (Ok box_parsed) /\
  (mode (fst box_parsed) = ATOM ->
   (1 <= ntype (fst box_parsed) <= Command.ntypes)%Z /\
   length (basistype (fst box_parsed)) = nbasis sc_lattice /\
   forall m, (m < nbasis sc_lattice)%nat ->
     (1 <= nth m (basistype (fst box_parsed)) 0 <= Command.ntypes)%Z).
Proof.
  assert (H : Command.parse 0 demo_domain sc_lattice demo_params pair_template
                box_args = Some (Ok box_parsed))
    by (vm_compute; reflexivity).
  split; [exact H|].
  exact (proj1 (proj2 (CommandFacts.parsed_types_valid 0 demo_domain sc_lattice
                         demo_params pair_template box_args
                         (fst box_parsed) (snd box_parsed) H))).
Defined.

Lemma parsed_variables_complete_witness :
  Command.parse 0 demo_domain sc_lattice demo_params pair_template box_args
  = Some (Ok box_parsed) /\
  (varflag (fst box_parsed) = true ->
   style (fst box_parsed) <> SINGLE /\
   (xstr (fst box_parsed) = true \/ ystr (fst box_parsed) = true
    \/ zstr (fst box_parsed) = true) /\
   exists v, Command.vstr (snd box_parsed) = Some v /\
             (0 <= Command.variable_find v)%Z /\
             Command.equalstyle (Command.variable_find v) = true).
Proof.
  assert (H : Command.parse 0 demo_domain sc_lattice demo_params pair_template
                box_args = Some (Ok box_parsed))
    by (vm_compute; reflexivity).
  split; [exact H|].
  exact (proj1 (CommandFacts.parsed_variables_complete 0 demo_domain sc_lattice
                  demo_params pair_template box_args
                  (fst box_parsed) (snd box_parsed) H)).
Defined.

Lemma parsed_subset_valid_witness :
  Command.parse 0 demo_domain sc_lattice demo_params pair_template box_args
  = Some (Ok box_parsed) /\
  (subsetflag (fst box_parsed) = SUBSET ->
   In "subset"%string box_args /\
   (0 < nsubset (fst box_parsed))%Z /\ (0 < subsetseed (fst box_parsed))%Z).
Proof.
  assert (H : Command.parse 0 demo_domain sc_lattice demo_params pair_template
                box_args = Some (Ok box_parsed))
    by (vm_compute; reflexivity).
  split; [exact H|].
  exact (proj2 (CommandFacts.parsed_subset_valid 0 demo_domain sc_lattice
                  demo_params pair_template box_args
                  (fst box_parsed) (snd box_parsed) H)).
Defined.

Lemma absent_keywords_default_witness :
  Command.parse 0 demo_domain sc_lattice demo_params pair_template plain_args
  = Some (Ok plain_parsed) /\
  (~ In "remap"%string plain_args -> remapflag (fst plain_parsed) = false) /\
  (~ In "mol"%string plain_args -> mode (fst plain_parsed) = ATOM).
Proof.
  assert (H : Command.parse 0 demo_domain sc_lattice demo_params pair_template
                plain_args = Some (Ok plain_parsed))
    by (vm_compute; reflexivity).
  split; [exact H|].
  destruct (CommandFacts.absent_keywords_default 0 demo_domain sc_lattice
              demo_params pair_template plain_args
              (fst plain_parsed) (snd plain_parsed) H) as (_ & H2 & H3 & _).
  split; [exact H2|exact H3].
Defined.

End Instances.

(** ** The claims on add_lattice and add_random at concrete inputs *)

Lemma demo_loops_end :
  forall r, In r demo_ranks ->
            loops_end (@set_lattice_bounds plain_world demo_params demo_domain r).
Proof.
  intros r [<-|[<-|[]]]; vm_compute; repeat split; (reflexivity || discriminate).
Defined.

Lemma C5_witness :
  (Z.of_nat (length demo_ranks) <= Int32.MAXSMALLINT)%Z /\
  (forall r, In r demo_ranks ->
             loops_end (@set_lattice_bounds plain_world demo_params demo_domain r)) /\
  exists counted,
    on_all (@count_sites plain_world demo_params demo_domain sc_lattice) demo_ranks
    = Ok counted /\
    Forall2 (fun r rc =>
               forall turns,
                 (loop_turns (@set_lattice_bounds plain_world demo_params
                                demo_domain r) <= turns)%nat ->
                 @loop_lattice_steps plain_world turns demo_params demo_domain
                   sc_lattice COUNT []
                   (set_nlatt_overflow
                      (@set_lattice_bounds plain_world demo_params demo_domain r) 0)
                 = Some (Ok rc)) demo_ranks counted /\
    Forall (fun rc =>
              nlatt_overflow rc
              = (if (@passing plain_world demo_params demo_domain sc_lattice rc
                       (sites sc_lattice rc) >? Int32.MAXSMALLINT)%Z
                 then 1 else 0)%Z) counted /\
    (@add_lattice plain_world demo_params demo_domain sc_lattice demo_ranks
     = Fatal "Create_atoms lattice size overflow on 1 or more procs"
     <-> exists rc, In rc counted /\ nlatt_overflow rc = 1%Z).
Proof.
  split; [exact two_ranks_fit|]. split; [exact demo_loops_end|].
  exact (@C5_overflow_flag_reduced plain_world demo_params demo_domain sc_lattice
           demo_ranks two_ranks_fit demo_loops_end).
Defined.

Lemma C4_witness :
  let ra := setup_rank BOX demo_domain demo_proc_lo [] in
  let rb := setup_rank BOX demo_domain demo_proc_hi [] in
  (0 < atoms_per_insert demo_params)%nat /\
  shared_boundary AxisX demo_domain demo_proc_lo demo_proc_hi /\
  along AxisX (subhi rb) = (10 - 2 * (10 * (1 # 1000000)))%Q /\
  (exists r',
      @site_body plain_world demo_params demo_domain sc_lattice INSERT []
                 (mkSite 1 1 5 0) rb = Ok r' /\
      has_created demo_params rb r') /\
  @site_body plain_world demo_params demo_domain sc_lattice INSERT []
             (mkSite 1 1 5 0) ra = Ok ra /\
  ~ (half_open (sublo ra) (subhi ra) (mkvec 5 1 1) /\
     half_open (sublo rb) (subhi rb) (mkvec 5 1 1)).
Proof.
  intros ra rb.
  assert (Hk : (0 < atoms_per_insert demo_params)%nat) by (vm_compute; reflexivity).
  assert (H : shared_boundary AxisX demo_domain demo_proc_lo demo_proc_hi).
  { unfold shared_boundary; simpl. repeat split; try reflexivity; discriminate. }
  split; [exact Hk|]. split; [exact H|].
  destruct (@C4_ownership_half_open plain_world demo_params BOX demo_domain
              sc_lattice demo_proc_lo demo_proc_hi AxisX [] Hk H)
    as (Hb & Hsite & _ & _ & Hone).
  split; [exact (proj2 (Hb demo_proc_hi AxisX))|].
  split; [|split; [|exact (Hone (mkvec 5 1 1))]].
  - destruct (Hsite rb [] (mkSite 1 1 5 0) eq_refl) as (r' & Hr' & Hiff & _).
    exists r'. split; [exact Hr'|]. apply Hiff.
    apply in_subbox_spec. vm_compute. reflexivity.
  - destruct (Hsite ra [] (mkSite 1 1 5 0) eq_refl) as (r' & Hr' & _ & Hout).
    rewrite Hr'. f_equal. apply Hout. intros Hin.
    apply in_subbox_spec in Hin. vm_compute in Hin. discriminate.
Defined.


Lemma flat_map_bound {A B : Type} (f : A -> list B) (k : nat) (l : list A) :
  Forall (fun a => (length (f a) <= k)%nat) l ->
  (length (flat_map f l) <= k * length l)%nat.
Proof.
  induction 1 as [|a l Ha _ IH]; simpl; [lia|].
  rewrite length_app. lia.
Defined.

Lemma stepping_rotations (P : Params) (dom : Domain) :
  @rotations_keep_length stepping_world P dom.
Proof.
  intros r [a b c]. unfold rotmat_of, normsq, matvec, dot3. simpl.
  match goal with
  | |- (?l <= ?r)%Q => assert (E : (l == r)%Q) by ring; rewrite E; apply Qle_refl
  end.
Defined.

Lemma stepping_image : @shortest_image stepping_world.
Proof.
  intros [c0 c1 c2] [a0 a1 a2] [d0 d1 d2].
  unfold distsq, normsq, diff3, add3. simpl.
  match goal with
  | |- (?l <= ?r)%Q => assert (E : (l == r)%Q) by ring; rewrite E; apply Qle_refl
  end.
Defined.

Lemma pair_in_radius (n : Z) : template_in_radius (molecule_params n).
Proof.
  split; [vm_compute; discriminate|].
  intros [|[|m]] Hm; [vm_compute; discriminate|vm_compute; discriminate|].
  change (natoms (onemol (molecule_params n))) with 2%nat in Hm. lia.
Defined.

Lemma C2_witness :
  overlapflag (molecule_params 3) = true /\
  disjoint_ownership random_ranks /\
  exists out log,
    @add_random stepping_world (molecule_params 3) demo_domain random_ranks
    = Ok out /\
    out_ninsert out = 3%Z /\
    map nlocal (out_ranks out) = [2%nat; 4%nat] /\
    Permutation (all_new_x random_ranks (out_ranks out)) (flat_map made log) /\
    (3 <= length log)%nat /\
    ForallOrdPairs (@atoms_apart stepping_world (molecule_params 3)) log.
Proof.
  split; [reflexivity|]. split; [exact random_ranks_disjoint|].
  destruct (@C2_overlap_consensus stepping_world (molecule_params 3) demo_domain
              random_ranks _ eq_refl random_ranks_disjoint eq_refl)
    as (_ & _ & _ & out & log & Hout & Hperm & _ & Hsz & _ & Hapart).
  assert (Hrun : match @add_random stepping_world (molecule_params 3) demo_domain
                         random_ranks with
                 | Ok o => out_ninsert o = 3%Z /\
                           map nlocal (out_ranks o) = [2%nat; 4%nat] /\
                           length (all_new_x random_ranks (out_ranks o)) = 6%nat
                 | _ => True
                 end) by (vm_compute; repeat split; reflexivity).
  rewrite Hout in Hrun. destruct Hrun as (Hn & Hloc & Hsix).
  exists out, log. split; [exact Hout|]. split; [exact Hn|].
  split; [exact Hloc|]. split; [exact Hperm|]. split.
  - pose proof (flat_map_bound made _ log Hsz) as Hb.
    rewrite <- (Permutation_length Hperm), Hsix in Hb.
    change (atoms_per_insert (molecule_params 3)) with 2%nat in Hb. lia.
  - apply Hapart. right. split; [vm_compute; discriminate|].
    split; [apply pair_in_radius|].
    split; [apply stepping_rotations|exact stepping_image].
Defined.

(** ** The passes and the ID ranges at concrete configurations *)

Section PassInstances.

#[local] Existing Instance plain_world.

Lemma demo_passes (P : Params) :
  P = demo_params \/ P = subset_params \/ P = mol_lattice_params ->
  loops_end (set_lattice_bounds P demo_domain (demo_rank demo_proc_lo)) /\
  (Z.of_nat (length (owned_sites P demo_domain sc_lattice
                                 (demo_rank demo_proc_lo)))
   <= Int32.MAXSMALLINT)%Z /\
  length (owned_sites P demo_domain sc_lattice (demo_rank demo_proc_lo))
  = 500%nat.
Proof.
  intros [->|[->| ->]]; (split; [|split]);
    vm_compute; repeat split; (reflexivity || discriminate).
Defined.

Lemma insert_pass_fills_owned_sites_witness :
  let r := demo_rank demo_proc_lo in
  let turns := loop_turns (set_lattice_bounds demo_params demo_domain r) in
  mode demo_params = ATOM /\
  loops_end (set_lattice_bounds demo_params demo_domain r) /\
  exists rc r',
    loop_lattice_steps turns demo_params demo_domain sc_lattice COUNT []
      (set_nlatt_overflow (set_lattice_bounds demo_params demo_domain r) 0)
    = Some (Ok rc) /\
    nlatt rc = 500%Z /\
    loop_lattice_steps turns demo_params demo_domain sc_lattice INSERT [] rc
    = Some (Ok r') /\
    atoms r' = atoms r ++ map (site_atom demo_params sc_lattice)
                              (owned_sites demo_params demo_domain sc_lattice r) /\
    nlocal r' = 500%nat.
Proof.
  intros r turns.
  destruct (demo_passes demo_params (or_introl eq_refl)) as (Hend & Hmax & H500).
  split; [reflexivity|]. split; [exact Hend|].
  destruct (insert_pass_fills_owned_sites demo_params demo_domain sc_lattice r
              turns eq_refl Hend (Nat.le_refl _) Hmax)
    as (rc & r' & Hc & _ & Hn & _ & Hi & Hat & _).
  exists rc, r'. split; [exact Hc|].
  split; [unfold r in Hn; rewrite Hn, H500; reflexivity|].
  split; [exact Hi|]. split; [exact Hat|].
  unfold nlocal. rewrite Hat, length_app, length_map. unfold r.
  rewrite H500. reflexivity.
Defined.

Lemma selected_pass_inserts_flagged_sites_witness :
  let r := demo_rank demo_proc_lo in
  let turns := loop_turns (set_lattice_bounds subset_params demo_domain r) in
  mode subset_params = ATOM /\
  loops_end (set_lattice_bounds subset_params demo_domain r) /\
  exists rc r',
    loop_lattice_steps turns subset_params demo_domain sc_lattice COUNT []
      (set_nlatt_overflow (set_lattice_bounds subset_params demo_domain r) 0)
    = Some (Ok rc) /\
    length (subset_flags subset_params 4 rc) = 500%nat /\
    loop_lattice_steps turns subset_params demo_domain sc_lattice
      INSERT_SELECTED (subset_flags subset_params 4 rc) rc = Some (Ok r') /\
    atoms r' = atoms r ++
      map (site_atom subset_params sc_lattice)
          (flagged (subset_flags subset_params 4 rc)
                   (owned_sites subset_params demo_domain sc_lattice r)).
Proof.
  intros r turns.
  destruct (demo_passes subset_params (or_intror (or_introl eq_refl)))
    as (Hend & Hmax & H500).
  split; [reflexivity|]. split; [exact Hend|].
  destruct (selected_pass_inserts_flagged_sites subset_params demo_domain
              sc_lattice r turns 4%Z eq_refl Hend (Nat.le_refl _) Hmax)
    as (rc & r' & Hc & Hlen & Hi & Hat & _).
  exists rc, r'. split; [exact Hc|].
  split; [unfold r in Hlen; rewrite Hlen; exact H500|].
  split; [exact Hi|exact Hat].
Defined.

Lemma lattice_loops_visit_sites_witness :
  let r := set_lattice_bounds demo_params demo_domain (demo_rank demo_proc_lo) in
  loops_end r /\
  loop_lattice_steps (loop_turns r) demo_params demo_domain sc_lattice COUNT [] r
  = Some (run_sites demo_params demo_domain sc_lattice COUNT [] (sites sc_lattice r)
            (set_nlatt r 0)) /\
  In (mkSite 1 1 4 0) (sites sc_lattice r) /\
  ~ In (mkSite 1 1 4 1) (sites sc_lattice r).
Proof.
  intros r.
  destruct (demo_passes demo_params (or_introl eq_refl)) as (Hend & _).
  split; [exact Hend|].
  destruct (lattice_loops_visit_sites demo_params demo_domain sc_lattice COUNT []
              r Hend) as (Hrun & _ & Hin & _).
  split; [exact (Hrun _ (Nat.le_refl _))|]. split.
  - apply Hin. vm_compute. repeat split; (discriminate || lia).
  - intros H. apply Hin in H. destruct H as (_ & _ & _ & Hm).
    vm_compute in Hm. lia.
Defined.

Lemma insert_pass_gain_per_site_witness :
  let r := demo_rank demo_proc_lo in
  let turns := loop_turns (set_lattice_bounds mol_lattice_params demo_domain r) in
  loops_end (set_lattice_bounds mol_lattice_params demo_domain r) /\
  exists rc r',
    loop_lattice_steps turns mol_lattice_params demo_domain sc_lattice COUNT []
      (set_nlatt_overflow (set_lattice_bounds mol_lattice_params demo_domain r) 0)
    = Some (Ok rc) /\
    loop_lattice_steps turns mol_lattice_params demo_domain sc_lattice INSERT []
      rc = Some (Ok r') /\
    nlocal r' = 1000%nat.
Proof.
  intros r turns.
  destruct (demo_passes mol_lattice_params (or_intror (or_intror eq_refl)))
    as (Hend & Hmax & H500).
  split; [exact Hend|].
  destruct (insert_pass_gain_per_site mol_lattice_params demo_domain sc_lattice
              r turns Hend (Nat.le_refl _) Hmax)
    as (rc & r' & Hc & Hi & _ & Hn & _).
  exists rc, r'. split; [exact Hc|]. split; [exact Hi|].
  unfold r in Hn. rewrite Hn, H500. reflexivity.
Defined.

Lemma rank_molecule_ids_in_range_witness :
  moleculeflag (Stitch.template two_id_system) = true /\
  (0 + Stitch.molcreate two_id_system two_molecule_rank
       * nmolecules (Stitch.template two_id_system) <= 2147483647)%Z /\
  (1 <= Stitch.created_id two_id_system two_molecule_rank
          (Stitch.stitch_rank two_id_system 0 two_molecule_rank) 0 1
   <= 2147483647)%Z /\
  Stitch.created_id two_id_system two_molecule_rank
    (Stitch.stitch_rank two_id_system 0 two_molecule_rank) 0 1
  <> Stitch.created_id two_id_system two_molecule_rank
       (Stitch.stitch_rank two_id_system 0 two_molecule_rank) 1 0.
Proof.
  split; [reflexivity|].
  assert (Hfit : (0 + Stitch.molcreate two_id_system two_molecule_rank
                      * nmolecules (Stitch.template two_id_system)
                  <= 2147483647)%Z) by (vm_compute; discriminate).
  split; [exact Hfit|].
  assert (Hids : forall m, (m < natoms (Stitch.template two_id_system))%nat ->
            (1 <= nth m (mol_molecule (Stitch.template two_id_system)) 0
             <= nmolecules (Stitch.template two_id_system))%Z).
  { intros [|[|m]] Hm; vm_compute in Hm |- *; try lia; split; discriminate. }
  assert (Hn : (0 < natoms (Stitch.template two_id_system))%nat)
    by (vm_compute; lia).
  assert (Hp : (Stitch.nlocal_previous two_molecule_rank
                <= length (Stitch.topo two_molecule_rank))%nat)
    by (vm_compute; lia).
  destruct (StitchRange.rank_molecule_ids_in_range 2147483647 two_id_system 0
              two_molecule_rank eq_refl eq_refl Hn Hp Hids (Z.le_refl 0) Hfit)
    as (_ & Hall).
  destruct (Hall 0%nat 1%nat 1%nat 0%nat) as (Hr & _ & Hne & _);
    try (vm_compute; lia).
  split; [exact Hr|]. apply Hne. discriminate.
Defined.


Lemma created_molecule_ids_in_range_witness :
  moleculeflag (Stitch.template pair_system) = false /\
  (allreduce_max (map Stitch.local_max two_id_ranks)
   + Stitch.prefix_total (length two_id_ranks)
       (map (Stitch.molcreate pair_system) two_id_ranks) <= 2147483647)%Z /\
  (allreduce_max (map Stitch.local_max two_id_ranks)
   < Stitch.stitched_id pair_system two_id_ranks 0 0 0 <= 2147483647)%Z /\
  Stitch.stitched_id pair_system two_id_ranks 0 0 0
  <> Stitch.stitched_id pair_system two_id_ranks 1 0 1.
Proof.
  split; [reflexivity|].
  assert (Hfit : (allreduce_max (map Stitch.local_max two_id_ranks)
                  + Stitch.prefix_total (length two_id_ranks)
                      (map (Stitch.molcreate pair_system) two_id_ranks)
                  <= 2147483647)%Z) by (vm_compute; discriminate).
  split; [exact Hfit|].
  assert (Hr : Forall (fun r => (Stitch.nlocal_previous r
                                 <= length (Stitch.topo r))%nat) two_id_ranks)
    by (repeat constructor; vm_compute; lia).
  assert (Hn : (0 < natoms (Stitch.template pair_system))%nat)
    by (vm_compute; lia).
  destruct (StitchRange.created_molecule_ids_in_range 2147483647 pair_system
              two_id_ranks eq_refl eq_refl Hn Hr Hfit) as (_ & Hall).
  destruct (Hall 0%nat 0%nat 0%nat 1%nat 0%nat 1%nat) as (H1 & H2 & _);
    try (vm_compute; lia).
  split; [exact H1|]. apply H2. discriminate.
Defined.

End PassInstances.
